(** * Event-log store: writer (data/event-log-writer.js) and service
    (services/event-log-service.js)

    A shallow embedding of the two JavaScript classes that create, update,
    move and read event records kept in a spreadsheet, and the properties of
    them that the specification states.  The reader of the opportunities
    (data/opportunity-reader.js), whose records the service joins the events
    with, is embedded after them, with properties of its own.

    Conventions of the embedding.
    - A JavaScript string is a [string] holding its UTF-8 bytes; the Chinese
      column labels of the source are written as they are.
    - A JavaScript value that is stored or passed around ([value]) is
      [undefined], [null], a boolean, an integral number or a string.  The
      numbers the code computes with [Number(...)] are of type [num] and can
      also be [NaN], an infinity or a fraction.  Numbers are doubles: where
      the code converts a string to a number, the fraction the numeral denotes
      is rounded to the nearest double ([double], [NumberOf]), and where it
      converts a number to a string, the number is written as
      [Number::toString] writes it ([Number_toString]).  A number that is stored
      ([Int z]) is an integral double.
    - A plain object is a finite map from property names to values
      ([gmap string value]); reading a property that is absent gives
      [Undefined].
    - Asynchronous code is run in program order; every call that leaves the
      two classes (spreadsheet client, reader, base writer, calendar) is a
      field of [backend], acts on an abstract external state, and is written
      down in the world's [trace]. *)

From Stdlib Require Import ZArith QArith Qabs Qround String Ascii List Lia.
From Stdlib Require Import DecimalString DecimalPos.
From stdpp Require Import base option gmap strings list fin_sets.

Open Scope string_scope.
Open Scope Z_scope.

(** ** JavaScript primitives used by the two classes *)

Module JS.

(** The Number type, as far as the code computes with it. *)
Inductive num : Type :=
| NaN
| PInf
| NInf
| Fin (q : Q).

Definition of_Z (z : Z) : num := Fin (inject_Z z).

Inductive value : Type :=
| Undefined
| Null
| Bool (b : bool)
| Int (z : Z)
| Str (s : string).

#[global] Instance value_eq_dec : EqDecision value.
Proof. solve_decision. Defined.

(** [ToBoolean]. *)
Definition truthy (v : value) : bool :=
  match v with
  | Undefined | Null => false
  | Bool b => b
  | Int z => negb (z =? 0)
  | Str s => negb (String.eqb s "")
  end.

(** [a || b]. *)
Definition or (a b : value) : value := if truthy a then a else b.

(** [a === b] on values of the model. *)
Definition strict_eq (a b : value) : bool := bool_decide (a = b).

(** *** White space ([StrWhiteSpaceChar]) in UTF-8 *)

Definition ws1 (a : ascii) : bool :=
  let n := N_of_ascii a in
  (((9 <=? n) && (n <=? 13)) || (n =? 32))%N.

(* U+00A0 *)
Definition ws2 (a b : ascii) : bool :=
  ((N_of_ascii a =? 194) && (N_of_ascii b =? 160))%N.

(* U+1680, U+2000..U+200A, U+2028, U+2029, U+202F, U+205F, U+3000, U+FEFF *)
Definition ws3 (a b c : ascii) : bool :=
  let x := N_of_ascii a in
  let y := N_of_ascii b in
  let z := N_of_ascii c in
  (((x =? 225) && (y =? 154) && (z =? 128))
   || ((x =? 226) && (y =? 128)
       && (((128 <=? z) && (z <=? 138)) || (z =? 168) || (z =? 169) || (z =? 175)))
   || ((x =? 226) && (y =? 129) && (z =? 159))
   || ((x =? 227) && (y =? 128) && (z =? 128))
   || ((x =? 239) && (y =? 187) && (z =? 191)))%N.

Fixpoint skip_ws (s : string) : string :=
  match s with
  | EmptyString => s
  | String a s1 =>
      if ws1 a then skip_ws s1
      else
        match s1 with
        | String b s2 =>
            if ws2 a b then skip_ws s2
            else
              match s2 with
              | String c s3 => if ws3 a b c then skip_ws s3 else s
              | EmptyString => s
              end
        | EmptyString => s
        end
  end.

(** *** Digits *)

Definition digit_of (radix : N) (a : ascii) : option N :=
  let n := N_of_ascii a in
  let d :=
    (if (48 <=? n) && (n <=? 57) then Some (n - 48)
     else if (97 <=? n) && (n <=? 122) then Some (n - 87)
     else if (65 <=? n) && (n <=? 90) then Some (n - 55)
     else None)%N in
  match d with
  | Some v => if (v <? radix)%N then Some v else None
  | None => None
  end.

(** The longest prefix of digits in [radix], and what follows it. *)
Fixpoint span_digits (radix : N) (s : string) : list N * string :=
  match s with
  | EmptyString => ([], s)
  | String a r =>
      match digit_of radix a with
      | Some d => let '(ds, rest) := span_digits radix r in (d :: ds, rest)
      | None => ([], s)
      end
  end.

Definition digits_value (radix : N) (ds : list N) : N :=
  fold_left (fun acc d => (acc * radix + d)%N) ds 0%N.

Definition take_sign (s : string) : bool * string :=
  match s with
  | String "-" r => (true, r)
  | String "+" r => (false, r)
  | _ => (false, s)
  end.

Definition apply_sign (neg : bool) (n : N) : Z :=
  if neg then - Z.of_N n else Z.of_N n.

(** *** [parseInt(string)] without a radix; [None] is [NaN]. *)
Definition parseInt_string (s : string) : option Z :=
  let '(neg, s2) := take_sign (skip_ws s) in
  let '(radix, s3) :=
    match s2 with
    | String "0" (String "x" r) | String "0" (String "X" r) => (16%N, r)
    | _ => (10%N, s2)
    end in
  match span_digits radix s3 with
  | ([], _) => None
  | (ds, _) => Some (apply_sign neg (digits_value radix ds))
  end.

(** *** [Number(string)] ([StringToNumber]) *)

Definition strip_prefix (p s : string) : option string :=
  if String.prefix p s
  then Some (String.substring (String.length p) (String.length s - String.length p) s)
  else None.

(* ExponentPart, when one is there *)
Definition exponent_part (s : string) : Z * string :=
  match s with
  | String "e" r | String "E" r =>
      let '(neg, r1) := take_sign r in
      match span_digits 10 r1 with
      | ([], _) => (0, s)
      | (ds, rest) => (apply_sign neg (digits_value 10 ds), rest)
      end
  | _ => (0, s)
  end.

(* StrUnsignedDecimalLiteral other than Infinity: [None] when [s] does not
   start with one *)
Definition unsigned_decimal (s : string) : option (Q * string) :=
  let '(ip, r1) := span_digits 10 s in
  let '(fp, r2) :=
    match r1 with
    | String "." r => span_digits 10 r
    | _ => ([], r1)
    end in
  match ip, fp with
  | [], [] => None
  | _, _ =>
      let '(e, r3) := exponent_part r2 in
      let k := Z.of_nat (List.length fp) in
      let m := Z.of_N (digits_value 10 (ip ++ fp)) in
      Some (Qred (inject_Z m * Qpower (10 # 1) (e - k)), r3)
  end.

(* NonDecimalIntegerLiteral *)
Definition non_decimal (s : string) : option (option (Q * string)) :=
  let lit radix r :=
    match span_digits radix r with
    | ([], _) => None
    | (ds, rest) => Some (inject_Z (Z.of_N (digits_value radix ds)), rest)
    end in
  match s with
  | String "0" (String "x" r) | String "0" (String "X" r) => Some (lit 16%N r)
  | String "0" (String "o" r) | String "0" (String "O" r) => Some (lit 8%N r)
  | String "0" (String "b" r) | String "0" (String "B" r) => Some (lit 2%N r)
  | _ => None
  end.

(* StrNumericLiteral at the head of [s]: its value and what follows *)
Definition numeric_literal (s : string) : option (num * string) :=
  match non_decimal s with
  | Some (Some (q, rest)) => Some (Fin q, rest)
  | Some None => None
  | None =>
      let '(neg, r) := take_sign s in
      match strip_prefix "Infinity" r with
      | Some rest => Some (if neg then NInf else PInf, rest)
      | None =>
          match unsigned_decimal r with
          | Some (q, rest) => Some (Fin (if neg then Qred (- q) else q), rest)
          | None => None
          end
      end
  end.

Definition StringToNumber (s : string) : num :=
  match skip_ws s with
  | EmptyString => of_Z 0
  | t =>
      match numeric_literal t with
      | Some (v, rest) =>
          match skip_ws rest with
          | EmptyString => v
          | _ => NaN
          end
      | None => NaN
      end
  end.

(** *** The Number type: the doubles among the fractions

    A numeral denotes a fraction, its mathematical value; the Number it gives
    is the double nearest to that fraction, the one with the even significand
    of two that are as near, and an infinity beyond the largest double. *)

(** The integer nearest to [a / b], the even one of two, for [b > 0]. *)
Definition round_half_even (a b : Z) : Z :=
  let f := a / b in
  match 2 * (a mod b) ?= b with
  | Lt => f
  | Gt => f + 1
  | Eq => if Z.even f then f else f + 1
  end.

(** The double nearest to [a / b] for positive [a] and [b]: [Some (n, p)] is
    [n * 2 ^ p], where [p] is the exponent of the last bit of the doubles
    between the powers of 2 around [a / b]; [None] is an overflow. *)
Definition round_pos (a b : Z) : option (Z * Z) :=
  let e0 := Z.log2 a - Z.log2 b in
  let above := if 0 <=? e0 then 2 ^ e0 * b <=? a else b <=? a * 2 ^ (- e0) in
  (* 2 ^ e <= a / b < 2 ^ (e + 1) *)
  let e := if above then e0 else e0 - 1 in
  let p := Z.max e (-1022) - 52 in
  let n :=
    if 0 <=? p then round_half_even a (b * 2 ^ p)
    else round_half_even (a * 2 ^ (- p)) b in
  if (0 <=? p) && (2 ^ 1024 <=? n * 2 ^ p) then None else Some (n, p).

(** [n * 2 ^ p]. *)
Definition times_pow2 (n p : Z) : Q :=
  if 0 <=? p then inject_Z (n * 2 ^ p) else Qred (n # Z.to_pos (2 ^ (- p))).

(** The Number of the fraction [q].  An integer up to 2^53 is a double. *)
Definition double (q : Q) : num :=
  let r := Qred q in
  let a := Qnum r in
  if (Qden r =? 1)%positive && (Z.abs a <=? 2 ^ 53) then Fin r
  else
    match round_pos (Z.abs a) (Zpos (Qden r)) with
    | None => if a <? 0 then NInf else PInf
    | Some (n, p) => Fin (times_pow2 (if a <? 0 then - n else n) p)
    end.

(** [x + k] on Numbers, for an integer [k]. *)
Definition plus (x : num) (k : Z) : num :=
  match x with
  | Fin q => double (q + inject_Z k)%Q
  | _ => x
  end.

(** *** Conversions of values *)

Definition string_of_Z (z : Z) : string := NilZero.string_of_int (Z.to_int z).

(** [10 ^ n] for an integer [n]. *)
Definition pow10 (n : Z) : Q := Qpower (10 # 1) n.

(** The least [n] from [n] on with [v < 10 ^ n], and the greatest [n] down
    from [n] with [10 ^ (n - 1) <= v]. *)
Fixpoint exponent_up (fuel : nat) (v : Q) (n : Z) : Z :=
  match fuel with
  | O => n
  | Datatypes.S fuel' => if Qle_bool (pow10 n) v then exponent_up fuel' v (n + 1) else n
  end.

Fixpoint exponent_down (fuel : nat) (v : Q) (n : Z) : Z :=
  match fuel with
  | O => n
  | Datatypes.S fuel' => if Qle_bool (pow10 (n - 1)) v then n else exponent_down fuel' v (n - 1)
  end.

(** The [n] with [10 ^ (n - 1) <= v < 10 ^ n], for a positive double [v]. *)
Definition decimal_exponent (v : Q) : Z :=
  if Qle_bool 1 v then exponent_up 400 v 1 else exponent_down 400 v 0.

(** [s * 10 ^ (n - k)] with [k] digits in [s], when its Number is [v]: its
    distance from [v], [s] and [n]. *)
Definition candidate (v : Q) (k n s : Z) : option (Q * Z * Z) :=
  if (10 ^ (k - 1) <=? s) && (s <? 10 ^ k) then
    let x := (inject_Z s * pow10 (n - k))%Q in
    match double x with
    | Fin y => if Qeq_bool y v then Some (Qabs (x - v)%Q, s, n) else None
    | _ => None
    end
  else None.

(** The nearer of two candidates, the one with the even [s] of two that are
    as near. *)
Definition nearer (c1 c2 : option (Q * Z * Z)) : option (Q * Z * Z) :=
  match c1, c2 with
  | None, c | c, None => c
  | Some (d1, s1, _), Some (d2, _, _) =>
      if Qle_bool d1 d2
      then (if Qle_bool d2 d1 then (if Z.even s1 then c1 else c2) else c1)
      else c2
  end.

Definition shortest_at (v : Q) (n0 k : Z) : option (Q * Z * Z) :=
  let at_exponent n :=
    let s := Qfloor (v * pow10 (k - n))%Q in
    nearer (candidate v k n s) (candidate v k n (s + 1)) in
  nearer (at_exponent n0) (at_exponent (n0 + 1)).

(** The digits of [String(v)]: [s], [k] and [n] with [k] as small as it
    can be, from [k] on. *)
Fixpoint shortest_from (fuel : nat) (v : Q) (n0 k : Z) : option (Z * Z * Z) :=
  match fuel with
  | O => None
  | Datatypes.S fuel' =>
      match shortest_at v n0 k with
      | Some (_, s, n) => Some (s, k, n)
      | None => shortest_from fuel' v n0 (k + 1)
      end
  end.

Definition shortest (v : Q) : option (Z * Z * Z) :=
  shortest_from 17 v (decimal_exponent v) 1.

Fixpoint zeros (n : nat) : string :=
  match n with
  | O => ""
  | Datatypes.S n' => String "0" (zeros n')
  end.

(** The numeral of [s * 10 ^ (n - k)], [s] having [k] digits. *)
Definition numeral (s k n : Z) : string :=
  let digits := string_of_Z s in
  if (-5 <=? n) && (n <=? 21) then
    if k <=? n then digits ++ zeros (Z.to_nat (n - k))
    else if 0 <? n
    then String.substring 0 (Z.to_nat n) digits ++ "."
         ++ String.substring (Z.to_nat n) (Z.to_nat (k - n)) digits
    else "0." ++ zeros (Z.to_nat (- n)) ++ digits
  else
    let e := n - 1 in
    let exponent := (if 0 <=? e then "e+" else "e-") ++ string_of_Z (Z.abs e) in
    if k =? 1 then digits ++ exponent
    else String.substring 0 1 digits ++ "."
         ++ String.substring 1 (Z.to_nat (k - 1)) digits ++ exponent.

(** [String(x)] for a Number [x] ([Number::toString]).  An integer up to
    2^53 is written with all its digits; another Number with the fewest
    digits that read back as it. *)
Definition Number_toString (x : num) : string :=
  match x with
  | NaN => "NaN"
  | PInf => "Infinity"
  | NInf => "-Infinity"
  | Fin q =>
      match double q with
      | Fin v =>
          let r := Qred v in
          if (Qden r =? 1)%positive && (Z.abs (Qnum r) <=? 2 ^ 53)
          then string_of_Z (Qnum r)
          else
            match shortest (Qabs r) with
            | Some (s, k, n) => (if Qnum r <? 0 then "-" else "") ++ numeral s k n
            | None => "NaN"
            end
      | PInf => "Infinity"
      | NInf => "-Infinity"
      | NaN => "NaN"
      end
  end.

(** [String(v)], [`${v}`]. *)
Definition ToString (v : value) : string :=
  match v with
  | Undefined => "undefined"
  | Null => "null"
  | Bool true => "true"
  | Bool false => "false"
  | Int z => Number_toString (of_Z z)
  | Str s => s
  end.

(** The mathematical value of [Number(v)]: for a string, the fraction its
    numeral denotes, before it is rounded to a double. *)
Definition ToNumber (v : value) : num :=
  match v with
  | Undefined => NaN
  | Null => of_Z 0
  | Bool true => of_Z 1
  | Bool false => of_Z 0
  | Int z => of_Z z
  | Str s => StringToNumber s
  end.

(** [Number(v)]: a number is itself; a string gives the double nearest to
    the fraction its numeral denotes. *)
Definition NumberOf (v : value) : num :=
  match v with
  | Str s =>
      match StringToNumber s with
      | Fin q => double q
      | x => x
      end
  | _ => ToNumber v
  end.

(** [parseInt(v)]: the argument is converted to a string first.  The
    result is the integer the digits denote; the Number is its [double]. *)
Definition parseInt (v : value) : option Z := parseInt_string (ToString v).

Definition isNaN (n : num) : bool :=
  match n with NaN => true | _ => false end.

(** [n <= k] for an integer [k]. *)
Definition le_Z (n : num) (k : Z) : bool :=
  match n with
  | NaN => false
  | PInf => false
  | NInf => true
  | Fin q => Qle_bool q (inject_Z k)
  end.

(** [Number.isInteger(n)]: the integer [n] is, if it is one. *)
Definition as_integer (n : num) : option Z :=
  match n with
  | Fin q =>
      let r := Qred q in
      if (Qden r =? 1)%positive then Some (Qnum r) else None
  | _ => None
  end.

Definition isInteger (n : num) : bool :=
  match as_integer n with Some _ => true | None => false end.

(** [n === m] on numbers. *)
Definition num_eq (n m : num) : bool :=
  match n, m with
  | PInf, PInf | NInf, NInf => true
  | Fin p, Fin q => Qeq_bool p q
  | _, _ => false
  end.

(** [String.fromCharCode(n)], as UTF-8. *)
Definition fromCharCode (n : Z) : string :=
  let c := Z.to_N (n mod 65536) in
  let byte k := ascii_of_N k in
  (if c <? 128 then String (byte c) ""
   else if c <? 2048 then
     String (byte (192 + c / 64)) (String (byte (128 + c mod 64)) "")
   else
     String (byte (224 + c / 4096))
       (String (byte (128 + (c / 64) mod 64))
          (String (byte (128 + c mod 64)) "")))%N.

End JS.

Export JS.

(** ** Objects, failures and the world outside the two classes *)

Abbreviation obj := (gmap string value).

(** [o.k], [o[k]]. *)
Definition get (o : obj) (k : string) : value := default Undefined (o !! k).

(** References to objects that live in the heap (the cached records that
    the reader hands out, and the copies the service makes). *)
Abbreviation loc := positive.
Abbreviation heap_t := (gmap loc obj).

Inductive error : Type :=
| InvalidRowIndex (rowIndex : value)  (* Error(`無效的 rowIndex: ${rowIndex}`), the spec's InvalidArgument *)
| RowNotFound                         (* Error('找不到該筆事件資料'), the spec's NotFound *)
| EventIdNotFound (id : string)       (* Error(`Update Failed: Event ID '${rowIndex}' not found.`) *)
| InvalidResolvedRowIndex             (* Error('Invalid resolved rowIndex') *)
| TypeError                           (* a property read on undefined, a call of a non-function *)
| RangeError                          (* toISOString() of an invalid date *)
| Rejected (reason : string).         (* a collaborator's call that rejects or throws *)

Abbreviation result A := (error + A)%type.

(** The event createEvent hands to the calendar (lines 104-109): [summary],
    [description], [start.dateTime] and [end.dateTime]. *)
Record calendar_event : Type := CalendarEvent {
  summary : string;
  description : value;
  start_dateTime : string;
  end_dateTime : string
}.

(** What leaves the two classes.  Reads do not change the external state;
    a write that fails leaves it as it was (the spec's "atomic-or-failed").
    The reader the writer was built with and the reader of the service are
    the one reader, whose cache the specification calls shared. *)
Record backend (S : Type) : Type := Backend {
  (* sheets.spreadsheets.values.get({range}): response.data.values *)
  values_get : string -> S -> result (option (list (list string)));
  (* sheets.spreadsheets.values.update({range, resource: {values: [row]}}) *)
  values_update : string -> list value -> S -> result S;
  (* sheets.spreadsheets.values.append({range, resource: {values: [row]}}) *)
  values_append : string -> list value -> S -> result S;
  (* BaseWriter._deleteRow(sheetName, rowIndex, reader); base-writer.js is
     not among the sources *)
  base_deleteRow : string -> value -> S -> result S;
  (* reader.invalidateCache(key), which is called and not awaited, so that
     its failure is a throw; [None] when the reader has no such function *)
  reader_invalidateCache : option (string -> S -> result S);
  (* reader.cache = {} ; [None] when reader.cache is falsy *)
  reader_resetCache : option (S -> S);
  (* eventReader.getEventLogs(), getEventLogById(id): references to the
     cached records, which are objects of the heap the call is made in *)
  reader_getEventLogs : S -> result (list loc);
  reader_getEventLogById : value -> S -> result (option loc);
  (* oppReader.getOpportunities(), companyReader.getCompanyList() *)
  opp_getOpportunities : S -> result (list obj);
  company_getCompanyList : S -> result (list obj);
  (* systemReader.getSystemConfig()['事件類型'] *)
  system_eventTypes : S -> result (option (list value));
  (* new Date(x).toISOString() for a string or a number x: how a string is
     read as a date is left to the engine; [None] when the date is invalid
     and toISOString throws *)
  date_toISOString : value -> option string;
  (* calendarService.createEvent(calendarEvent) *)
  calendar_createEvent : calendar_event -> S -> result S;
  (* new Date().toISOString() and Date.now(), a time value *)
  clock_iso : S -> string;
  clock_ms : S -> Z
}.

Arguments Backend {S}.
Arguments values_get {S}.
Arguments values_update {S}.
Arguments values_append {S}.
Arguments base_deleteRow {S}.
Arguments reader_invalidateCache {S}.
Arguments reader_resetCache {S}.
Arguments reader_getEventLogs {S}.
Arguments reader_getEventLogById {S}.
Arguments opp_getOpportunities {S}.
Arguments company_getCompanyList {S}.
Arguments system_eventTypes {S}.
Arguments date_toISOString {S}.
Arguments calendar_createEvent {S}.
Arguments clock_iso {S}.
Arguments clock_ms {S}.

(** The calls that leave the two classes, in the order they are made. *)
Inductive call : Type :=
| CValuesGet (range : string)
| CValuesUpdate (range : string) (row : list value)
| CValuesAppend (range : string) (row : list value)
| CDeleteRow (sheetName : string) (rowIndex : value)
| CInvalidateCache (key : string)
| CResetCache
| CGetEventLogs
| CGetEventLogById (eventId : value)
| CGetOpportunities
| CGetCompanyList
| CGetSystemConfig
| CCalendarSync (event : calendar_event).

(** A call that writes to a table. *)
Definition is_write (c : call) : bool :=
  match c with
  | CValuesUpdate _ _ | CValuesAppend _ _ | CDeleteRow _ _ => true
  | _ => false
  end.

Record world (S : Type) : Type := World {
  ext : S;            (* spreadsheet, reader cache, calendar, clock *)
  heap : heap_t;      (* the objects of the JavaScript heap *)
  trace : list call   (* the calls made so far, oldest first *)
}.

Arguments World {S}.
Arguments ext {S}.
Arguments heap {S}.
Arguments trace {S}.

(** ** The monad of the embedding: state and failure *)

Definition M (S A : Type) : Type := world S -> world S * result A.

Definition ret {S A} (a : A) : M S A := fun w => (w, inr a).

Definition throw {S A} (e : error) : M S A := fun w => (w, inl e).

Definition bind {S A B} (m : M S A) (k : A -> M S B) : M S B :=
  fun w =>
    match m w with
    | (w1, inr a) => k a w1
    | (w1, inl e) => (w1, inl e)
    end.

(** [try { m } catch (e) { h e }]. *)
Definition try_catch {S A} (m : M S A) (h : error -> M S A) : M S A :=
  fun w =>
    match m w with
    | (w1, inl e) => h e w1
    | r => r
    end.

Notation "x <- m ;; k" := (bind m (fun x => k))
  (at level 100, m at next level, right associativity).
Notation "m ;;; k" := (bind m (fun _ => k))
  (at level 100, right associativity).

Section Effects.
Context {S : Type} (B : backend S).

Definition log (c : call) (w : world S) : world S :=
  World (ext w) (heap w) (trace w ++ [c]).

(** A call that only reads the external state. *)
Definition read_call {A} (c : call) (f : S -> result A) : M S A :=
  fun w => (log c w, f (ext w)).

(** A call that changes the external state when it succeeds. *)
Definition write_call (c : call) (f : S -> result S) : M S unit :=
  fun w =>
    match f (ext w) with
    | inr s => (World s (heap w) (trace w ++ [c]), inr tt)
    | inl e => (log c w, inl e)
    end.

Definition sheets_get (range : string) :=
  read_call (CValuesGet range) (values_get B range).

Definition sheets_update (range : string) (row : list value) :=
  write_call (CValuesUpdate range row) (values_update B range row).

Definition sheets_append (range : string) (row : list value) :=
  write_call (CValuesAppend range row) (values_append B range row).

Definition _deleteRow (sheetName : string) (rowIndex : value) :=
  write_call (CDeleteRow sheetName rowIndex) (base_deleteRow B sheetName rowIndex).

(** [reader.invalidateCache(key)], called as a function. *)
Definition invalidateCache (key : string) : M S unit :=
  match reader_invalidateCache B with
  | Some f => write_call (CInvalidateCache key) (f key)
  | None => throw TypeError
  end.

Definition now_iso : M S string := fun w => (w, inr (clock_iso B (ext w))).
Definition now_ms : M S Z := fun w => (w, inr (clock_ms B (ext w))).

(** [{ ...o }]: a new object with the properties of [o]. *)
Definition alloc (o : obj) : M S loc :=
  fun w =>
    let l := fresh (dom (heap w)) in
    (World (ext w) (<[l := o]> (heap w)) (trace w), inr l).

Definition deref (h : heap_t) (l : loc) : obj := default ∅ (h !! l).

Definition read_obj (l : loc) : M S obj := fun w => (w, inr (deref (heap w) l)).

(** [l.k = v]. *)
Definition set_prop (l : loc) (k : string) (v : value) : M S unit :=
  fun w => (World (ext w) (<[l := <[k := v]> (deref (heap w) l)]> (heap w)) (trace w), inr tt).

End Effects.

(** ** data/event-log-writer.js (the source file src/unnamed/part_000) *)

(** [this.config]: the sheet names and the per-type column labels.  The
    configuration module is not among the sources; it is a parameter. *)
Record config : Type := Config {
  EVENT_LOGS_IOT : string;
  EVENT_LOGS_DT : string;
  EVENT_LOGS_DX : string;
  EVENT_LOGS_GENERAL : string;
  EVENT_LOG_COMMON_FIELDS : list string;
  EVENT_LOG_IOT_FIELDS : list string;
  EVENT_LOG_DT_FIELDS : list string
}.

Module EventLogWriter.

(** [this.HEADER_TO_KEY_MAP] (constructor, lines 26-56).  A lookup with a
    label that the map does not have gives [None]; labels that name a
    property every object inherits (constructor, toString, ...) are labels
    of no schema and are left out of the model. *)
Definition HEADER_TO_KEY_MAP : gmap string string :=
  list_to_map
    [ ("事件ID", "eventId");
      ("事件名稱", "eventName");
      ("關聯機會ID", "opportunityId");
      ("關聯公司ID", "companyId");
      ("建立者", "creator");
      ("建立時間", "createdTime");
      ("最後修改時間", "lastModifiedTime");
      ("我方與會人員", "ourParticipants");
      ("客戶與會人員", "clientParticipants");
      ("會議地點", "visitPlace");
      ("會議內容", "eventContent");
      ("客戶提問", "clientQuestions");
      ("客戶情報", "clientIntelligence");
      ("備註", "eventNotes");
      ("修訂版次", "editCount");
      (* IOT Specific *)
      ("設備規模", "iot_deviceScale");
      ("生產線特徵", "iot_lineFeatures");
      ("生產現況", "iot_productionStatus");
      ("IoT現況", "iot_iotStatus");
      ("痛點分類", "iot_painPoints");
      ("客戶痛點說明", "iot_painPointDetails");
      ("痛點分析與對策", "iot_painPointAnalysis");
      ("系統架構", "iot_systemArchitecture");
      (* DT Specific *)
      ("加工類型", "dt_processingType");
      ("加工產業別", "dt_industry") ].

(** The key of a column label for a record of type [eventType]: the
    [let key = null; if (header === '設備規模') ...] block that
    createEventLog (lines 97-105) and updateEventLog (lines 160-167) both
    start their callback with.  [None] is a label the map does not have. *)
Definition resolveKey (eventType : value) (header : string) : option string :=
  if String.eqb header "設備規模" then
    if strict_eq eventType (Str "iot") then Some "iot_deviceScale"
    else if strict_eq eventType (Str "dt") then Some "dt_deviceScale"
    else HEADER_TO_KEY_MAP !! header
  else HEADER_TO_KEY_MAP !! header.

(** The callback of [headers.map] in createEventLog (lines 95-114). *)
Definition createCell (data : obj) (creator : value) (now eventId : string)
    (header : string) : value :=
  let key := resolveKey (get data "eventType") header in
  if String.eqb header "事件ID" then Str eventId
  else if String.eqb header "建立者" then creator
  else if String.eqb header "建立時間" then Str now
  else if String.eqb header "最後修改時間" then Str now
  else if String.eqb header "修訂版次" then Str "1"
  else
    match key with
    | Some k => if strict_eq (get data k) Undefined then Str "" else get data k
    | None => Str ""
    end.

(** [parseInt(cell) || 1]: the Number of the integer read, 1 for none and
    for 0. *)
Definition currentVer (cell : value) : num :=
  match parseInt cell with
  | Some n => if n =? 0 then of_Z 1 else double (inject_Z n)
  | None => of_Z 1
  end.

(** The callback of [headers.forEach] in updateEventLog (lines 159-179):
    the new content of the cell under [header]. *)
Definition updateCell (data : obj) (now : string) (header : string)
    (cell : value) : value :=
  let key := resolveKey (get data "eventType") header in
  if String.eqb header "最後修改時間" then Str now
  else if String.eqb header "修訂版次" then Str (Number_toString (plus (currentVer cell) 1))
  else
    match key with
    | Some k => if strict_eq (get data k) Undefined then cell else get data k
    | None => cell
    end.

(** [while (currentRow.length < headers.length) currentRow.push('')]. *)
Definition padRow (width : nat) (row : list value) : list value :=
  row ++ replicate (width - length row) (Str "").

(** [headers.forEach((header, index) => ...)] on a row at least as long
    as [headers]: the cell at each index of [headers] is replaced, what
    lies beyond is left. *)
Fixpoint updateCells (data : obj) (now : string) (headers : list string)
    (row : list value) : list value :=
  match headers, row with
  | header :: headers', cell :: row' =>
      updateCell data now header cell :: updateCells data now headers' row'
  | _, _ => row
  end.

(** The guard of updateEventLog (line 132):
    [isNaN(parseInt(rowIndex)) || rowIndex <= 1]. *)
Definition rowIndex_rejected (rowIndex : value) : bool :=
  match parseInt rowIndex with
  | None => true
  | Some _ => le_Z (NumberOf rowIndex) 1
  end.

Section Writer.
Context {S : Type} (B : backend S) (config : config).

Definition _getSheetNameByType (type : value) : string :=
  match type with
  | Str "iot" => EVENT_LOGS_IOT config
  | Str "dt" => EVENT_LOGS_DT config
  | Str "dx" => EVENT_LOGS_DX config
  | _ => EVENT_LOGS_GENERAL config
  end.

Definition _getFieldsByType (type : value) : list string :=
  let commonFields := EVENT_LOG_COMMON_FIELDS config in
  if strict_eq type (Str "iot") then commonFields ++ EVENT_LOG_IOT_FIELDS config
  else if strict_eq type (Str "dt") then commonFields ++ EVENT_LOG_DT_FIELDS config
  else commonFields.

(** The row createEventLog appends. *)
Definition createRowData (data : obj) (creator : value) (now eventId : string)
    : list value :=
  map (createCell data creator now eventId)
      (_getFieldsByType (get data "eventType")).

Definition createEventLog (data : obj) (creator : value) : M S obj :=
  now <- now_iso B ;;
  ms <- now_ms B ;;
  let eventId := "EVT" ++ string_of_Z ms in
  let sheetName := _getSheetNameByType (get data "eventType") in
  let rowData := createRowData data creator now eventId in
  sheets_append B (sheetName ++ "!A:Z") rowData ;;;
  invalidateCache B "eventLogs" ;;;
  ret {[ "success" := Bool true; "id" := Str eventId ]}.

(** The range of one row: [`${sheetName}!A${rowIndex}:${lastColumnChar}${rowIndex}`]. *)
Definition rowRange (sheetName : string) (rowIndex : value) (width : nat) : string :=
  let lastColumnChar := fromCharCode (65 + Z.of_nat width - 1) in
  sheetName ++ "!A" ++ ToString rowIndex ++ ":" ++ lastColumnChar ++ ToString rowIndex.

Definition updateEventLog (rowIndex : value) (data : obj) (modifier : value)
    : M S obj :=
  if rowIndex_rejected rowIndex then throw (InvalidRowIndex rowIndex)
  else
    let sheetName := _getSheetNameByType (get data "eventType") in
    let headers := _getFieldsByType (get data "eventType") in
    now <- now_iso B ;;
    let range := rowRange sheetName rowIndex (length headers) in
    values <- sheets_get B range ;;
    (* response.data.values ? response.data.values[0] : [] *)
    match values with
    | Some [] => throw TypeError
    | None | Some ([] :: _) => throw RowNotFound
    | Some (first :: _) =>
        let currentRow := padRow (length headers) (map Str first) in
        let currentRow := updateCells data now headers currentRow in
        sheets_update B range currentRow ;;;
        invalidateCache B "eventLogs" ;;;
        ret {[ "success" := Bool true ]}
    end.

Definition deleteEventLog (rowIndex : value) (eventType : value) : M S obj :=
  let sheetName := _getSheetNameByType eventType in
  _deleteRow B sheetName rowIndex ;;;
  ret {[ "success" := Bool true ]}.

End Writer.

End EventLogWriter.

(** ** services/event-log-service.js *)

Module EventLogService.

(** [new Map(entries)] and [map.get(k)]: a later entry for a key replaces
    an earlier one. *)
Definition Map_get (entries : list (value * value)) (k : value) : value :=
  fold_left (fun found '(k', v) => if strict_eq k' k then v else found)
            entries Undefined.

(** [user?.displayName || user?.username || 'System']. *)
Definition modifierOf (user : option obj) : value :=
  let prop k := match user with Some u => get u k | None => Undefined end in
  or (or (prop "displayName") (prop "username")) (Str "System").

(** [data?.eventId || data?.id || null] (line 143). *)
Definition inputEventId (data : obj) : value :=
  or (or (get data "eventId") (get data "id")) Null.

(** Steps 2a and 2b of updateEventLog (lines 148-161): the original
    record, by eventId first and by rowIndex otherwise. *)
Definition resolveOriginal (logs : list obj) (idOrRowIndex : value) (data : obj)
    : option obj :=
  let original :=
    if truthy (inputEventId data)
    then find (fun l => strict_eq (get l "eventId") (inputEventId data)) logs
    else None in
  match original with
  | Some l => Some l
  | None =>
      let candidateRow := NumberOf idOrRowIndex in
      if isInteger candidateRow
      then find (fun l => num_eq (NumberOf (get l "rowIndex")) candidateRow) logs
      else None
  end.

(** Step 3 of updateEventLog (lines 165-178): the row index as an integer. *)
Definition resolveRowIndex (logs : list obj) (idOrRowIndex : value) : result Z :=
  let resolved :=
    match idOrRowIndex with
    | Str s =>
        if isNaN (NumberOf idOrRowIndex) then
          match find (fun l => strict_eq (get l "eventId") idOrRowIndex) logs with
          | Some target =>
              if truthy (get target "rowIndex") then inr (get target "rowIndex")
              else inl (EventIdNotFound s)
          | None => inl (EventIdNotFound s)
          end
        else inr idOrRowIndex
    | _ => inr idOrRowIndex
    end in
  match resolved with
  | inl e => inl e
  | inr rowIndex =>
      match as_integer (NumberOf rowIndex) with
      | Some z => inr z
      | None => inl InvalidResolvedRowIndex
      end
  end.

(** The condition of the move (line 182). *)
Definition typeChanged (original : option obj) (data : obj) : bool :=
  match original with
  | Some o =>
      truthy (get data "eventType") && truthy (get o "eventType")
      && negb (strict_eq (get data "eventType") (get o "eventType"))
  | None => false
  end.

(** The payload of the move (lines 188-193). *)
Definition movePayload (original data : obj) : obj :=
  let payload := data in
  let payload := <["eventId" := get original "eventId"]> payload in
  let payload := <["id" := get original "eventId"]> payload in
  if negb (truthy (get payload "createdTime")) && truthy (get original "createdTime")
  then <["createdTime" := get original "createdTime"]> payload
  else payload.

Section Service.
Context {S : Type} (B : backend S) (config : config).

(** [Promise.all]: every call is made; the first failure in the order of
    the array is the one thrown. *)
Definition attempt {A} (m : M S A) : M S (result A) :=
  fun w => let '(w1, r) := m w in (w1, inr r).

Definition settle {A} (r : result A) : M S A :=
  match r with
  | inl e => throw e
  | inr a => ret a
  end.

Definition getEventLogs : M S (list loc) :=
  read_call CGetEventLogs (reader_getEventLogs B).

Definition getOpportunities : M S (list obj) :=
  read_call CGetOpportunities (opp_getOpportunities B).

Definition getCompanyList : M S (list obj) :=
  read_call CGetCompanyList (company_getCompanyList B).

Definition _invalidateEventCacheSafe : M S unit :=
  try_catch
    (match reader_invalidateCache B with
     | Some f => write_call (CInvalidateCache "eventLogs") (f "eventLogs")
     | None =>
         match reader_resetCache B with
         | Some reset => write_call CResetCache (fun s => inr (reset s))
         | None => ret tt
         end
     end)
    (fun _ => ret tt).

(** [if (!e.id && e.eventId) e.id = e.eventId] on the object at [e]. *)
Definition aliasId (e : loc) : M S unit :=
  o <- read_obj e ;;
  if negb (truthy (get o "id")) && truthy (get o "eventId")
  then set_prop e "id" (get o "eventId")
  else ret tt.

(** [if (e.k) e.name = map.get(e.k) || e.k] on the object at [e]. *)
Definition attachName (e : loc) (k name : string) (entries : list (value * value))
    : M S unit :=
  o <- read_obj e ;;
  if truthy (get o k)
  then set_prop e name (or (Map_get entries (get o k)) (get o k))
  else ret tt.

Definition oppEntries (opps : list obj) : list (value * value) :=
  map (fun o => (get o "opportunityId", get o "opportunityName")) opps.

Definition compEntries (comps : list obj) : list (value * value) :=
  map (fun c => (get c "companyId", get c "companyName")) comps.

(** The callback of [events.map] in getAllEvents (lines 46-56). *)
Definition enrich (oppMap compMap : list (value * value)) (raw : loc) : M S loc :=
  o <- read_obj raw ;;
  e <- alloc o ;;
  aliasId e ;;;
  attachName e "opportunityId" "opportunityName" oppMap ;;;
  attachName e "companyId" "companyName" compMap ;;;
  ret e.

Fixpoint mapM {A C} (f : A -> M S C) (l : list A) : M S (list C) :=
  match l with
  | [] => ret []
  | a :: l' => c <- f a ;; cs <- mapM f l' ;; ret (c :: cs)
  end.

Definition getAllEvents : M S (list loc) :=
  try_catch
    (re <- attempt getEventLogs ;;
     ro <- attempt getOpportunities ;;
     rc <- attempt getCompanyList ;;
     events <- settle re ;;
     opps <- settle ro ;;
     comps <- settle rc ;;
     mapM (enrich (oppEntries opps) (compEntries comps)) events)
    (fun _ => ret []).

(** [None] is [null]. *)
Definition getEventById (eventId : value) : M S (option loc) :=
  try_catch
    (rawEvent <- read_call (CGetEventLogById eventId) (reader_getEventLogById B eventId) ;;
     match rawEvent with
     | None => ret None
     | Some raw =>
         o <- read_obj raw ;;
         event <- alloc o ;;
         aliasId event ;;;
         try_catch
           (ro <- attempt getOpportunities ;;
            rc <- attempt getCompanyList ;;
            opps <- settle ro ;;
            comps <- settle rc ;;
            attachName event "opportunityId" "opportunityName" (oppEntries opps) ;;;
            attachName event "companyId" "companyName" (compEntries comps))
           (fun _ => ret tt) ;;;
         ret (Some event)
     end)
    (fun _ => ret None).

(** The event of lines 101-109 at the clock readings [ms1] and [ms2]:
    [None] when a date is invalid and toISOString throws. *)
Definition calendarEvent (data : obj) (ms1 ms2 : Z) : option calendar_event :=
  match date_toISOString B (or (get data "createdTime") (Int ms1)) with
  | None => None
  | Some startIso =>
      match date_toISOString B (Int (ms2 + 3600000)) with
      | None => None
      | Some endIso =>
          Some {| summary := "[" ++ ToString (get data "eventType") ++ "] "
                             ++ ToString (get data "eventName");
                  description := or (get data "eventContent") (Str "");
                  start_dateTime := startIso;
                  end_dateTime := endIso |}
      end
  end.

(** The block of lines 100-116: the event is built, then handed to the
    calendar; a failure of either is caught and only warned about. *)
Definition calendarSync (data : obj) : M S unit :=
  try_catch
    (ms1 <- now_ms B ;;
     ms2 <- now_ms B ;;
     match calendarEvent data ms1 ms2 with
     | None => throw RangeError
     | Some event => write_call (CCalendarSync event) (calendar_createEvent B event)
     end)
    (fun _ => ret tt).

Definition createEvent (data : obj) (user : option obj) : M S obj :=
  let modifier := modifierOf user in
  result <- EventLogWriter.createEventLog B config data modifier ;;
  _invalidateEventCacheSafe ;;;
  (if truthy (get result "success") && strict_eq (get data "syncToCalendar") (Str "true")
   then calendarSync data
   else ret tt) ;;;
  ret result.

Definition updateEvent (rowIndex : value) (data : obj) (user : option obj) : M S obj :=
  let modifier := modifierOf user in
  result <- EventLogWriter.updateEventLog B config rowIndex data modifier ;;
  _invalidateEventCacheSafe ;;;
  ret result.

Definition read_objs (ls : list loc) : M S (list obj) :=
  fun w => (w, inr (map (deref (heap w)) ls)).

(** Step 4 (A)-(B) of updateEventLog (lines 183-203). *)
Definition move (original data : obj) (modifier : value) : M S obj :=
  EventLogWriter.deleteEventLog B config (get original "rowIndex") (get original "eventType") ;;;
  createResult <- EventLogWriter.createEventLog B config (movePayload original data) modifier ;;
  _invalidateEventCacheSafe ;;;
  ret (<["moved" := Bool true]> createResult).

Definition updateEventLog (idOrRowIndex : value) (data : obj) (modifier : value)
    : M S obj :=
  refs <- getEventLogs ;;
  logs <- read_objs refs ;;
  let original := resolveOriginal logs idOrRowIndex data in
  rowIndex <- settle (resolveRowIndex logs idOrRowIndex) ;;
  match original with
  | Some o =>
      if typeChanged original data then move o data modifier
      else updateEvent (Int rowIndex) data (Some {[ "displayName" := modifier ]})
  | None => updateEvent (Int rowIndex) data (Some {[ "displayName" := modifier ]})
  end.

Definition deleteEvent (rowIndex : value) (eventType : value) : M S obj :=
  result <- EventLogWriter.deleteEventLog B config rowIndex eventType ;;
  _invalidateEventCacheSafe ;;;
  ret result.

Definition getEventTypes : M S (list value) :=
  try_catch
    (types <- read_call CGetSystemConfig (system_eventTypes B) ;;
     ret (default [] types))
    (fun _ => ret []).

End Service.

End EventLogService.

(** ** Pure readings of the service's object updates

    What [aliasId], [attachName] and [enrich] leave in the copy, as functions
    on objects. *)

Definition aliased (o : obj) : obj :=
  if negb (truthy (get o "id")) && truthy (get o "eventId")
  then <["id" := get o "eventId"]> o
  else o.

Definition attached (k name : string) (entries : list (value * value)) (o : obj) : obj :=
  if truthy (get o k)
  then <[name := or (EventLogService.Map_get entries (get o k)) (get o k)]> o
  else o.

Definition enriched (oppMap compMap : list (value * value)) (o : obj) : obj :=
  attached "companyId" "companyName" compMap
    (attached "opportunityId" "opportunityName" oppMap (aliased o)).

(** The calls an operation added to the trace. *)
Definition new_calls {S} (w w' : world S) : list call :=
  drop (length (trace w)) (trace w').

(** ** The specification's wording, where it differs from the code *)

(** "revision -> parsed current value (default 1 if unparsable) + 1". *)
Definition spec_revision (cell : value) : value :=
  Str (string_of_Z (default 1 (parseInt cell) + 1)).

(** "a positive integer greater than 1". *)
Definition spec_valid_rowIndex (rowIndex : value) : bool :=
  match as_integer (ToNumber rowIndex) with
  | Some z => 1 <? z
  | None => false
  end.

(** A display name "equal to the matching collaborator's name, or echoing
    the raw id when no match exists": the name of the last collaborator with
    that id, as [new Map] keeps it. *)
Definition spec_displayName (entries : list (value * value)) (id : value) : value :=
  match find (fun '(k, _) => strict_eq k id) (rev entries) with
  | Some (_, name) => name
  | None => id
  end.

(** ** A configuration and test doubles for the collaborators *)

(** Modelled from the spec: the configuration module is not among the
    sources; the labels are those of [HEADER_TO_KEY_MAP], common fields
    first, IOT with its device-scale to system-architecture fields, DT with
    its processing-type and industry fields. *)
Definition sample_config : config :=
  Config "EventLogs_IOT" "EventLogs_DT" "EventLogs_DX" "EventLogs_General"
    [ "事件ID"; "事件名稱"; "關聯機會ID"; "關聯公司ID"; "建立者"; "建立時間";
      "最後修改時間"; "我方與會人員"; "客戶與會人員"; "會議地點"; "會議內容";
      "客戶提問"; "客戶情報"; "備註"; "修訂版次" ]
    [ "設備規模"; "生產線特徵"; "生產現況"; "IoT現況"; "痛點分類"; "客戶痛點說明";
      "痛點分析與對策"; "系統架構" ]
    [ "加工類型"; "加工產業別" ].

(** Canned answers for the reads; the writes that succeed are journalled in
    the external state. *)
Record stub : Type := Stub {
  stub_rows : string -> option (list (list string));
  stub_logs : list loc;
  stub_byId : option loc;
  stub_opps : result (list obj);
  stub_comps : result (list obj);
  stub_invalidate : option bool;  (* None: no invalidateCache function; Some false: it throws *)
  stub_iso : string;
  stub_ms : Z
}.

Definition stub_backend (t : stub) : backend (list call) :=
  Backend
    (fun range _ => inr (stub_rows t range))
    (fun range row s => inr (s ++ [CValuesUpdate range row])%list)
    (fun range row s => inr (s ++ [CValuesAppend range row])%list)
    (fun sheet r s => inr (s ++ [CDeleteRow sheet r])%list)
    (match stub_invalidate t with
     | Some ok => Some (fun key s => if ok then inr s else inl (Rejected "invalidateCache"))
     | None => None
     end)
    (Some (fun s => s))
    (fun _ => inr (stub_logs t))
    (fun _ _ => inr (stub_byId t))
    (fun _ => stub_opps t)
    (fun _ => stub_comps t)
    (fun _ => inr None)
    (fun x => match x with
              | Str "invalid" => None
              | _ => Some (stub_iso t)
              end)
    (fun _ s => inr s)
    (fun _ => stub_iso t)
    (fun _ => stub_ms t).

(** One general event at row 5 of its sheet, cached at reference 1. *)
Definition sample_event : obj :=
  {[ "eventId" := Str "EVT1"; "eventType" := Str "general"; "rowIndex" := Int 5;
     "createdTime" := Str "2025-12-01T08:00:00.000Z"; "opportunityId" := Str "O1" ]}.

Definition sample_row (revision : string) : list string :=
  [ "EVT1"; "visit"; "O1"; ""; "bob"; "2025-12-01T08:00:00.000Z";
    "2025-12-01T08:00:00.000Z"; ""; ""; ""; ""; ""; ""; ""; revision ].

Definition sample_stub (revision : string) (invalidate : option bool)
    (opps : result (list obj)) : stub :=
  Stub
    (fun range =>
       if String.eqb range "EventLogs_General!A5:O5" then Some [sample_row revision]
       else None)
    [1%positive] (Some 1%positive) opps (inr []) invalidate
    "2026-01-23T10:00:00.000Z" 1769162400000.

Definition sample_opps : list obj :=
  [ {[ "opportunityId" := Str "O1"; "opportunityName" := Str "Big deal" ]} ].

Definition sample_world : world (list call) :=
  World [] {[ 1%positive := sample_event ]} [].

(** A payload that changes the type of the event, and one that does not. *)
Definition sample_move : obj :=
  {[ "eventId" := Str "EVT1"; "eventType" := Str "iot"; "eventName" := Str "visit" ]}.

Definition sample_update : obj :=
  {[ "eventType" := Str "general"; "eventName" := Str "second visit" ]}.

(** The property [k] of the object an operation returned. *)
Definition returned {S} (k : string) (r : world S * result obj) : result value :=
  match r.2 with
  | inl e => inl e
  | inr o => inr (get o k)
  end.

(** The cells under column [i] of the rows that were appended or written
    back, in the order of the calls. *)
Definition written_cells (i : nat) (calls : list call) : list (option value) :=
  omap (fun c => match c with
                 | CValuesAppend _ row | CValuesUpdate _ row => Some (row !! i)
                 | _ => None
                 end) calls.

(** The property [name] of the objects a bulk read returned. *)
Definition displayed {S} (name : string) (r : world S * result (list loc))
    : result (list value) :=
  match r.2 with
  | inl e => inl e
  | inr es => inr (map (fun e => get (deref (heap r.1) e) name) es)
  end.

(** The test double with every call succeeding, and three runs on it. *)
Definition sample_backend : backend (list call) :=
  stub_backend (sample_stub "3" (Some true) (inr [])).

Definition sample_other_event : obj :=
  {[ "eventId" := Str "EVT2"; "eventType" := Str "general"; "rowIndex" := Int 7 ]}.

Definition sample_create_run : world (list call) * result obj :=
  EventLogWriter.createEventLog sample_backend sample_config sample_move (Str "alice")
    sample_world.

Definition sample_update_run : world (list call) * result obj :=
  EventLogWriter.updateEventLog sample_backend sample_config (Int 5) sample_update
    (Str "alice") sample_world.

(** ** Definitions used to state the properties *)

(** The labels whose cells createEventLog fills by itself. *)
Definition automatic_on_create : list string :=
  [ "事件ID"; "建立者"; "建立時間"; "最後修改時間"; "修訂版次" ].

(** The display name the code attaches: the name of the last collaborator
    with that id when it is truthy, the id otherwise. *)
Definition displayName (entries : list (value * value)) (id : value) : value :=
  match find (fun '(k, _) => strict_eq k id) (rev entries) with
  | Some (_, name) => if truthy name then name else id
  | None => id
  end.

(** [e] is a shallow copy of [raw] with the id alias and the display names. *)
Definition enriched_copy (oppMap compMap : list (value * value)) (raw e : obj) : Prop :=
  (forall k, k <> "id" -> k <> "opportunityName" -> k <> "companyName" -> e !! k = raw !! k)
  /\ get e "id" = (if negb (truthy (get raw "id")) && truthy (get raw "eventId")
                   then get raw "eventId" else get raw "id")
  /\ (if truthy (get raw "opportunityId")
      then get e "opportunityName" = displayName oppMap (get raw "opportunityId")
      else e !! "opportunityName" = raw !! "opportunityName")
  /\ (if truthy (get raw "companyId")
      then get e "companyName" = displayName compMap (get raw "companyId")
      else e !! "companyName" = raw !! "companyName").

(** The heap and the references after [events.map] has copied and enriched
    every record of [events], as a function on heaps. *)
Fixpoint enrich_all (oppMap compMap : list (value * value)) (events : list loc)
    (h : heap_t) : heap_t * list loc :=
  match events with
  | [] => (h, [])
  | raw :: events' =>
      let e := fresh (dom h) in
      let '(h', es) :=
        enrich_all oppMap compMap events' (<[e := enriched oppMap compMap (deref h raw)]> h) in
      (h', e :: es)
  end.

(** The digits of a decimal numeral of the Standard Library. *)
Fixpoint uint_digits (d : Decimal.uint) : list N :=
  match d with
  | Decimal.Nil => []
  | Decimal.D0 d => 0%N :: uint_digits d
  | Decimal.D1 d => 1%N :: uint_digits d
  | Decimal.D2 d => 2%N :: uint_digits d
  | Decimal.D3 d => 3%N :: uint_digits d
  | Decimal.D4 d => 4%N :: uint_digits d
  | Decimal.D5 d => 5%N :: uint_digits d
  | Decimal.D6 d => 6%N :: uint_digits d
  | Decimal.D7 d => 7%N :: uint_digits d
  | Decimal.D8 d => 8%N :: uint_digits d
  | Decimal.D9 d => 9%N :: uint_digits d
  end.

(** ** Definitions used to state what the mutations do *)

(** The test double with table writes that can be told to fail. *)
Definition faulty_backend (t : stub) (delete_ok append_ok update_ok : bool)
    : backend (list call) :=
  let B := stub_backend t in
  Backend
    (values_get B)
    (fun range row s =>
       if update_ok then values_update B range row s else inl (Rejected "update"))
    (fun range row s =>
       if append_ok then values_append B range row s else inl (Rejected "append"))
    (fun sheet r s =>
       if delete_ok then base_deleteRow B sheet r s else inl (Rejected "deleteRow"))
    (reader_invalidateCache B) (reader_resetCache B)
    (reader_getEventLogs B) (reader_getEventLogById B)
    (opp_getOpportunities B) (company_getCompanyList B)
    (system_eventTypes B) (date_toISOString B) (calendar_createEvent B)
    (clock_iso B) (clock_ms B).

(** A call of the move: the delete of a row or the append of one. *)
Definition is_relocation (c : call) : bool :=
  match c with
  | CDeleteRow _ _ | CValuesAppend _ _ => true
  | _ => false
  end.

(** A call on the reader's cache. *)
Definition is_invalidation (c : call) : bool :=
  match c with
  | CInvalidateCache _ | CResetCache => true
  | _ => false
  end.

(** A call that asks a collaborator for data. *)
Definition is_fetch (c : call) : bool :=
  match c with
  | CValuesGet _ | CGetEventLogs | CGetEventLogById _ | CGetOpportunities
  | CGetCompanyList | CGetSystemConfig => true
  | _ => false
  end.

(** The revision cell after successive updates, each with its own payload
    and time. *)
Definition revise (steps : list (obj * string)) (cell : value) : value :=
  fold_left (fun c '(data, now) => EventLogWriter.updateCell data now "修訂版次" c) steps cell.

(** ** data/opportunity-reader.js *)

Module OpportunityReader.

(** [s.trim()]: the white space and the line terminators at both ends
    are removed (the characters of [skip_ws]). *)
Fixpoint trim_end (s : string) : string :=
  match s with
  | EmptyString => EmptyString
  | String a s' =>
      match skip_ws s with
      | EmptyString => EmptyString
      | _ => String a (trim_end s')
      end
  end.

Definition trim (s : string) : string := trim_end (skip_ws s).

(** [s.includes(t)]. *)
Definition includes (s t : string) : bool :=
  match String.index 0 t s with
  | Some _ => true
  | None => false
  end.

(** [l.slice(start, end)]. *)
Definition slice {A} (start end_ : Z) (l : list A) : list A :=
  let len := Z.of_nat (length l) in
  let relative i := if i <? 0 then Z.max (len + i) 0 else Z.min i len in
  let k := relative start in
  let final := relative end_ in
  take (Z.to_nat (Z.max (final - k) 0)) (drop (Z.to_nat k) l).

(** [this.config.OPPORTUNITY_FIELD_NAMES]: the titles of the columns. *)
Record field_names : Type := FieldNames {
  ID : string;
  NAME : string;
  CUSTOMER : string;
  SALES_MODEL : string;
  CHANNEL : string;
  CHANNEL_CONTACT : string;
  CONTACT : string;
  ASSIGNEE : string;
  TYPE : string;
  SOURCE : string;
  STAGE : string;
  CLOSE_DATE : string;
  VALUE : string;
  VALUE_TYPE : string;
  PROBABILITY : string;
  PRODUCT_SPEC : string;
  DEVICE_SCALE : string;
  NOTES : string;
  DRIVE_LINK : string;
  STATUS : string;
  HISTORY : string;
  CREATED_TIME : string;
  LAST_UPDATE_TIME : string;
  LAST_MODIFIER : string;
  PARENT_ID : string
}.

(** What the reader takes from [this.config], which is not among the
    sources: the name of the sheet, the titles, the status of the archived
    records and the size of a page, a positive integer. *)
Record reader_config : Type := ReaderConfig {
  SHEETS_OPPORTUNITIES : string;
  OPPORTUNITY_FIELD_NAMES : field_names;
  OPPORTUNITY_STATUS_ARCHIVED : string;
  OPPORTUNITIES_PER_PAGE : positive
}.

(** The object getOpportunities builds of a row (lines 82-119). *)
Record opportunity : Type := Opportunity {
  rowIndex : Z;
  opportunityId : string;
  opportunityName : string;
  customerCompany : string;
  salesModel : string;
  channelDetails : string;
  salesChannel : string;
  channelContact : string;
  mainContact : string;
  assignee : string;
  opportunityType : string;
  opportunitySource : string;
  currentStage : string;
  expectedCloseDate : string;
  opportunityValue : string;
  opportunityValueType : string;
  orderProbability : string;
  potentialSpecification : string;
  deviceScale : string;
  notes : string;
  driveFolderLink : string;
  currentStatus : string;
  stageHistory : string;
  createdTime : string;
  lastUpdateTime : string;
  lastModifier : string;
  parentOpportunityId : string
}.

(** A stage of the system configuration: [stage.value] and [stage.note],
    the empty string for a note that is not there. *)
Record stage : Type := Stage {
  stage_value : string;
  stage_note : string
}.

(** What the reader reaches besides the sheet. *)
Record reader_env (S : Type) : Type := ReaderEnv {
  (* opportunities.sort(...) with the comparator of lines 127-131: the
     dates are read by [new Date(string)] and the order of a sort whose
     comparator answers NaN is left to the engine *)
  sort_by_time : list opportunity -> list opportunity;
  (* this.cache[cacheKey] = opportunities; [None] when this.cache is falsy *)
  cache_put : option (list opportunity -> S -> S);
  (* String.prototype.toLowerCase *)
  toLowerCase : string -> string;
  (* new SystemReader(...).getSystemConfig()['機會階段'] *)
  system_stages : S -> result (option (list stage))
}.

Arguments ReaderEnv {S}.
Arguments sort_by_time {S}.
Arguments cache_put {S}.
Arguments toLowerCase {S}.
Arguments system_stages {S}.

(** [headerRow.forEach((title, index) => { if (title) map[title.trim()] = index })]
    from [index] on.  The assignment of a number to [__proto__] changes
    nothing. *)
Fixpoint buildHeaderMapFrom (index : nat) (headerRow : list string)
    (map : gmap string nat) : gmap string nat :=
  match headerRow with
  | [] => map
  | title :: rest =>
      buildHeaderMapFrom (S index) rest
        (if String.eqb title "" then map
         else if String.eqb (trim title) "__proto__" then map
         else <[trim title := index]> map)
  end.

Definition _buildHeaderMap (headerRow : list string) : gmap string nat :=
  buildHeaderMapFrom 0 headerRow ∅.

(** [row[index] || ''], and the empty string for a field that [map] does
    not have (a name that [map] inherits is no index of the row either). *)
Definition _getValue (row : list string) (map : gmap string nat) (fieldName : string)
    : string :=
  match map !! fieldName with
  | None => ""
  | Some index => default "" (row !! index)
  end.

(** The object of the row at index [i] of [rows] (lines 82-119). *)
Definition parseRow (FIELD_NAMES : field_names) (headerMap : gmap string nat) (i : nat)
    (row : list string) : opportunity :=
  let value := _getValue row headerMap in
  {| rowIndex := Z.of_nat i + 1;
     opportunityId := value (ID FIELD_NAMES);
     opportunityName := value (NAME FIELD_NAMES);
     customerCompany := value (CUSTOMER FIELD_NAMES);
     salesModel := value (SALES_MODEL FIELD_NAMES);
     channelDetails := value (CHANNEL FIELD_NAMES);
     salesChannel := value (CHANNEL FIELD_NAMES);
     channelContact := value (CHANNEL_CONTACT FIELD_NAMES);
     mainContact := value (CONTACT FIELD_NAMES);
     assignee := value (ASSIGNEE FIELD_NAMES);
     opportunityType := value (TYPE FIELD_NAMES);
     opportunitySource := value (SOURCE FIELD_NAMES);
     currentStage := value (STAGE FIELD_NAMES);
     expectedCloseDate := value (CLOSE_DATE FIELD_NAMES);
     opportunityValue := value (VALUE FIELD_NAMES);
     opportunityValueType := value (VALUE_TYPE FIELD_NAMES);
     orderProbability := value (PROBABILITY FIELD_NAMES);
     potentialSpecification := value (PRODUCT_SPEC FIELD_NAMES);
     deviceScale := value (DEVICE_SCALE FIELD_NAMES);
     notes := value (NOTES FIELD_NAMES);
     driveFolderLink := value (DRIVE_LINK FIELD_NAMES);
     currentStatus := value (STATUS FIELD_NAMES);
     stageHistory := value (HISTORY FIELD_NAMES);
     createdTime := value (CREATED_TIME FIELD_NAMES);
     lastUpdateTime := value (LAST_UPDATE_TIME FIELD_NAMES);
     lastModifier := value (LAST_MODIFIER FIELD_NAMES);
     parentOpportunityId := value (PARENT_ID FIELD_NAMES) |}.

(** The loop of lines 78-124 from the index [i] on, [rows] being the rows
    from that index. *)
Fixpoint parseRows (config : reader_config) (headerMap : gmap string nat) (i : nat)
    (rows : list (list string)) : list opportunity :=
  match rows with
  | [] => []
  | row :: rest =>
      let opportunities := parseRows config headerMap (S i) rest in
      match row with
      | [] => opportunities
      | _ =>
          let opp := parseRow (OPPORTUNITY_FIELD_NAMES config) headerMap i row in
          if String.eqb (currentStatus opp) (OPPORTUNITY_STATUS_ARCHIVED config)
          then opportunities
          else opp :: opportunities
      end
  end.

(** What searchOpportunities returns: the list itself, or a page of it. *)
Record pagination : Type := Pagination {
  current : Z;
  total : Z;
  totalItems : Z;
  hasNext : bool;
  hasPrev : bool
}.

Inductive search_result : Type :=
| Plain (opportunities : list opportunity)
| Paged (data : list opportunity) (pagination : pagination).

(** [Math.ceil(n / d)] for a length [n] and a positive [d]. *)
Definition ceil_div (n d : Z) : Z := (n + d - 1) / d.

(** Lines 168-184 of searchOpportunities. *)
Definition paginate (pageSize : positive) (page : Z) (opportunities : list opportunity)
    : search_result :=
  if page <=? 0 then Plain opportunities
  else
    let pageSize := Z.pos pageSize in
    let startIndex := (page - 1) * pageSize in
    let paginated := slice startIndex (startIndex + pageSize) opportunities in
    let items := Z.of_nat (length opportunities) in
    Paged paginated
      {| current := page;
         total := ceil_div items pageSize;
         totalItems := items;
         hasNext := startIndex + pageSize <? items;
         hasPrev := 1 <? page |}.

(** [if (filters.k) opportunities = opportunities.filter(o => o.k === filters.k)]. *)
Definition applyFilter (v : value) (field : opportunity -> string)
    (opportunities : list opportunity) : list opportunity :=
  if truthy v then List.filter (fun o => strict_eq (Str (field o)) v) opportunities
  else opportunities.

(** The value of a group of getOpportunitiesByStage. *)
Record group : Type := Group {
  name : string;
  opportunities : list opportunity;
  count : Z
}.

(** The object [stageGroups]: its own properties and, when a stage is named
    [__proto__], the group that the assignment made its prototype. *)
Record stage_groups : Type := StageGroups {
  own : gmap string group;
  proto : option group
}.

(** The names every object inherits from [Object.prototype]. *)
Definition Object_prototype_names : list string :=
  [ "constructor"; "__defineGetter__"; "__defineSetter__"; "hasOwnProperty";
    "__lookupGetter__"; "__lookupSetter__"; "isPrototypeOf"; "propertyIsEnumerable";
    "toString"; "valueOf"; "__proto__"; "toLocaleString" ].

Definition inherited (k : string) : bool :=
  existsb (String.eqb k) Object_prototype_names.

(** [stages.forEach(stage => { stageGroups[stage.value] = {...} })]. *)
Definition initGroup (groups : stage_groups) (st : stage) : stage_groups :=
  let g :=
    {| name := if String.eqb (stage_note st) "" then stage_value st else stage_note st;
       opportunities := [];
       count := 0 |} in
  if String.eqb (stage_value st) "__proto__"
  then {| own := own groups; proto := Some g |}
  else {| own := <[stage_value st := g]> (own groups); proto := proto groups |}.

(** What [stageGroups[stageKey]] is. *)
Inductive property : Type :=
| OwnGroup (g : group)        (* a group of the object itself *)
| ProtoGroup (g : group)      (* the group that is the prototype *)
| Falsy                       (* undefined, or the count 0 of the prototype *)
| NotAGroup.                  (* a truthy value that has no opportunities *)

Definition lookupGroup (groups : stage_groups) (stageKey : string) : property :=
  match own groups !! stageKey with
  | Some g => OwnGroup g
  | None =>
      match proto groups with
      | Some g =>
          if String.eqb stageKey "__proto__" then ProtoGroup g
          else if String.eqb stageKey "name"
          then (if String.eqb (name g) "" then Falsy else NotAGroup)
          else if String.eqb stageKey "opportunities" then NotAGroup
          else if String.eqb stageKey "count"
          then (if count g =? 0 then Falsy else NotAGroup)
          else if inherited stageKey then NotAGroup
          else Falsy
      | None => if inherited stageKey then NotAGroup else Falsy
      end
  end.

(** [g.opportunities.push(opp); g.count++]. *)
Definition pushTo (g : group) (opp : opportunity) : group :=
  {| name := name g; opportunities := opportunities g ++ [opp]; count := count g + 1 |}.

(** The callback of [safeOpportunities.forEach] (lines 241-249). *)
Definition classify (groups : stage_groups) (opp : opportunity) : result stage_groups :=
  if String.eqb (currentStatus opp) "進行中" then
    match lookupGroup groups (currentStage opp) with
    | OwnGroup g =>
        inr {| own := <[currentStage opp := pushTo g opp]> (own groups);
               proto := proto groups |}
    | ProtoGroup g => inr {| own := own groups; proto := Some (pushTo g opp) |}
    | Falsy => inr groups
    | NotAGroup => inl TypeError
    end
  else inr groups.

Fixpoint classifyAll (groups : stage_groups) (opps : list opportunity)
    : result stage_groups :=
  match opps with
  | [] => inr groups
  | opp :: rest =>
      match classify groups opp with
      | inl e => inl e
      | inr groups' => classifyAll groups' rest
      end
  end.

Section Reader.
Context {S : Type} (B : backend S) (env : reader_env S) (config : reader_config).

(** The callback of the query filter (lines 155-161). *)
Definition matchesQuery (searchTerm : string) (o : opportunity) : bool :=
  if String.prefix "opp" searchTerm
     && String.eqb (toLowerCase env (opportunityId o)) searchTerm
  then true
  else
    (negb (String.eqb (opportunityName o) "")
     && includes (toLowerCase env (opportunityName o)) searchTerm)
    || (negb (String.eqb (customerCompany o) "")
        && includes (toLowerCase env (customerCompany o)) searchTerm).

(** The filters of searchOpportunities (lines 153-166); the query is a
    string, the empty one when there is none. *)
Definition searchFilter (query : string) (filters : obj)
    (opportunities : list opportunity) : list opportunity :=
  let opportunities :=
    if String.eqb query "" then opportunities
    else List.filter (matchesQuery (toLowerCase env query)) opportunities in
  let opportunities := applyFilter (get filters "assignee") assignee opportunities in
  let opportunities := applyFilter (get filters "type") opportunityType opportunities in
  applyFilter (get filters "stage") currentStage opportunities.

(** The call [this.sheets.spreadsheets.values.get] of getOpportunities,
    with its rejection kept for the [try] around it. *)
Definition fetchRows : M S (result (option (list (list string)))) :=
  fun w =>
    let '(w1, r) := sheets_get B (SHEETS_OPPORTUNITIES config ++ "!A:ZZ") w in
    (w1, inr r).

(** [if (this.cache) this.cache[cacheKey] = opportunities]. *)
Definition cacheOpportunities (opportunities : list opportunity) : M S unit :=
  fun w =>
    match cache_put env with
    | Some put => (World (put opportunities (ext w)) (heap w) (trace w), inr tt)
    | None => (w, inr tt)
    end.

(** getOpportunities once the sheet has answered (lines 59-143). *)
Definition readOpportunities (response : result (option (list (list string))))
    : M S (list opportunity) :=
  match response with
  | inl _ => ret []
  | inr None | inr (Some []) => ret []
  | inr (Some (headerRow :: rows)) =>
      let headerMap := _buildHeaderMap headerRow in
      let opportunities := sort_by_time env (parseRows config headerMap 1 rows) in
      cacheOpportunities opportunities ;;;
      ret opportunities
  end.

Definition getOpportunities : M S (list opportunity) :=
  response <- fetchRows ;;
  readOpportunities response.

Definition searchOpportunities (query : string) (page : option Z) (filters : obj)
    : M S search_result :=
  opportunities <- getOpportunities ;;
  let page := default 1 page in
  ret (paginate (OPPORTUNITIES_PER_PAGE config) page
         (searchFilter query filters opportunities)).

(** [(await this.getSystemConfig())['機會階段'] || []], getSystemConfig
    being the method of lines 270-284, which answers [{}] when the system
    reader fails. *)
Definition getStages : M S (list stage) :=
  try_catch
    (stages <- read_call CGetSystemConfig (system_stages env) ;;
     ret (default [] stages))
    (fun _ => ret []).

(** The two calls of [Promise.all] are made before either is answered. *)
Definition getOpportunitiesByStage : M S stage_groups :=
  try_catch
    (response <- fetchRows ;;
     stages <- getStages ;;
     opportunities <- readOpportunities response ;;
     EventLogService.settle (classifyAll (fold_left initGroup stages (StageGroups ∅ None)) opportunities))
    (fun _ => ret (StageGroups ∅ None)).

End Reader.

End OpportunityReader.

(** ** Definitions used to state the properties of the reader *)

(** One step of [buildHeaderMapFrom]. *)
Definition headerStep (index : nat) (title : string) (map : gmap string nat)
    : gmap string nat :=
  if String.eqb title "" then map
  else if String.eqb (OpportunityReader.trim title) "__proto__" then map
  else <[OpportunityReader.trim title := index]> map.

(** The records of a result of searchOpportunities. *)
Definition records (r : OpportunityReader.search_result) : list OpportunityReader.opportunity :=
  match r with
  | OpportunityReader.Plain opportunities => opportunities
  | OpportunityReader.Paged data _ => data
  end.

(** An opportunity in progress at the stage [k]. *)
Definition active_in (k : string) (o : OpportunityReader.opportunity) : bool :=
  String.eqb (OpportunityReader.currentStatus o) "進行中"
  && String.eqb (OpportunityReader.currentStage o) k.

(** The groups before the opportunities are classified. *)
Definition initGroups (stages : list OpportunityReader.stage) : OpportunityReader.stage_groups :=
  fold_left OpportunityReader.initGroup stages (OpportunityReader.StageGroups ∅ None).

(** What the classification keeps: every group holds, in their order, the
    opportunities seen so far that are in progress at its stage, and counts
    them; no group is an own property named __proto__. *)
Definition grouped (seen : list OpportunityReader.opportunity)
    (groups : OpportunityReader.stage_groups) : Prop :=
  OpportunityReader.own groups !! "__proto__" = None
  /\ (forall k g, OpportunityReader.own groups !! k = Some g ->
        OpportunityReader.opportunities g = List.filter (active_in k) seen
        /\ OpportunityReader.count g = Z.of_nat (length (OpportunityReader.opportunities g)))
  /\ (forall g, OpportunityReader.proto groups = Some g ->
        OpportunityReader.opportunities g = List.filter (active_in "__proto__") seen
        /\ OpportunityReader.count g = Z.of_nat (length (OpportunityReader.opportunities g))).

(** [stage.note || stage.value]. *)
Definition stageName (st : OpportunityReader.stage) : string :=
  if String.eqb (OpportunityReader.stage_note st) ""
  then OpportunityReader.stage_value st
  else OpportunityReader.stage_note st.

(** The stage at index [i] is the last stage of [stages] with the value [k]. *)
Definition last_stage (stages : list OpportunityReader.stage) (k : string) (i : nat)
    (st : OpportunityReader.stage) : Prop :=
  stages !! i = Some st
  /\ OpportunityReader.stage_value st = k
  /\ forall (j : nat) st', (i < j)%nat -> stages !! j = Some st' ->
                           OpportunityReader.stage_value st' <> k.

(** ** Test doubles and runs for the properties beyond the claims *)

(** A move whose append is refused, and the service's update of the event
    of the test double without and with a change of type. *)
Definition sample_faulty_backend : backend (list call) :=
  faulty_backend (sample_stub "3" (Some true) (inr [])) true false true.

Definition sample_faulty_move_run : world (list call) * result obj :=
  EventLogService.move sample_faulty_backend sample_config sample_event sample_move
    (Str "alice") sample_world.


Definition sample_service_move_run : world (list call) * result obj :=
  EventLogService.updateEventLog sample_backend sample_config (Int 5) sample_move
    (Str "alice") sample_world.

(** The row createEventLog builds of [sample_move], and that row as the
    sheet gives it back, without the empty cells at its end. *)
Definition sample_created : list value :=
  EventLogWriter.createRowData sample_config sample_move (Str "alice")
    "2026-01-23T10:00:00.000Z" "EVT1769162400000".

Definition sample_read_back : list string :=
  [ "EVT1769162400000"; "visit"; ""; ""; "alice"; "2026-01-23T10:00:00.000Z";
    "2026-01-23T10:00:00.000Z"; ""; ""; ""; ""; ""; ""; ""; "1" ].

(** A sheet of opportunities.  The configuration module is not among the
    sources: the name of the sheet, the titles and the status of the
    archived records are the test double's own. *)
Definition sample_field_names : OpportunityReader.field_names :=
  OpportunityReader.FieldNames "ID" "Name" "Customer" "Sales model" "Channel"
    "Channel contact" "Contact" "Assignee" "Type" "Source" "Stage" "Close date" "Value"
    "Value type" "Probability" "Product spec" "Device scale" "Notes" "Drive link" "Status"
    "History" "Created" "Updated" "Modifier" "Parent".

Definition sample_reader_config : OpportunityReader.reader_config :=
  OpportunityReader.ReaderConfig "Opportunities" sample_field_names "archived" 2.

Definition sample_header : list string :=
  [ " ID "; "Name"; "Customer"; "Status"; "Stage"; "ID" ].

Definition sample_sheet_rows : list (list string) :=
  [ [ "x"; "Alpha"; "Acme"; "進行中"; "s1"; "OPP1" ];
    [];
    [ "x"; "Beta"; "Acme"; "archived"; "s1"; "OPP2" ];
    [ "x"; "Gamma"; "Bolt"; "進行中"; "constructor"; "OPP3" ] ].

Definition sample_reader_backend : backend (list call) :=
  stub_backend
    (Stub
       (fun range =>
          if String.eqb range "Opportunities!A:ZZ"
          then Some (sample_header :: sample_sheet_rows)
          else None)
       [] None (inr []) (inr []) (Some true) "2026-01-23T10:00:00.000Z" 1769162400000).

Definition sample_reader_env : OpportunityReader.reader_env (list call) :=
  OpportunityReader.ReaderEnv
    (fun opportunities => opportunities)
    (Some (fun _ s => s))
    (fun s => s)
    (fun _ => inr (Some [ OpportunityReader.Stage "s1" "Qualify";
                          OpportunityReader.Stage "s2" "" ])).

Definition sample_listed : list OpportunityReader.opportunity :=
  match (OpportunityReader.getOpportunities sample_reader_backend sample_reader_env
           sample_reader_config sample_world).2 with
  | inr opportunities => opportunities
  | inl _ => []
  end.

(** The same reader with a configuration that has a stage for every stage
    of the sheet. *)
Definition sample_stages : list OpportunityReader.stage :=
  [ OpportunityReader.Stage "s1" "Qualify";
    OpportunityReader.Stage "s2" "";
    OpportunityReader.Stage "constructor" "Build" ].

Definition sample_staged_env : OpportunityReader.reader_env (list call) :=
  OpportunityReader.ReaderEnv
    (fun opportunities => opportunities)
    (Some (fun _ s => s))
    (fun s => s)
    (fun _ => inr (Some sample_stages)).

(** A payload that asks for the calendar, created at [createdTime]. *)
Definition sample_sync (createdTime : string) : obj :=
  {[ "eventType" := Str "general"; "eventName" := Str "visit";
     "syncToCalendar" := Str "true"; "createdTime" := Str createdTime ]}.

Definition sample_sync_run (createdTime : string) : world (list call) * result obj :=
  EventLogService.createEvent sample_backend sample_config (sample_sync createdTime) None
    sample_world.

(** * Properties *)

Import EventLogWriter.

(** ** The primitives *)

Example parseInt_examples :
  parseInt (Str "12") = Some 12 /\ parseInt (Str " 7px") = Some 7 /\
  parseInt (Str "0x1f") = Some 31 /\ parseInt (Str "-3") = Some (-3) /\
  parseInt (Str "") = None /\ parseInt (Str "abc") = None /\
  parseInt (Int 42) = Some 42 /\ parseInt Undefined = None /\
  parseInt (Str "2abc") = Some 2 /\ parseInt (Str "2.5") = Some 2.
Proof. repeat split; reflexivity. Qed.

Example ToNumber_examples :
  ToNumber (Str "12") = of_Z 12 /\ ToNumber (Str " 12 ") = of_Z 12 /\
  ToNumber (Str "") = of_Z 0 /\ ToNumber (Str "2abc") = NaN /\
  ToNumber (Str "2.5") = Fin (5 # 2) /\ ToNumber (Str "1e3") = of_Z 1000 /\
  ToNumber (Str "0x10") = of_Z 16 /\ ToNumber (Str "-Infinity") = NInf /\
  ToNumber (Str ".") = NaN /\ ToNumber (Str "5.") = of_Z 5 /\
  ToNumber (Str "1e") = NaN /\ ToNumber (Str "EVT1") = NaN.
Proof. repeat split; reflexivity. Qed.

Example rowRange_example :
  rowRange "EventLogs_General" (Int 5) 15 = "EventLogs_General!A5:O5".
Proof. reflexivity. Qed.

(** [parseInt] reads back the decimal numeral of an integer. *)

Lemma span_digits_uint d :
  span_digits 10 (NilEmpty.string_of_uint d) = (uint_digits d, "").
Proof.
  induction d; [reflexivity | ..];
    cbn [NilEmpty.string_of_uint span_digits uint_digits]; rewrite IHd; reflexivity.
Qed.

Lemma digits_value_acc d : forall acc,
  fold_left (fun a k => (a * 10 + k)%N) (uint_digits d) (Npos acc)
  = Npos (Pos.of_uint_acc d acc).
Proof.
  induction d; intros acc; cbn [uint_digits fold_left Pos.of_uint_acc];
    [reflexivity | ..];
    match goal with
    | |- fold_left _ _ ?a = Npos (Pos.of_uint_acc _ ?b) => replace a with (Npos b) by lia
    end; apply IHd.
Qed.

Lemma digits_value_uint d : digits_value 10 (uint_digits d) = Pos.of_uint d.
Proof.
  unfold digits_value.
  induction d; cbn [uint_digits fold_left Pos.of_uint]; [reflexivity | exact IHd | ..];
    apply digits_value_acc.
Qed.

Lemma skip_ws_ascii a s :
  ws1 a = false -> (N_of_ascii a <? 128)%N = true -> skip_ws (String a s) = String a s.
Proof.
  intros Hws Hlt. cbn [skip_ws]. rewrite Hws.
  apply N.ltb_lt in Hlt.
  destruct s as [|b s2]; [reflexivity|].
  replace (ws2 a b) with false
    by (unfold ws2; destruct (N.eqb_spec (N_of_ascii a) 194); [lia | reflexivity]).
  destruct s2 as [|c s3]; [reflexivity|].
  replace (ws3 a b c) with false; [reflexivity|].
  unfold ws3.
  repeat match goal with
         | |- context [(N_of_ascii a =? ?k)%N] =>
             destruct (N.eqb_spec (N_of_ascii a) k); [lia | cbn [andb orb]]
         end.
  reflexivity.
Qed.

Lemma string_of_uint_head d :
  d <> Decimal.Nil ->
  exists a r, NilEmpty.string_of_uint d = String a r
    /\ ws1 a = false /\ (N_of_ascii a <? 128)%N = true
    /\ a <> "-"%char /\ a <> "+"%char
    /\ (forall r', r <> String "x" r' /\ r <> String "X" r').
Proof.
  intros Hd.
  destruct d as [|d|d|d|d|d|d|d|d|d|d]; [congruence | ..];
    cbn [NilEmpty.string_of_uint]; eexists _, _;
    (split; [reflexivity |]);
    (repeat split; try reflexivity; try discriminate; try (destruct d; cbn; discriminate)).
Qed.

Lemma uint_digits_nonnil d : d <> Decimal.Nil -> uint_digits d <> [].
Proof. destruct d; cbn; congruence. Qed.

Lemma parseInt_string_uint d :
  d <> Decimal.Nil ->
  parseInt_string (NilEmpty.string_of_uint d) = Some (Z.of_N (Pos.of_uint d))
  /\ parseInt_string (String "-" (NilEmpty.string_of_uint d)) = Some (- Z.of_N (Pos.of_uint d)).
Proof.
  intros Hd.
  destruct (string_of_uint_head d Hd) as (a & r & Hs & Hws & Hlt & Hm & Hp & Hx).
  pose proof (span_digits_uint d) as Hspan.
  pose proof (uint_digits_nonnil d Hd) as Hne.
  pose proof (digits_value_uint d) as Hval.
  assert (Hradix :
    match String a r with
    | String "0" (String "x" r0) | String "0" (String "X" r0) => (16%N, r0)
    | _ => (10%N, String a r)
    end = (10%N, String a r)).
  { destruct r as [|b r0]; [destruct a as [[] [] [] [] [] [] [] []]; reflexivity|].
    destruct (Ascii.eqb_spec b "x") as [->|Hb]; [destruct (Hx r0) as [H _]; congruence|].
    destruct (Ascii.eqb_spec b "X") as [->|Hb']; [destruct (Hx r0) as [_ H]; congruence|].
    destruct a as [[] [] [] [] [] [] [] []]; try reflexivity;
      destruct b as [[] [] [] [] [] [] [] []]; try reflexivity; congruence. }
  assert (Hsign : take_sign (String a r) = (false, String a r)).
  { unfold take_sign.
    destruct a as [[] [] [] [] [] [] [] []]; try reflexivity; congruence. }
  split.
  - unfold parseInt_string. rewrite Hs, (skip_ws_ascii a r Hws Hlt), Hsign, Hradix.
    rewrite <- Hs, Hspan.
    destruct (uint_digits d) eqn:E; [congruence|].
    rewrite Hval. reflexivity.
  - unfold parseInt_string.
    rewrite (skip_ws_ascii "-" _ eq_refl eq_refl).
    cbn [take_sign]. rewrite Hs, Hradix.
    rewrite <- Hs, Hspan.
    destruct (uint_digits d) eqn:E; [congruence|].
    rewrite Hval. reflexivity.
Qed.

Lemma parseInt_string_of_Z z : parseInt_string (string_of_Z z) = Some z.
Proof.
  unfold string_of_Z.
  destruct z as [|p|p]; [reflexivity | ..]; cbn [Z.to_int NilZero.string_of_int];
    assert (Hd : Pos.to_uint p <> Decimal.Nil) by apply DecimalPos.Unsigned.to_uint_nonnil;
    replace (NilZero.string_of_uint (Pos.to_uint p))
      with (NilEmpty.string_of_uint (Pos.to_uint p))
      by (unfold NilZero.string_of_uint; destruct (Pos.to_uint p); congruence).
  - rewrite (proj1 (parseInt_string_uint _ Hd)), DecimalPos.Unsigned.of_to. reflexivity.
  - rewrite (proj2 (parseInt_string_uint _ Hd)), DecimalPos.Unsigned.of_to. reflexivity.
Qed.

(** An integer up to 2^53 is a double, and is printed with all its
    digits. *)

Lemma Qred_inject_Z z : Qred (inject_Z z) = inject_Z z.
Proof.
  unfold inject_Z, Qred. cbn [Qnum Qden].
  pose proof (Z.ggcd_gcd z 1) as Hg.
  pose proof (Z.ggcd_correct_divisors z 1) as Hd.
  destruct (Z.ggcd z 1) as [g [aa bb]]. cbn [fst snd] in *.
  rewrite Z.gcd_1_r in Hg. subst g. destruct Hd as [Ha Hb].
  rewrite Z.mul_1_l in Ha, Hb. subst aa bb. reflexivity.
Qed.

Lemma double_integer q z :
  (q == inject_Z z)%Q -> Z.abs z <= 2 ^ 53 -> double q = of_Z z.
Proof.
  intros Hq Hz. unfold double.
  rewrite (Qred_complete _ _ Hq), Qred_inject_Z. cbn [Qnum Qden inject_Z].
  rewrite Pos.eqb_refl. cbn [andb].
  destruct (Z.leb_spec (Z.abs z) (2 ^ 53)); [reflexivity | lia].
Qed.

Lemma double_of_Z z : Z.abs z <= 2 ^ 53 -> double (inject_Z z) = of_Z z.
Proof. apply double_integer. reflexivity. Qed.

Lemma plus_of_Z z k : Z.abs (z + k) <= 2 ^ 53 -> plus (of_Z z) k = of_Z (z + k).
Proof.
  intros H. unfold plus, of_Z. apply double_integer; [|exact H].
  rewrite inject_Z_plus. reflexivity.
Qed.

Lemma Number_toString_of_Z z :
  Z.abs z <= 2 ^ 53 -> Number_toString (of_Z z) = string_of_Z z.
Proof.
  intros H. unfold Number_toString, of_Z. rewrite (double_of_Z z H). unfold of_Z.
  rewrite Qred_inject_Z. cbn [Qnum Qden inject_Z]. rewrite Pos.eqb_refl. cbn [andb].
  destruct (Z.leb_spec (Z.abs z) (2 ^ 53)); [reflexivity | lia].
Qed.

Lemma parseInt_Int z : Z.abs z <= 2 ^ 53 -> parseInt (Int z) = Some z.
Proof.
  intros H. unfold parseInt. cbn [ToString]. rewrite (Number_toString_of_Z z H).
  apply parseInt_string_of_Z.
Qed.

Lemma le_Z_of_Z z k : le_Z (of_Z z) k = (z <=? k).
Proof.
  cbn [le_Z of_Z]. unfold Qle_bool. cbn [Qnum Qden inject_Z]. f_equal; lia.
Qed.


Lemma rowIndex_rejected_Int z :
  Z.abs z <= 2 ^ 53 -> rowIndex_rejected (Int z) = (z <=? 1).
Proof.
  intros H. unfold rowIndex_rejected. rewrite (parseInt_Int z H).
  cbn [NumberOf ToNumber]. apply le_Z_of_Z.
Qed.

(** [Number] reads back the decimal numeral of an integer up to 2^53. *)

Lemma non_decimal_uint d : non_decimal (NilEmpty.string_of_uint d) = None.
Proof. destruct d as [|d|d|d|d|d|d|d|d|d|d]; try reflexivity; destruct d; reflexivity. Qed.

Lemma take_sign_uint d :
  take_sign (NilEmpty.string_of_uint d) = (false, NilEmpty.string_of_uint d).
Proof. destruct d; reflexivity. Qed.

Lemma strip_prefix_uint d : strip_prefix "Infinity" (NilEmpty.string_of_uint d) = None.
Proof. destruct d; reflexivity. Qed.

Lemma unsigned_decimal_uint d :
  d <> Decimal.Nil ->
  exists q, unsigned_decimal (NilEmpty.string_of_uint d) = Some (q, "")
            /\ (q == inject_Z (Z.of_N (Pos.of_uint d)))%Q.
Proof.
  intros Hd. unfold unsigned_decimal. rewrite span_digits_uint.
  pose proof (uint_digits_nonnil d Hd) as Hne.
  pose proof (digits_value_uint d) as Hval.
  destruct (uint_digits d) as [|x l] eqn:E; [congruence|].
  cbn [exponent_part List.length Z.of_nat]. rewrite app_nil_r, Hval.
  eexists. split; [reflexivity|].
  rewrite Qred_correct. change (Qpower (10 # 1) (0 - Z.of_nat 0)) with 1%Q.
  apply Qmult_1_r.
Qed.

Lemma numeric_literal_uint d :
  d <> Decimal.Nil ->
  (exists q, numeric_literal (NilEmpty.string_of_uint d) = Some (Fin q, "")
             /\ (q == inject_Z (Z.of_N (Pos.of_uint d)))%Q)
  /\ (exists q, numeric_literal (String "-" (NilEmpty.string_of_uint d)) = Some (Fin q, "")
                /\ (q == inject_Z (- Z.of_N (Pos.of_uint d)))%Q).
Proof.
  intros Hd.
  destruct (unsigned_decimal_uint d Hd) as (q & Hq & Heq).
  split.
  - exists q. split; [|exact Heq].
    unfold numeric_literal.
    rewrite non_decimal_uint, take_sign_uint, strip_prefix_uint, Hq. reflexivity.
  - exists (Qred (- q)). split.
    + unfold numeric_literal.
      change (non_decimal (String "-" (NilEmpty.string_of_uint d)))
        with (@None (option (Q * string))).
      cbn [take_sign]. rewrite strip_prefix_uint, Hq. reflexivity.
    + rewrite Qred_correct, Heq, <- inject_Z_opp. reflexivity.
Qed.

Lemma StringToNumber_uint d :
  d <> Decimal.Nil ->
  (exists q, StringToNumber (NilEmpty.string_of_uint d) = Fin q
             /\ (q == inject_Z (Z.of_N (Pos.of_uint d)))%Q)
  /\ (exists q, StringToNumber (String "-" (NilEmpty.string_of_uint d)) = Fin q
                /\ (q == inject_Z (- Z.of_N (Pos.of_uint d)))%Q).
Proof.
  intros Hd.
  destruct (numeric_literal_uint d Hd) as [(q & Hq & Heq) (q' & Hq' & Heq')].
  destruct (string_of_uint_head d Hd) as (a & r & Hs & Hws & Hlt & _).
  split.
  - exists q. split; [|exact Heq].
    unfold StringToNumber. rewrite Hs in Hq |- *.
    rewrite (skip_ws_ascii a r Hws Hlt), Hq. reflexivity.
  - exists q'. split; [|exact Heq'].
    unfold StringToNumber.
    rewrite (skip_ws_ascii "-" _ eq_refl eq_refl), Hq'. reflexivity.
Qed.

Lemma NumberOf_numeral z :
  Z.abs z <= 2 ^ 53 -> NumberOf (Str (string_of_Z z)) = of_Z z.
Proof.
  intros Hz. unfold string_of_Z. cbn [NumberOf].
  destruct z as [|p|p]; [reflexivity | ..]; cbn [Z.to_int NilZero.string_of_int];
    assert (Hd : Pos.to_uint p <> Decimal.Nil) by apply DecimalPos.Unsigned.to_uint_nonnil;
    replace (NilZero.string_of_uint (Pos.to_uint p))
      with (NilEmpty.string_of_uint (Pos.to_uint p))
      by (unfold NilZero.string_of_uint; destruct (Pos.to_uint p); congruence);
    destruct (StringToNumber_uint _ Hd) as [(q & Hq & Heq) (q' & Hq' & Heq')];
    rewrite DecimalPos.Unsigned.of_to in Heq, Heq'.
  - rewrite Hq. apply double_integer; [exact Heq | exact Hz].
  - rewrite Hq'. apply double_integer; [exact Heq' | exact Hz].
Qed.

(** Rounding to the nearest double, around 1: the fractions that round to a
    double that is at most 1 are those up to 1 + 2^-53, the midpoint of 1 and
    the next double, which rounds to the even significand of 1. *)

Lemma round_half_even_cases a b :
  0 < b ->
  exists f r, a = b * f + r /\ 0 <= r < b
    /\ (round_half_even a b = f /\ 2 * r <= b \/ round_half_even a b = f + 1 /\ b <= 2 * r)
    /\ (2 * r = b -> Z.even (round_half_even a b) = true).
Proof.
  intros Hb. exists (a / b), (a mod b). unfold round_half_even.
  pose proof (Z.div_mod a b ltac:(lia)) as Hdm.
  pose proof (Z.mod_pos_bound a b Hb) as Hm.
  split; [exact Hdm|]. split; [exact Hm|].
  destruct (Z.compare_spec (2 * (a mod b)) b) as [Hc|Hc|Hc].
  - destruct (Z.even (a / b)) eqn:E.
    + split; [left; lia|]. intros _. exact E.
    + split; [right; lia|]. intros _. rewrite Z.even_add, E. reflexivity.
  - split; [left; lia | lia].
  - split; [right; lia | lia].
Qed.

Lemma round_pos_exponent a b :
  0 < a -> 0 < b ->
  let e0 := Z.log2 a - Z.log2 b in
  let above := if 0 <=? e0 then 2 ^ e0 * b <=? a else b <=? a * 2 ^ (- e0) in
  let e := if above then e0 else e0 - 1 in
  (a < b /\ e <= 0) \/ (b <= a < 2 * b /\ e = 0) \/ (2 * b <= a /\ 1 <= e /\ 2 ^ e * b <= a).
Proof.
  intros Ha Hb e0 above e.
  destruct (Z.log2_spec a Ha) as [Ha1 Ha2], (Z.log2_spec b Hb) as [Hb1 Hb2].
  pose proof (Z.log2_nonneg a) as Hla. pose proof (Z.log2_nonneg b) as Hlb.
  destruct (Z_lt_le_dec a b) as [Hab|Hab].
  { left. split; [exact Hab|].
    pose proof (Z.log2_le_mono a b ltac:(lia)).
    subst e. destruct above; lia. }
  right.
  pose proof (Z.log2_le_mono b a Hab) as Hmono.
  destruct (Z_lt_le_dec a (2 * b)) as [H2|H2].
  { left. split; [lia|].
    pose proof (Z.log2_le_mono a (2 * b) ltac:(lia)) as Hm2.
    rewrite (Z.log2_double b Hb) in Hm2.
    assert (He0 : e0 = 0 \/ e0 = 1) by lia.
    subst e above. destruct He0 as [E | E]; rewrite E.
    - change (0 <=? 0) with true. change (2 ^ 0) with 1. cbv iota.
      destruct (Z.leb_spec (1 * b) a); lia.
    - change (0 <=? 1) with true. change (2 ^ 1) with 2. cbv iota.
      destruct (Z.leb_spec (2 * b) a); lia. }
  right. split; [exact H2|].
  pose proof (Z.log2_le_mono (2 * b) a H2) as Hm2.
  rewrite (Z.log2_double b Hb) in Hm2.
  assert (He0 : 1 <= e0) by lia.
  subst e above.
  destruct (Z.leb_spec 0 e0); [|lia].
  destruct (Z.leb_spec (2 ^ e0 * b) a) as [Hle|Hgt]; [split; [lia | exact Hle]|].
  assert (e0 <> 1).
  { intros E. rewrite E in Hgt. change (2 ^ 1) with 2 in Hgt. lia. }
  split; [lia|].
  assert (Hp : 2 ^ (e0 - 1) * 2 ^ (Z.succ (Z.log2 b)) = 2 ^ Z.log2 a).
  { rewrite <- Z.pow_add_r by lia. f_equal. lia. }
  assert (0 < 2 ^ (e0 - 1)) by (apply Z.pow_pos_nonneg; lia).
  nia.
Qed.

Lemma round_pos_le_1 a b :
  0 < a -> 0 < b ->
  match round_pos a b with
  | None => (2 ^ 53 + 1) * b < 2 ^ 53 * a
  | Some (n, p) =>
      (if 0 <=? p then n * 2 ^ p <= 1 else n <= 2 ^ (- p))
      <-> 2 ^ 53 * a <= (2 ^ 53 + 1) * b
  end.
Proof.
  intros Ha Hb. unfold round_pos.
  pose proof (round_pos_exponent a b Ha Hb) as He. cbv zeta in He.
  set (e := if (if 0 <=? Z.log2 a - Z.log2 b then _ else _) : bool then _ else _) in *.
  clearbody e.
  set (p := Z.max e (-1022) - 52).
  destruct He as [[Hab He] | [[Hab He] | (Hab & He & Hpow)]].
  - assert (Hp : p <= -52) by lia.
    destruct (0 <=? p) eqn:E0; [apply Z.leb_le in E0; lia|]. cbn [andb]. rewrite E0.
    assert (HK : 0 < 2 ^ (- p)) by (apply Z.pow_pos_nonneg; lia).
    destruct (round_half_even_cases (a * 2 ^ (- p)) b Hb) as (f & r & Hfr & Hr & Hn & _).
    split; [lia|]. intros _.
    assert (f < 2 ^ (- p)) by nia.
    lia.
  - assert (Hp : p = -52) by lia. rewrite Hp.
    change (0 <=? -52) with false. cbn [andb]. change (0 <=? -52) with false.
    change (- -52) with 52. cbv iota.
    destruct (round_half_even_cases (a * 2 ^ 52) b Hb) as (f & r & Hfr & Hr & Hn & Hev).
    set (n := round_half_even (a * 2 ^ 52) b) in *. clearbody n.
    change (2 ^ 53) with (2 * 2 ^ 52). 
    assert (Hf : f < 2 ^ 52 \/ f = 2 ^ 52 \/ 2 ^ 52 < f) by lia.
    destruct Hf as [Hf | [Hf | Hf]].
    + split; [intros _; nia | lia].
    + subst f. split.
      * intros Hle. lia.
      * intros Hle. destruct Hn as [[-> _] | [-> Hh]]; [lia|].
        assert (2 * r = b) by lia.
        specialize (Hev ltac:(assumption)). discriminate Hev.
    + split; [lia | intros Hle; nia].
  - assert (Hp : p = e - 52) by lia.
    assert (Hgt : (2 ^ 53 + 1) * b < 2 ^ 53 * a) by lia.
    destruct (0 <=? p) eqn:E0; [apply Z.leb_le in E0 | apply Z.leb_gt in E0]; cbn [andb].
    + set (n := round_half_even a (b * 2 ^ p)).
      assert (Hn : 2 ^ 52 <= n).
      { assert (HK : 0 < 2 ^ p) by (apply Z.pow_pos_nonneg; lia).
        assert (Hb' : 0 < b * 2 ^ p) by nia.
        destruct (round_half_even_cases a (b * 2 ^ p) Hb') as (f & r & Hfr & Hr & Hn & _).
        fold n in Hn.
        assert (HE : 2 ^ e = 2 ^ 52 * 2 ^ p).
        { rewrite <- Z.pow_add_r by lia. f_equal. lia. }
        rewrite HE in Hpow.
        assert (2 ^ 52 <= f) by nia. lia. }
      destruct (2 ^ 1024 <=? n * 2 ^ p); [exact Hgt|].
      apply Z.leb_le in E0. rewrite E0. apply Z.leb_le in E0.
      assert (HK : 0 < 2 ^ p) by (apply Z.pow_pos_nonneg; lia).
      split; [intros; nia | lia].
    + assert (HK : 0 < 2 ^ (- p)) by (apply Z.pow_pos_nonneg; lia).
      destruct (round_half_even_cases (a * 2 ^ (- p)) b Hb) as (f & r & Hfr & Hr & Hn & _).
      apply Z.leb_gt in E0. rewrite E0. apply Z.leb_gt in E0.
      split; [|lia]. intros Hle.
      assert (2 * 2 ^ (- p) <= f) by nia. lia.
Qed.

Lemma round_half_even_nonneg a b : 0 <= a -> 0 < b -> 0 <= round_half_even a b.
Proof.
  intros Ha Hb.
  destruct (round_half_even_cases a b Hb) as (f & r & Hfr & Hr & Hn & _).
  assert (0 <= f) by nia. lia.
Qed.

Lemma round_pos_nonneg a b :
  0 <= a -> 0 < b ->
  match round_pos a b with Some (n, _) => 0 <= n | None => True end.
Proof.
  intros Ha Hb. unfold round_pos.
  set (p := Z.max _ _ - 52). clearbody p.
  destruct (0 <=? p) eqn:E0; cbn [andb].
  - apply Z.leb_le in E0.
    destruct (2 ^ 1024 <=? _); [exact I|].
    apply round_half_even_nonneg; [exact Ha|].
    assert (0 < 2 ^ p) by (apply Z.pow_pos_nonneg; lia). nia.
  - apply Z.leb_gt in E0.
    assert (0 < 2 ^ (- p)) by (apply Z.pow_pos_nonneg; lia).
    apply round_half_even_nonneg; [nia | exact Hb].
Qed.

Lemma le_times_pow2 n p :
  Qle_bool (times_pow2 n p) (inject_Z 1) = true
  <-> if 0 <=? p then n * 2 ^ p <= 1 else n <= 2 ^ (- p).
Proof.
  unfold times_pow2. rewrite Qle_bool_iff.
  destruct (0 <=? p) eqn:E0.
  - rewrite <- Zle_Qle. reflexivity.
  - apply Z.leb_gt in E0.
    assert (0 < 2 ^ (- p)) by (apply Z.pow_pos_nonneg; lia).
    rewrite Qred_correct. unfold Qle. cbn [Qnum Qden inject_Z].
    rewrite Z2Pos.id by assumption. lia.
Qed.

Lemma double_le_1 q :
  le_Z (double q) 1 = true <-> (q <= 9007199254740993 # 9007199254740992)%Q.
Proof.
  rewrite <- (Qred_correct q) at 2. unfold double.
  destruct (Qred q) as [a b]. cbn [Qnum Qden].
  assert (Hq : (a # b <= 9007199254740993 # 9007199254740992)%Q
               <-> 2 ^ 53 * a <= (2 ^ 53 + 1) * Zpos b).
  { unfold Qle. cbn [Qnum Qden]. change (2 ^ 53) with 9007199254740992. lia. }
  rewrite Hq. clear Hq.
  destruct ((b =? 1)%positive && (Z.abs a <=? 2 ^ 53)) eqn:E.
  { apply andb_true_iff in E as [Eb Ea]. apply Pos.eqb_eq in Eb. subst b.
    cbn [le_Z]. rewrite Qle_bool_iff. unfold Qle. cbn [Qnum Qden inject_Z].
    change (2 ^ 53) with 9007199254740992. lia. }
  clear E.
  destruct (Z.ltb_spec a 0) as [Hneg|Hpos].
  - pose proof (round_pos_nonneg (Z.abs a) (Zpos b) ltac:(lia) ltac:(lia)) as Hn.
    destruct (round_pos (Z.abs a) (Zpos b)) as [[n p]|].
    + cbn [le_Z]. rewrite le_times_pow2.
      split; [intros _; change (2 ^ 53) with 9007199254740992; lia|]. intros _.
      destruct (0 <=? p) eqn:E0.
      * apply Z.leb_le in E0. assert (0 < 2 ^ p) by (apply Z.pow_pos_nonneg; lia). nia.
      * apply Z.leb_gt in E0. assert (0 < 2 ^ (- p)) by (apply Z.pow_pos_nonneg; lia). nia.
    + cbn [le_Z]. split; [intros _; change (2 ^ 53) with 9007199254740992; lia | reflexivity].
  - assert (Ha : a = 0 \/ 0 < a) by lia.
    destruct Ha as [-> | Ha].
    + pose proof (round_pos_nonneg 0 (Zpos b) ltac:(lia) ltac:(lia)) as Hn.
      cbn [Z.abs].
      assert (Hz : forall b', 0 < b' -> round_half_even 0 b' = 0).
      { intros b' Hb'. unfold round_half_even.
        rewrite Z.div_0_l, Z.mod_0_l by lia.
        destruct (Z.compare_spec (2 * 0) b'); lia. }
      unfold round_pos. set (p := Z.max _ _ - 52). clearbody p.
      destruct (0 <=? p) eqn:E0.
      * apply Z.leb_le in E0. assert (0 < 2 ^ p) by (apply Z.pow_pos_nonneg; lia).
        rewrite Hz by nia. cbn [andb]. rewrite Z.mul_0_l.
        change (2 ^ 1024 <=? 0) with false. cbv iota.
        cbn [le_Z]. rewrite le_times_pow2. apply Z.leb_le in E0. rewrite E0.
        change (2 ^ 53) with 9007199254740992. lia.
      * cbn [andb]. rewrite Z.mul_0_l, Hz by lia.
        cbn [le_Z]. rewrite le_times_pow2, E0.
        apply Z.leb_gt in E0. assert (0 < 2 ^ (- p)) by (apply Z.pow_pos_nonneg; lia).
        change (2 ^ 53) with 9007199254740992. lia.
    + pose proof (round_pos_le_1 a (Zpos b) Ha ltac:(lia)) as H1.
      rewrite (Z.abs_eq a) by lia.
      destruct (round_pos a (Zpos b)) as [[n p]|].
      * cbn [le_Z]. rewrite le_times_pow2. exact H1.
      * cbn [le_Z]. split; [discriminate | lia].
Qed.

Lemma rowIndex_rejected_below z : z <= 1 -> rowIndex_rejected (Int z) = true.
Proof.
  intros Hz. unfold rowIndex_rejected.
  destruct (parseInt (Int z)); [|reflexivity].
  cbn [NumberOf ToNumber]. rewrite le_Z_of_Z. apply Z.leb_le. exact Hz.
Qed.

Lemma rowIndex_rejected_Str s :
  rowIndex_rejected (Str s) = true
  <-> parseInt_string s = None
      \/ StringToNumber s = NInf
      \/ exists q, StringToNumber s = Fin q
                   /\ (q <= 9007199254740993 # 9007199254740992)%Q.
Proof.
  unfold rowIndex_rejected, parseInt. cbn [ToString NumberOf].
  destruct (parseInt_string s) as [z|].
  2: { split; [intros _; left; reflexivity | reflexivity]. }
  destruct (StringToNumber s) as [| | |q]; cbn [le_Z].
  - split; [discriminate | intros [H|[H|(q & H & _)]]; discriminate].
  - split; [discriminate | intros [H|[H|(q & H & _)]]; discriminate].
  - split; [intros _; right; left; reflexivity | reflexivity].
  - rewrite double_le_1. split.
    + intros H. right. right. exists q. split; [reflexivity | exact H].
    + intros [H|[H|(q' & H & Hle)]]; [discriminate.. |].
      injection H as <-. exact Hle.
Qed.

Lemma rowIndex_rejected_numeral z :
  Z.abs z <= 2 ^ 53 -> rowIndex_rejected (Str (string_of_Z z)) = (z <=? 1).
Proof.
  intros Hz. unfold rowIndex_rejected.
  rewrite (NumberOf_numeral z Hz), le_Z_of_Z.
  unfold parseInt. cbn [ToString]. rewrite parseInt_string_of_Z. reflexivity.
Qed.

(** Rounding keeps what is not a number apart from what is. *)
Lemma isNaN_double q : isNaN (double q) = false.
Proof.
  unfold double. destruct (_ && _); [reflexivity|].
  destruct (round_pos _ _) as [[n p]|]; [reflexivity|].
  destruct (_ <? _); reflexivity.
Qed.

Lemma isNaN_NumberOf v : isNaN (NumberOf v) = isNaN (ToNumber v).
Proof.
  destruct v; try reflexivity. cbn [NumberOf ToNumber].
  destruct (StringToNumber s); try reflexivity. apply isNaN_double.
Qed.

(** The Number of a value is a fraction in lowest terms, so that two
    Numbers that are equal as numbers are the same. *)
Lemma Qred_idem q : Qred (Qred q) = Qred q.
Proof. apply Qred_complete, Qred_correct. Qed.

Lemma double_lowest_terms q :
  match double q with Fin x => Qred x = x | _ => True end.
Proof.
  unfold double. destruct (_ && _); [apply Qred_idem|].
  destruct (round_pos _ _) as [[n p]|].
  - unfold times_pow2. destruct (0 <=? p); [apply Qred_inject_Z | apply Qred_idem].
  - destruct (_ <? _); exact I.
Qed.

Lemma NumberOf_lowest_terms v :
  match NumberOf v with Fin x => Qred x = x | _ => True end.
Proof.
  destruct v as [| |b|z|s]; cbn [NumberOf ToNumber].
  - exact I.
  - apply Qred_inject_Z.
  - destruct b; apply Qred_inject_Z.
  - apply Qred_inject_Z.
  - destruct (StringToNumber s); try exact I. apply double_lowest_terms.
Qed.

Lemma num_eq_NumberOf v v' :
  num_eq (NumberOf v) (NumberOf v') = true ->
  NumberOf v = NumberOf v' /\ isNaN (NumberOf v) = false.
Proof.
  pose proof (NumberOf_lowest_terms v) as H1.
  pose proof (NumberOf_lowest_terms v') as H2.
  destruct (NumberOf v) as [| | |x], (NumberOf v') as [| | |y]; cbn [num_eq isNaN];
    try discriminate; try (intros _; split; reflexivity).
  intros H. apply Qeq_bool_iff, Qred_complete in H.
  rewrite H1, H2 in H. subst y. split; reflexivity.
Qed.

(** ** Lists, traces *)

Lemma lookup_map {A C} (f : A -> C) (l : list A) (i : nat) :
  map f l !! i = f <$> (l !! i).
Proof. revert i; induction l as [|a l IH]; intros [|i]; cbn; auto. Qed.

Lemma new_calls_app {S} (w w' : world S) (l : list call) :
  trace w' = (trace w ++ l)%list -> new_calls w w' = l.
Proof. intros H. unfold new_calls. rewrite H. apply drop_app_length. Qed.

Lemma new_calls_nil {S} (w : world S) : new_calls w w = [].
Proof. apply new_calls_app. symmetry. apply app_nil_r. Qed.

Lemma run_eq {S A} (r : world S * result A) (a : A) : r.2 = inr a -> r = (r.1, inr a).
Proof. destruct r as [w x]. cbn. intros ->. reflexivity. Qed.

(** Case analysis on the label tests of a callback. *)
Ltac label_cases :=
  repeat match goal with
         | |- context [String.eqb ?a ?b] => destruct (String.eqb_spec a b)
         end.

Ltac automatic_label Hn :=
  exfalso; apply Hn;
  match goal with E : _ = _ |- _ => rewrite E end;
  unfold automatic_on_create; set_solver.

(** ** Schema registry: the key of a label *)

(** Claim C7.  The key of a column label is a function of the event type and
    the label alone ([resolveKey] has no other argument).  The device-scale
    label resolves to the IOT key for type iot and to the DT key for type dt;
    for any other type, and for every other label, the key is the one of the
    generic map.  createEventLog and updateEventLog take the payload value
    of a column that is not filled automatically at the key so resolved,
    with the payload's eventType as the type. *)
Theorem label_resolution :
  resolveKey (Str "iot") "設備規模" = Some "iot_deviceScale"
  /\ resolveKey (Str "dt") "設備規模" = Some "dt_deviceScale"
  /\ (forall eventType, eventType <> Str "iot" -> eventType <> Str "dt" ->
        resolveKey eventType "設備規模" = HEADER_TO_KEY_MAP !! "設備規模")
  /\ (forall eventType header, header <> "設備規模" ->
        resolveKey eventType header = HEADER_TO_KEY_MAP !! header)
  /\ (forall data creator now eventId header,
        header ∉ automatic_on_create ->
        createCell data creator now eventId header
        = match resolveKey (get data "eventType") header with
          | Some k => if strict_eq (get data k) Undefined then Str "" else get data k
          | None => Str ""
          end)
  /\ (forall data now header cell,
        header <> "最後修改時間" -> header <> "修訂版次" ->
        updateCell data now header cell
        = match resolveKey (get data "eventType") header with
          | Some k => if strict_eq (get data k) Undefined then cell else get data k
          | None => cell
          end).
Proof.
  split; [reflexivity|]. split; [reflexivity|].
  split.
  { intros t Hi Hd. unfold resolveKey, strict_eq.
    rewrite String.eqb_refl, !bool_decide_eq_false_2 by assumption. reflexivity. }
  split.
  { intros t h Hh. unfold resolveKey.
    destruct (String.eqb_spec h "設備規模"); [contradiction | reflexivity]. }
  split.
  { intros data creator now eventId header Hn. unfold createCell.
    label_cases; try reflexivity; automatic_label Hn. }
  { intros data now header cell H1 H2. unfold updateCell.
    label_cases; try reflexivity; contradiction. }
Qed.

(** ** Create *)

Section Create.
Context {S : Type} (B : backend S) (config : config).

(** createEventLog, by the answers of the append and of the invalidation. *)
Lemma createEventLog_run data creator w :
  let eventId := "EVT" ++ string_of_Z (clock_ms B (ext w)) in
  let rowData := createRowData config data creator (clock_iso B (ext w)) eventId in
  let range := _getSheetNameByType config (get data "eventType") ++ "!A:Z" in
  createEventLog B config data creator w =
    match values_append B range rowData (ext w) with
    | inl e => (log (CValuesAppend range rowData) w, inl e)
    | inr s1 =>
        let w1 := World s1 (heap w) (trace w ++ [CValuesAppend range rowData]) in
        match reader_invalidateCache B with
        | None => (w1, inl TypeError)
        | Some f =>
            match f "eventLogs" s1 with
            | inl e => (log (CInvalidateCache "eventLogs") w1, inl e)
            | inr s2 =>
                (World s2 (heap w)
                   (trace w ++ [CValuesAppend range rowData; CInvalidateCache "eventLogs"]),
                 inr {[ "success" := Bool true; "id" := Str eventId ]})
            end
        end
    end.
Proof.
  cbv zeta.
  unfold createEventLog, bind, now_iso, now_ms, sheets_append, invalidateCache, write_call,
    ret, throw.
  cbn [ext heap trace].
  destruct (values_append B _ _ (ext w)) as [e|s1]; [reflexivity|].
  destruct (reader_invalidateCache B) as [f|]; [|reflexivity].
  cbn [ext heap trace].
  destruct (f "eventLogs" s1) as [e|s2]; [reflexivity|].
  rewrite <- app_assoc. reflexivity.
Qed.

(** Claim C5.  The row createEventLog appends has one cell per label of the
    type's schema, in the order of the schema: the identity column holds the
    generated id, which is the literal EVT followed by the decimal numeral of
    the clock's milliseconds (so it is not empty and its suffix reads back as
    that number); the creator column holds the given creator; both timestamp
    columns hold the current time; the revision column holds the string 1;
    every other column holds the payload value at the resolved key, or the
    empty string when the label has no key or the payload has no value there.
    When the append and the invalidation succeed the call appends exactly
    that row and returns success with that id. *)
Theorem create_builds_row_and_returns_id data creator w :
  let headers := _getFieldsByType config (get data "eventType") in
  let now := clock_iso B (ext w) in
  let ms := clock_ms B (ext w) in
  let eventId := "EVT" ++ string_of_Z ms in
  let rowData := createRowData config data creator now eventId in
  let range := _getSheetNameByType config (get data "eventType") ++ "!A:Z" in
  (eventId <> "" /\ parseInt (Str (string_of_Z ms)) = Some ms)
  /\ length rowData = length headers
  /\ (forall (i : nat) header, headers !! i = Some header ->
        exists cell, rowData !! i = Some cell
          /\ (header = "事件ID" -> cell = Str eventId)
          /\ (header = "建立者" -> cell = creator)
          /\ (header = "建立時間" -> cell = Str now)
          /\ (header = "最後修改時間" -> cell = Str now)
          /\ (header = "修訂版次" -> cell = Str "1")
          /\ (header ∉ automatic_on_create ->
                (forall k, resolveKey (get data "eventType") header = Some k ->
                           get data k <> Undefined -> cell = get data k)
                /\ ((forall k, resolveKey (get data "eventType") header = Some k ->
                               get data k = Undefined) -> cell = Str "")))
  /\ (forall s1 f s2,
        values_append B range rowData (ext w) = inr s1 ->
        reader_invalidateCache B = Some f ->
        f "eventLogs" s1 = inr s2 ->
        createEventLog B config data creator w
        = (World s2 (heap w)
             (trace w ++ [CValuesAppend range rowData; CInvalidateCache "eventLogs"]),
           inr {[ "success" := Bool true; "id" := Str eventId ]})).
Proof.
  cbv zeta. split; [split|split; [|split]].
  - discriminate.
  - apply parseInt_string_of_Z.
  - unfold createRowData. apply length_map.
  - intros i header Hi. unfold createRowData. rewrite lookup_map, Hi.
    cbn [fmap option_fmap option_map].
    eexists; split; [reflexivity|].
    unfold createCell.
    repeat (split; [intros ->; reflexivity|]).
    intros Hn.
    label_cases; try automatic_label Hn.
    split.
    + intros k Hk Hd.
      rewrite Hk. unfold strict_eq. rewrite bool_decide_eq_false_2 by assumption. reflexivity.
    + intros Hk.
      destruct (resolveKey _ _) as [k|]; [|reflexivity].
      rewrite (Hk k eq_refl). reflexivity.
  - intros s1 f s2 Ha Hf Hi. rewrite createEventLog_run. cbv zeta.
    rewrite Ha, Hf, Hi. reflexivity.
Qed.

End Create.

(** ** Update *)

Section Rows.
Context (data : obj) (now : string).

Lemma length_padRow width row :
  length (padRow width row) = Nat.max width (length row).
Proof. unfold padRow. rewrite length_app, length_replicate. lia. Qed.

Lemma padRow_lookup_old width row (i : nat) :
  (i < length row)%nat -> padRow width row !! i = row !! i.
Proof. intros H. unfold padRow. apply lookup_app_l. exact H. Qed.

Lemma padRow_lookup_new width row (i : nat) :
  (length row <= i)%nat -> (i < width)%nat -> padRow width row !! i = Some (Str "").
Proof.
  intros H1 H2. unfold padRow. rewrite lookup_app_r by exact H1.
  apply lookup_replicate_2. lia.
Qed.

Lemma length_updateCells headers row :
  length (updateCells data now headers row) = length row.
Proof.
  revert row; induction headers as [|h hs IH]; intros [|c row]; cbn; auto.
Qed.

Lemma updateCells_lookup headers : forall row (i : nat) header,
  (length headers <= length row)%nat ->
  headers !! i = Some header ->
  exists cell, row !! i = Some cell
    /\ updateCells data now headers row !! i = Some (updateCell data now header cell).
Proof.
  induction headers as [|h hs IH]; intros row i header Hlen Hi; [discriminate|].
  destruct row as [|c row]; [cbn in Hlen; lia|].
  destruct i as [|i]; cbn in *.
  - injection Hi as <-. eauto.
  - apply IH; [lia | exact Hi].
Qed.

Lemma updateCells_beyond headers : forall row (i : nat),
  (length headers <= i)%nat ->
  updateCells data now headers row !! i = row !! i.
Proof.
  induction headers as [|h hs IH]; intros row i Hi; [destruct row; reflexivity|].
  destruct row as [|c row]; [reflexivity|].
  destruct i as [|i]; cbn in *; [lia|]. apply IH. lia.
Qed.

End Rows.

Section Update.
Context {S : Type} (B : backend S) (config : config).

(** updateEventLog, by the guard and the answers of the calls. *)
Lemma updateEventLog_run rowIndex data modifier w :
  let headers := _getFieldsByType config (get data "eventType") in
  let range := rowRange (_getSheetNameByType config (get data "eventType")) rowIndex
                 (length headers) in
  let now := clock_iso B (ext w) in
  let w1 := log (CValuesGet range) w in
  updateEventLog B config rowIndex data modifier w =
    if rowIndex_rejected rowIndex then (w, inl (InvalidRowIndex rowIndex))
    else
      match values_get B range (ext w) with
      | inl e => (w1, inl e)
      | inr None => (w1, inl RowNotFound)
      | inr (Some []) => (w1, inl TypeError)
      | inr (Some ([] :: _)) => (w1, inl RowNotFound)
      | inr (Some (first :: _)) =>
          let newRow :=
            updateCells data now headers (padRow (length headers) (map Str first)) in
          match values_update B range newRow (ext w) with
          | inl e => (log (CValuesUpdate range newRow) w1, inl e)
          | inr s1 =>
              let w2 :=
                World s1 (heap w) (trace w ++ [CValuesGet range; CValuesUpdate range newRow]) in
              match reader_invalidateCache B with
              | None => (w2, inl TypeError)
              | Some f =>
                  match f "eventLogs" s1 with
                  | inl e => (log (CInvalidateCache "eventLogs") w2, inl e)
                  | inr s2 =>
                      (World s2 (heap w)
                         (trace w ++ [CValuesGet range; CValuesUpdate range newRow;
                                      CInvalidateCache "eventLogs"]),
                       inr {[ "success" := Bool true ]})
                  end
              end
          end
      end.
Proof.
  cbv zeta. unfold updateEventLog.
  destruct (rowIndex_rejected rowIndex); [reflexivity|].
  unfold bind, now_iso, sheets_get, read_call, sheets_update, invalidateCache, write_call,
    ret, throw, log.
  cbn [ext heap trace].
  destruct (values_get B _ (ext w)) as [e|[[|[|c first] rest]|]]; try reflexivity.
  cbn [ext heap trace].
  destruct (values_update B _ _ (ext w)) as [e|s1]; [reflexivity|].
  rewrite <- app_assoc. cbn [app].
  destruct (reader_invalidateCache B) as [f|]; [|reflexivity].
  cbn [ext heap trace].
  destruct (f "eventLogs" s1) as [e|s2]; [reflexivity|].
  rewrite <- app_assoc. reflexivity.
Qed.

(** The revision written over a cell: 2 when the cell reads as no number,
    and the numeral of v + 1, v being the integer read or 1 for 0, as long
    as v and v + 1 are integers that a double holds exactly. *)
Lemma revision_unread cell :
  parseInt cell = None -> Number_toString (plus (currentVer cell) 1) = "2".
Proof. intros H. unfold currentVer. rewrite H. reflexivity. Qed.

Lemma revision_read cell v :
  parseInt cell = Some v ->
  - 2 ^ 53 <= v < 2 ^ 53 ->
  Number_toString (plus (currentVer cell) 1)
  = string_of_Z ((if v =? 0 then 1 else v) + 1).
Proof.
  intros H Hv. unfold currentVer. rewrite H.
  destruct (Z.eqb_spec v 0) as [_|_]; [reflexivity|].
  rewrite double_of_Z, plus_of_Z, Number_toString_of_Z by lia. reflexivity.
Qed.

(** Claim C3, as amended.  When updateEventLog succeeds it has read one row,
    written one row back at the same range and invalidated the cache.  With
    the row read padded with empty strings to the width of the schema, the
    row written has the same length and, column by column of the schema: the
    modified-timestamp column holds the current time; the revision column
    holds String(v + 1), where v is the Number parseInt reads in the old
    cell, or 1 when it reads none or reads 0, which is 2 for a cell that
    does not parse and the decimal numeral of v + 1 for every integer v
    with -2^53 <= v < 2^53 (beyond, v and v + 1 are rounded to doubles);
    any other column whose label has no key, or whose key the payload
    leaves undefined, holds the old cell unchanged. *)
Theorem partial_update_keeps_unsupplied_fields rowIndex data modifier w w' res :
  updateEventLog B config rowIndex data modifier w = (w', inr res) ->
  let headers := _getFieldsByType config (get data "eventType") in
  let range := rowRange (_getSheetNameByType config (get data "eventType")) rowIndex
                 (length headers) in
  let now := clock_iso B (ext w) in
  exists first rest newRow,
    values_get B range (ext w) = inr (Some (first :: rest))
    /\ new_calls w w' = [CValuesGet range; CValuesUpdate range newRow;
                         CInvalidateCache "eventLogs"]
    /\ let oldRow := padRow (length headers) (map Str first) in
       length newRow = length oldRow
       /\ (forall i : nat, (i < length first)%nat -> oldRow !! i = Str <$> first !! i)
       /\ (forall i : nat, (length first <= i)%nat -> (i < length headers)%nat ->
             oldRow !! i = Some (Str ""))
       /\ (forall (i : nat) header, headers !! i = Some header ->
             exists old, oldRow !! i = Some old
               /\ (header = "最後修改時間" -> newRow !! i = Some (Str now))
               /\ (header = "修訂版次" ->
                     newRow !! i = Some (Str (Number_toString (plus (currentVer old) 1)))
                     /\ (parseInt old = None -> newRow !! i = Some (Str "2"))
                     /\ (forall v, parseInt old = Some v -> - 2 ^ 53 <= v < 2 ^ 53 ->
                           newRow !! i
                           = Some (Str (string_of_Z ((if v =? 0 then 1 else v) + 1)))))
               /\ (header <> "最後修改時間" -> header <> "修訂版次" ->
                   (forall k, resolveKey (get data "eventType") header = Some k ->
                              get data k = Undefined) ->
                   newRow !! i = Some old)).
Proof.
  intros Hrun. cbv zeta. rewrite updateEventLog_run in Hrun. cbv zeta in Hrun.
  destruct (rowIndex_rejected rowIndex); [discriminate|].
  destruct (values_get B _ (ext w)) as [e|[[|[|c first] rest]|]]; try discriminate.
  destruct (values_update B _ _ (ext w)) as [e|s1]; [discriminate|].
  destruct (reader_invalidateCache B) as [f|]; [|discriminate].
  destruct (f "eventLogs" s1) as [e|s2]; [discriminate|].
  injection Hrun as <- <-.
  exists (c :: first), rest,
    (updateCells data (clock_iso B (ext w))
       (_getFieldsByType config (get data "eventType"))
       (padRow (length (_getFieldsByType config (get data "eventType")))
          (map Str (c :: first)))).
  split; [reflexivity|].
  split; [apply new_calls_app; reflexivity|].
  cbv zeta.
  split; [apply length_updateCells|].
  split; [intros i Hi; rewrite padRow_lookup_old by (rewrite length_map; exact Hi);
          apply lookup_map|].
  split; [intros i H1 H2; apply padRow_lookup_new; [rewrite length_map; exact H1 | exact H2]|].
  intros i header Hi.
  destruct (updateCells_lookup data (clock_iso B (ext w))
              (_getFieldsByType config (get data "eventType"))
              (padRow (length (_getFieldsByType config (get data "eventType")))
                      (map Str (c :: first))) i header) as (old & Hold & Hnew).
  { rewrite length_padRow. lia. }
  { exact Hi. }
  exists old. split; [exact Hold|].
  rewrite Hnew.
  split; [intros ->; reflexivity|].
  split.
  { intros ->.
    change (updateCell data (clock_iso B (ext w)) "修訂版次" old)
      with (Str (Number_toString (plus (currentVer old) 1))).
    split; [reflexivity|].
    split; [intros Hn; rewrite (revision_unread old Hn); reflexivity|].
    intros v Hv Hb. rewrite (revision_read old v Hv Hb). reflexivity. }
  unfold updateCell.
  intros H1 H2 Hk.
  label_cases; try contradiction.
  destruct (resolveKey _ _) as [k|]; [|reflexivity].
  rewrite (Hk k eq_refl). reflexivity.
Qed.

(** Claim C4, as amended.  updateEventLog fails with the invalid-rowIndex
    error, with no call made and the world as it was, exactly when its guard
    [isNaN(parseInt(rowIndex)) || rowIndex <= 1] holds.  The guard holds of
    every number that is at most 1, on a number up to 2^53 it is
    [rowIndex <= 1], and it holds of every value that parseInt does not read.
    On a string it holds exactly when parseInt reads no integer at the head
    of the string, or the string as a whole is a numeral whose Number is at
    most 1: -Infinity, or a fraction up to 1 + 2^-53, which rounds to a double
    that is at most 1; on the decimal numeral of an integer up to 2^53 it is
    the comparison of that integer with 1.  When the guard passes and the read answers
    with no values or with an empty first row, it fails with the not-found
    error after the read alone, the external state unchanged.  It issues a
    write exactly when the guard passes and the read answers with a first
    row that is not empty. *)
Theorem update_guard_and_missing_row rowIndex data modifier w :
  let headers := _getFieldsByType config (get data "eventType") in
  let range := rowRange (_getSheetNameByType config (get data "eventType")) rowIndex
                 (length headers) in
  let w' := (updateEventLog B config rowIndex data modifier w).1 in
  let r := (updateEventLog B config rowIndex data modifier w).2 in
  (rowIndex_rejected rowIndex = true ->
     w' = w /\ r = inl (InvalidRowIndex rowIndex))
  /\ (rowIndex_rejected rowIndex = false ->
      (values_get B range (ext w) = inr None
       \/ exists rest, values_get B range (ext w) = inr (Some ([] :: rest))) ->
      r = inl RowNotFound /\ new_calls w w' = [CValuesGet range] /\ ext w' = ext w)
  /\ ((exists c, c ∈ new_calls w w' /\ is_write c = true)
      <-> (rowIndex_rejected rowIndex = false
           /\ exists first rest, values_get B range (ext w) = inr (Some (first :: rest))
                                 /\ first <> []))
  /\ (forall z, rowIndex = Int z -> z <= 1 -> rowIndex_rejected rowIndex = true)
  /\ (forall z, rowIndex = Int z -> Z.abs z <= 2 ^ 53 ->
                rowIndex_rejected rowIndex = (z <=? 1))
  /\ (parseInt rowIndex = None -> rowIndex_rejected rowIndex = true)
  /\ (forall s, rowIndex = Str s ->
        (rowIndex_rejected rowIndex = true
         <-> parseInt_string s = None
             \/ StringToNumber s = NInf
             \/ exists q, StringToNumber s = Fin q
                          /\ (q <= 9007199254740993 # 9007199254740992)%Q))
  /\ (forall z, rowIndex = Str (string_of_Z z) -> Z.abs z <= 2 ^ 53 ->
                rowIndex_rejected rowIndex = (z <=? 1)).
Proof.
  cbv zeta. rewrite updateEventLog_run. cbv zeta.
  split; [intros ->; split; reflexivity|].
  split.
  { intros -> [Hg|[rest Hg]]; rewrite Hg; cbn [fst snd];
      (split; [reflexivity|]); (split; [apply new_calls_app; reflexivity | reflexivity]). }
  split;
    [|split; [intros z -> Hz; apply rowIndex_rejected_below; exact Hz
      |split; [intros z -> Hz; apply rowIndex_rejected_Int; exact Hz
      |split; [intros Hp; unfold rowIndex_rejected; rewrite Hp; reflexivity
      |split; [intros s ->; apply rowIndex_rejected_Str
              |intros z -> Hz; apply rowIndex_rejected_numeral; exact Hz]]]]].
  destruct (rowIndex_rejected rowIndex).
  { cbn [fst snd]. rewrite new_calls_nil. split.
    - intros (c & Hc & _). inversion Hc.
    - intros [H _]. discriminate. }
  destruct (values_get B _ (ext w)) as [e|[[|[|c first] rest]|]]; cbn [fst snd].
  1-3,5: split; [ intros (c0 & Hc & Hw);
               rewrite (new_calls_app w _ [CValuesGet _]) in Hc by reflexivity;
               apply list_elem_of_singleton in Hc; subst c0; discriminate
             | intros (_ & first0 & rest0 & Hg & Hne); congruence ].
  split; [intros _; split; [reflexivity|]; eexists _, _; split; [reflexivity | discriminate]|].
  intros _.
  assert (Hin : forall (w2 : world S) range newRow l,
             trace w2 = (trace w ++ CValuesGet range :: CValuesUpdate range newRow :: l)%list ->
             exists c0, c0 ∈ new_calls w w2 /\ is_write c0 = true).
  { intros w2 range newRow l Ht. exists (CValuesUpdate range newRow).
    rewrite (new_calls_app w w2 _ Ht). split; [|reflexivity].
    apply list_elem_of_further, list_elem_of_here. }
  destruct (values_update B _ _ (ext w)) as [e|s1].
  { eapply Hin. cbn. rewrite <- app_assoc. reflexivity. }
  destruct (reader_invalidateCache B) as [f|]; [|eapply Hin; reflexivity].
  destruct (f "eventLogs" s1) as [e|s2]; eapply Hin.
  - cbn. rewrite <- app_assoc. reflexivity.
  - reflexivity.
Qed.

End Update.

(** ** The service's update: resolution of the original record, and the move *)

Import EventLogService.

Lemma inputEventId_supplied data :
  inputEventId data = Null \/ truthy (inputEventId data) = true.
Proof.
  unfold inputEventId, or.
  destruct (truthy (get data "eventId")) eqn:E1; cbv iota.
  { right. rewrite E1. exact E1. }
  destruct (truthy (get data "id")) eqn:E2; cbv iota.
  { right. rewrite ?E2. first [exact E2 | reflexivity]. }
  left. reflexivity.
Qed.

Lemma find_None_elem {A} (f : A -> bool) (l : list A) :
  find f l = None -> forall x, x ∈ l -> f x = false.
Proof. intros H x Hx. apply (find_none f l H). apply list_elem_of_In. exact Hx. Qed.

Lemma find_None_intro {A} (f : A -> bool) (l : list A) :
  (forall x, x ∈ l -> f x = false) -> find f l = None.
Proof.
  induction l as [|a l IH]; intros H; [reflexivity|].
  cbn [find]. rewrite (H a) by apply list_elem_of_here.
  apply IH. intros x Hx. apply H. apply list_elem_of_further. exact Hx.
Qed.

Section ServiceUpdate.
Context {S : Type} (B : backend S) (config : config).

(** The service's updateEventLog, by the answer of the reader. *)
Lemma service_updateEventLog_run idOrRowIndex data modifier w :
  EventLogService.updateEventLog B config idOrRowIndex data modifier w =
    match reader_getEventLogs B (ext w) with
    | inl e => (log CGetEventLogs w, inl e)
    | inr refs =>
        let w1 := log CGetEventLogs w in
        let logs := map (deref (heap w)) refs in
        match resolveRowIndex logs idOrRowIndex with
        | inl e => (w1, inl e)
        | inr rowIndex =>
            match resolveOriginal logs idOrRowIndex data with
            | Some o =>
                if typeChanged (Some o) data then move B config o data modifier w1
                else updateEvent B config (Int rowIndex) data
                       (Some {[ "displayName" := modifier ]}) w1
            | None =>
                updateEvent B config (Int rowIndex) data
                  (Some {[ "displayName" := modifier ]}) w1
            end
        end
    end.
Proof.
  unfold EventLogService.updateEventLog, bind, getEventLogs, read_call, read_objs, settle.
  destruct (reader_getEventLogs B (ext w)) as [e|refs]; [reflexivity|].
  cbn [heap log].
  destruct (resolveRowIndex _ idOrRowIndex) as [e|z]; [reflexivity|].
  cbn [ret].
  destruct (resolveOriginal _ idOrRowIndex data) as [o|]; [|reflexivity].
  destruct (typeChanged (Some o) data); reflexivity.
Qed.

(** Claim C6.  When the payload supplies an id (eventId, or id) and a record
    of the list has that eventId, the original record is the first such
    record, whatever idOrRowIndex is.  When the payload supplies no id, or no
    record of the list has the supplied id, the fallback is taken: the
    original record is the first one whose rowIndex, as a Number, equals
    [Number(idOrRowIndex)] when that Number is an integer, and there is no
    original record when it is not an integer or no record has that
    rowIndex.  Conversely an original record was found by eventId, or no
    record of the list has the supplied id and it is the first one whose
    rowIndex equals the integer [Number(idOrRowIndex)].  The service's
    updateEventLog decides between move and update on the record so
    resolved. *)
Theorem eventId_match_before_rowIndex (logs : list obj) idOrRowIndex data :
  (forall l, inputEventId data <> Null ->
             find (fun l => strict_eq (get l "eventId") (inputEventId data)) logs = Some l ->
             resolveOriginal logs idOrRowIndex data = Some l)
  /\ ((inputEventId data = Null
       \/ forall l', l' ∈ logs -> get l' "eventId" <> inputEventId data) ->
      resolveOriginal logs idOrRowIndex data
      = if isInteger (NumberOf idOrRowIndex)
        then find (fun l => num_eq (NumberOf (get l "rowIndex")) (NumberOf idOrRowIndex))
               logs
        else None)
  /\ (forall l, resolveOriginal logs idOrRowIndex data = Some l ->
        (inputEventId data <> Null
         /\ find (fun l => strict_eq (get l "eventId") (inputEventId data)) logs = Some l)
        \/ ((inputEventId data <> Null ->
             forall l', l' ∈ logs -> get l' "eventId" <> inputEventId data)
            /\ isInteger (NumberOf idOrRowIndex) = true
            /\ find (fun l => num_eq (NumberOf (get l "rowIndex")) (NumberOf idOrRowIndex))
                    logs = Some l))
  /\ (forall modifier (w : world S) refs o rowIndex,
        reader_getEventLogs B (ext w) = inr refs ->
        logs = map (deref (heap w)) refs ->
        resolveOriginal logs idOrRowIndex data = Some o ->
        resolveRowIndex logs idOrRowIndex = inr rowIndex ->
        EventLogService.updateEventLog B config idOrRowIndex data modifier w
        = if typeChanged (Some o) data
          then move B config o data modifier (log CGetEventLogs w)
          else updateEvent B config (Int rowIndex) data
                 (Some {[ "displayName" := modifier ]}) (log CGetEventLogs w)).
Proof.
  split; [|split; [|split]].
  - intros l Hs Hf. unfold resolveOriginal.
    destruct (inputEventId_supplied data) as [Hn|Ht]; [contradiction|].
    rewrite Ht, Hf. reflexivity.
  - intros Hno. unfold resolveOriginal.
    destruct (inputEventId_supplied data) as [Hn|Ht].
    { rewrite Hn. reflexivity. }
    rewrite Ht.
    destruct Hno as [Hn|Hno]; [rewrite Hn in Ht; discriminate|].
    rewrite (find_None_intro (fun l => strict_eq (get l "eventId") (inputEventId data)) logs).
    + reflexivity.
    + intros l' Hl'. unfold strict_eq. apply bool_decide_eq_false_2. apply Hno. exact Hl'.
  - intros l Hr. unfold resolveOriginal in Hr.
    destruct (inputEventId_supplied data) as [Hn|Ht].
    + right. rewrite Hn in Hr. cbn [truthy] in Hr.
      split; [intros Hc; contradiction|].
      destruct (isInteger _); [split; [reflexivity | exact Hr] | discriminate].
    + rewrite Ht in Hr.
      assert (Hs : inputEventId data <> Null) by (intros E; rewrite E in Ht; discriminate).
      destruct (find _ logs) as [l0|] eqn:Hf.
      * left. injection Hr as <-. split; [exact Hs | reflexivity].
      * right. split.
        { intros _ l' Hl' E.
          pose proof (find_None_elem _ _ Hf l' Hl') as Hb. cbn in Hb.
          unfold strict_eq in Hb. rewrite bool_decide_eq_true_2 in Hb by exact E.
          discriminate. }
        destruct (isInteger _); [split; [reflexivity | exact Hr] | discriminate].
  - intros modifier w refs o rowIndex Hg -> Ho Hr.
    rewrite service_updateEventLog_run, Hg. cbv zeta. rewrite Hr, Ho. reflexivity.
Qed.

(** The service's own invalidation never fails. *)
Lemma _invalidateEventCacheSafe_total (w : world S) :
  (_invalidateEventCacheSafe B w).2 = inr tt.
Proof.
  unfold _invalidateEventCacheSafe, try_catch, write_call, ret.
  destruct (reader_invalidateCache B) as [f|].
  - destruct (f "eventLogs" (ext w)); reflexivity.
  - destruct (reader_resetCache B); reflexivity.
Qed.

(** A move that succeeds: the row of the original record is deleted from the
    sheet of its type, the row createEventLog builds from the payload is
    appended to the sheet of the new type, and the id returned is the one
    generated from the clock. *)
Lemma move_result original data modifier w w' res :
  move B config original data modifier w = (w', inr res) ->
  exists s1,
    base_deleteRow B (_getSheetNameByType config (get original "eventType"))
      (get original "rowIndex") (ext w) = inr s1
    /\ let eventId := "EVT" ++ string_of_Z (clock_ms B s1) in
       let payload := movePayload original data in
       let rowData := createRowData config payload modifier (clock_iso B s1) eventId in
       take 2 (new_calls w w')
       = [ CDeleteRow (_getSheetNameByType config (get original "eventType"))
             (get original "rowIndex");
           CValuesAppend (_getSheetNameByType config (get payload "eventType") ++ "!A:Z")
             rowData ]
       /\ res = <["moved" := Bool true]> {[ "success" := Bool true; "id" := Str eventId ]}.
Proof.
  unfold move, deleteEventLog, _deleteRow. unfold bind at 1. unfold bind at 1.
  unfold write_call at 1.
  destruct (base_deleteRow B _ _ (ext w)) as [e|s1]; [discriminate|].
  cbn [ret]. unfold bind at 1. rewrite createEventLog_run. cbv zeta. cbn [ext heap trace].
  destruct (values_append B _ _ s1) as [e|s2]; [discriminate|].
  destruct (reader_invalidateCache B) as [f|] eqn:Hf; [|discriminate].
  destruct (f "eventLogs" s2) as [e|s3] eqn:Hi; [discriminate|].
  unfold bind.
  pose proof (_invalidateEventCacheSafe_total
                (World s3 (heap w)
                   ((trace w ++ [CDeleteRow (_getSheetNameByType config (get original "eventType"))
                                   (get original "rowIndex")]) ++
                    [CValuesAppend
                       (_getSheetNameByType config (get (movePayload original data) "eventType")
                        ++ "!A:Z")
                       (createRowData config (movePayload original data) modifier
                          (clock_iso B s1) ("EVT" ++ string_of_Z (clock_ms B s1)));
                     CInvalidateCache "eventLogs"]))) as Hsafe.
  revert Hsafe.
  unfold _invalidateEventCacheSafe, try_catch, write_call. rewrite Hf. cbn [ext heap trace].
  destruct (f "eventLogs" s3) as [e|s4]; cbn [ret]; intros _ [= <- <-];
    (exists s1; split; [reflexivity|]; cbv zeta; split; [|reflexivity]);
    unfold new_calls; cbn [trace log]; rewrite <- !app_assoc, drop_app_length; reflexivity.
Qed.
End ServiceUpdate.

(** Claim C1: the code at a failing input.  The record EVT1 of type general
    at row 5 is updated with type iot.  The record is resolved by its id and
    the type differs, the row is deleted from the general sheet at row 5 and
    a row is appended to the IOT sheet; but the identity column of the new
    row and the id returned hold the id createEventLog generated from the
    clock, not EVT1. *)
Theorem move_stores_a_new_id :
  let B := stub_backend (sample_stub "3" (Some true) (inr [])) in
  let run :=
    EventLogService.updateEventLog B sample_config (Int 5) sample_move (Str "alice")
      sample_world in
  (fun o => get o "eventId") <$> resolveOriginal [sample_event] (Int 5) sample_move
    = Some (Str "EVT1")
  /\ typeChanged (Some sample_event) sample_move = true
  /\ (exists rest,
        trace run.1 = [ CGetEventLogs;
                        CDeleteRow "EventLogs_General" (Int 5);
                        CValuesAppend "EventLogs_IOT!A:Z" (Str "EVT1769162400000" :: rest);
                        CInvalidateCache "eventLogs";
                        CInvalidateCache "eventLogs" ])
  /\ EVENT_LOG_COMMON_FIELDS sample_config !! 0%nat = Some "事件ID"
  /\ get (movePayload sample_event sample_move) "eventId" = Str "EVT1"
  /\ returned "id" run = inr (Str "EVT1769162400000")
  /\ returned "moved" run = inr (Bool true).
Proof.
  cbv zeta. split; [vm_compute; reflexivity|]. split; [vm_compute; reflexivity|].
  split; [eexists; vm_compute; reflexivity|].
  repeat split; vm_compute; reflexivity.
Qed.

(** Claim C2: the code at a failing input.  In the same move the caller
    supplies no creation time and the payload handed to createEventLog
    carries the original one; the created-time column of the new row holds
    the time of the move all the same.  It also does when the caller
    supplies a creation time of its own. *)
Theorem move_resets_created_time :
  let B := stub_backend (sample_stub "3" (Some true) (inr [])) in
  let override := <["createdTime" := Str "2024-06-30T00:00:00.000Z"]> sample_move in
  let run :=
    EventLogService.updateEventLog B sample_config (Int 5) sample_move (Str "alice")
      sample_world in
  let run' :=
    EventLogService.updateEventLog B sample_config (Int 5) override (Str "alice")
      sample_world in
  EVENT_LOG_COMMON_FIELDS sample_config !! 5%nat = Some "建立時間"
  /\ clock_iso B (ext sample_world) = "2026-01-23T10:00:00.000Z"
  /\ get sample_move "createdTime" = Undefined
  /\ get sample_event "createdTime" = Str "2025-12-01T08:00:00.000Z"
  /\ get (movePayload sample_event sample_move) "createdTime" = Str "2025-12-01T08:00:00.000Z"
  /\ returned "moved" run = inr (Bool true)
  /\ written_cells 5 (trace run.1) = [Some (Str "2026-01-23T10:00:00.000Z")]
  /\ get (movePayload sample_event override) "createdTime" = Str "2024-06-30T00:00:00.000Z"
  /\ returned "moved" run' = inr (Bool true)
  /\ written_cells 5 (trace run'.1) = [Some (Str "2026-01-23T10:00:00.000Z")].
Proof. cbv zeta. repeat split; vm_compute; reflexivity. Qed.

(** Claim C9: the code at failing inputs.  With a reader whose
    invalidateCache throws, create, update and move each write their row
    (the journal of the external state holds it) and then fail with the
    error of the invalidation, because the writer calls invalidateCache
    outside any try.  With a reader that has no invalidateCache function the
    create fails with a TypeError after the append.  The service's own
    invalidation is safe on both readers. *)
Theorem invalidation_failure_fails_the_mutation :
  let throwing := stub_backend (sample_stub "3" (Some false) (inr [])) in
  let missing := stub_backend (sample_stub "3" None (inr [])) in
  let create B := createEvent B sample_config sample_move None sample_world in
  let update B := updateEvent B sample_config (Int 5) sample_update None sample_world in
  let move B :=
    EventLogService.updateEventLog B sample_config (Int 5) sample_move (Str "alice")
      sample_world in
  (written_cells 0 (ext (create throwing).1) = [Some (Str "EVT1769162400000")]
   /\ (create throwing).2 = inl (Rejected "invalidateCache"))
  /\ (written_cells 14 (ext (update throwing).1) = [Some (Str "4")]
      /\ (update throwing).2 = inl (Rejected "invalidateCache"))
  /\ (written_cells 0 (ext (move throwing).1) = [Some (Str "EVT1769162400000")]
      /\ (move throwing).2 = inl (Rejected "invalidateCache"))
  /\ (written_cells 0 (ext (create missing).1) = [Some (Str "EVT1769162400000")]
      /\ (create missing).2 = inl TypeError)
  /\ (_invalidateEventCacheSafe throwing sample_world).2 = inr tt
  /\ (_invalidateEventCacheSafe missing sample_world).2 = inr tt.
Proof. cbv zeta. repeat split; vm_compute; reflexivity. Qed.

(** ** Reads: copies, enrichment and failures *)

Lemma Map_get_find entries k :
  Map_get entries k =
    match find (fun '(k', _) => strict_eq k' k) (rev entries) with
    | Some (_, v) => v
    | None => Undefined
    end.
Proof.
  unfold Map_get. rewrite <- fold_left_rev_right.
  induction (rev entries) as [|[k' v] l IH]; [reflexivity|].
  cbn [fold_right find]. destruct (strict_eq k' k); [reflexivity | exact IH].
Qed.

Lemma or_Map_get entries id :
  truthy id = true -> or (Map_get entries id) id = displayName entries id.
Proof.
  intros Hid. unfold or, displayName. rewrite Map_get_find.
  destruct (find _ (rev entries)) as [[k v]|]; [reflexivity|].
  reflexivity.
Qed.

Lemma get_insert_eq (o : obj) k v : get (<[k := v]> o) k = v.
Proof. unfold get. rewrite lookup_insert_eq. reflexivity. Qed.

Lemma get_insert_ne (o : obj) k k' v : k <> k' -> get (<[k := v]> o) k' = get o k'.
Proof. intros H. unfold get. rewrite lookup_insert_ne by exact H. reflexivity. Qed.

Lemma lookup_aliased_ne (o : obj) k : k <> "id" -> aliased o !! k = o !! k.
Proof.
  intros H. unfold aliased. destruct (_ && _); [|reflexivity].
  apply lookup_insert_ne. congruence.
Qed.

Lemma lookup_attached_ne k name entries (o : obj) k' :
  k' <> name -> attached k name entries o !! k' = o !! k'.
Proof.
  intros H. unfold attached. destruct (truthy _); [|reflexivity].
  apply lookup_insert_ne. congruence.
Qed.

Lemma get_aliased_ne o k : k <> "id" -> get (aliased o) k = get o k.
Proof. intros H. unfold get. rewrite lookup_aliased_ne by exact H. reflexivity. Qed.

Lemma get_attached_ne k name entries o k' :
  k' <> name -> get (attached k name entries o) k' = get o k'.
Proof. intros H. unfold get. rewrite lookup_attached_ne by exact H. reflexivity. Qed.

Lemma attached_display k name entries o :
  if truthy (get o k)
  then get (attached k name entries o) name = displayName entries (get o k)
  else attached k name entries o = o.
Proof.
  unfold attached. destruct (truthy (get o k)) eqn:E; [|reflexivity].
  rewrite get_insert_eq. apply or_Map_get. exact E.
Qed.

Lemma enriched_is_copy oppMap compMap o :
  enriched_copy oppMap compMap o (enriched oppMap compMap o).
Proof.
  unfold enriched_copy, enriched.
  split; [|split; [|split]].
  - intros k H1 H2 H3.
    rewrite !lookup_attached_ne, lookup_aliased_ne by assumption. reflexivity.
  - rewrite !get_attached_ne by discriminate.
    unfold aliased. destruct (_ && _); [apply get_insert_eq | reflexivity].
  - pose proof (attached_display "opportunityId" "opportunityName" oppMap (aliased o)) as H.
    rewrite get_aliased_ne in H by discriminate.
    destruct (truthy (get o "opportunityId")).
    + rewrite get_attached_ne by discriminate. exact H.
    + rewrite lookup_attached_ne by discriminate. rewrite H.
      apply lookup_aliased_ne. discriminate.
  - pose proof (attached_display "companyId" "companyName" compMap
                  (attached "opportunityId" "opportunityName" oppMap (aliased o))) as H.
    rewrite get_attached_ne, get_aliased_ne in H by discriminate.
    destruct (truthy (get o "companyId")).
    + exact H.
    + rewrite H, lookup_attached_ne, lookup_aliased_ne by discriminate. reflexivity.
Qed.


Section Heap.
Context {S : Type} (B : backend S).

Lemma deref_insert_eq (h : heap_t) l o : deref (<[l := o]> h) l = o.
Proof. unfold deref. rewrite lookup_insert_eq. reflexivity. Qed.

Lemma aliasId_run e o (w : world S) :
  heap w !! e = Some o ->
  aliasId e w = (World (ext w) (<[e := aliased o]> (heap w)) (trace w), inr tt).
Proof.
  intros He. unfold aliasId, bind, read_obj, deref, aliased, set_prop, ret.
  rewrite He. cbn [default].
  destruct (_ && _).
  - unfold deref. rewrite He. reflexivity.
  - rewrite insert_id by exact He. destruct w; reflexivity.
Qed.

Lemma attachName_run e k name entries o (w : world S) :
  heap w !! e = Some o ->
  attachName e k name entries w
  = (World (ext w) (<[e := attached k name entries o]> (heap w)) (trace w), inr tt).
Proof.
  intros He. unfold attachName, bind, read_obj, deref, attached, set_prop, ret.
  rewrite He. cbn [default].
  destruct (truthy _).
  - unfold deref. rewrite He. reflexivity.
  - rewrite insert_id by exact He. destruct w; reflexivity.
Qed.

Lemma enrich_run oppMap compMap raw (w : world S) :
  enrich oppMap compMap raw w
  = (World (ext w)
       (<[fresh (dom (heap w)) := enriched oppMap compMap (deref (heap w) raw)]> (heap w))
       (trace w),
     inr (fresh (dom (heap w)))).
Proof.
  unfold enrich, bind at 1, read_obj. unfold bind at 1, alloc.
  unfold bind at 1. erewrite aliasId_run by (cbn [heap]; apply lookup_insert_eq).
  unfold bind at 1. erewrite attachName_run by (cbn [heap]; apply lookup_insert_eq).
  unfold bind at 1. erewrite attachName_run by (cbn [heap]; apply lookup_insert_eq).
  cbn [ext heap trace ret]. rewrite !insert_insert_eq. reflexivity.
Qed.

Lemma mapM_enrich_run oppMap compMap events : forall w : world S,
  mapM (enrich oppMap compMap) events w
  = (World (ext w) (enrich_all oppMap compMap events (heap w)).1 (trace w),
     inr (enrich_all oppMap compMap events (heap w)).2).
Proof.
  induction events as [|raw events IH]; intros w.
  - destruct w; reflexivity.
  - cbn [mapM enrich_all]. unfold bind at 1. rewrite enrich_run.
    unfold bind at 1. rewrite IH. cbn [ext heap trace ret].
    destruct (enrich_all _ _ events _) as [h' es]. reflexivity.
Qed.

(** The heap after [enrich_all]: the old objects are as they were, the
    copies are new, distinct, and hold the enriched records. *)
Lemma enrich_all_spec oppMap compMap events : forall h : heap_t,
  let h' := (enrich_all oppMap compMap events h).1 in
  let es := (enrich_all oppMap compMap events h).2 in
  (forall l, l ∈ dom h -> h' !! l = h !! l)
  /\ NoDup es
  /\ (forall e, e ∈ es -> (e ∉ dom h) /\ (e ∈ dom h'))
  /\ Forall2 (fun raw e => raw ∈ dom h ->
                h' !! e = Some (enriched oppMap compMap (deref h raw))) events es.
Proof.
  induction events as [|raw events IH]; intros h; cbn [enrich_all].
  - cbn. repeat split; [constructor | inversion H | inversion H | constructor].
  - set (e := fresh (dom h)).
    set (h1 := <[e := enriched oppMap compMap (deref h raw)]> h).
    specialize (IH h1). cbv zeta in IH.
    destruct (enrich_all oppMap compMap events h1) as [h' es]. cbn [fst snd] in *.
    destruct IH as (Hframe & Hnd & Hes & Hall).
    assert (Hfresh : e ∉ dom h) by apply is_fresh.
    assert (Hsub : forall l, l ∈ dom h -> l ∈ dom h1).
    { intros l Hl. unfold h1. rewrite dom_insert_L. apply elem_of_union_r, Hl. }
    assert (He1 : e ∈ dom h1).
    { unfold h1. rewrite dom_insert_L. apply elem_of_union_l, elem_of_singleton. reflexivity. }
    assert (Hold : forall l, l ∈ dom h -> h1 !! l = h !! l).
    { intros l Hl. unfold h1. apply lookup_insert_ne. intros ->. contradiction. }
    split; [|split; [|split]].
    + intros l Hl. rewrite Hframe by auto. apply Hold. exact Hl.
    + constructor; [|exact Hnd]. intros Hin. destruct (Hes e Hin) as [Hn _]. contradiction.
    + intros e' He'. apply elem_of_cons in He' as [->|He'].
      * split; [exact Hfresh|]. apply elem_of_dom. rewrite Hframe by exact He1.
        unfold h1. rewrite lookup_insert_eq. eauto.
      * destruct (Hes e' He') as [Hn Hd]. split; [|exact Hd].
        intros Hc. apply Hn, Hsub, Hc.
    + constructor.
      * intros _. rewrite Hframe by exact He1. unfold h1. apply lookup_insert_eq.
      * eapply Forall2_impl; [exact Hall|].
        intros raw' e' Himp Hraw'. cbn in Himp.
        rewrite Himp by (apply Hsub, Hraw'). do 2 f_equal.
        unfold deref. rewrite Hold by exact Hraw'. reflexivity.
Qed.

(** getAllEvents, by the answers of the three fetches. *)
Lemma getAllEvents_run (w : world S) :
  let t := (trace w ++ [CGetEventLogs; CGetOpportunities; CGetCompanyList])%list in
  getAllEvents B w =
    match reader_getEventLogs B (ext w), opp_getOpportunities B (ext w),
          company_getCompanyList B (ext w) with
    | inr events, inr opps, inr comps =>
        let r := enrich_all (oppEntries opps) (compEntries comps) events (heap w) in
        (World (ext w) r.1 t, inr r.2)
    | _, _, _ => (World (ext w) (heap w) t, inr [])
    end.
Proof.
  cbv zeta.
  unfold getAllEvents, try_catch, bind, attempt, getEventLogs, getOpportunities,
    getCompanyList, read_call, log, settle.
  cbn [ext heap trace].
  rewrite <- !app_assoc. cbn [app].
  destruct (reader_getEventLogs B (ext w)) as [e1|events];
    destruct (opp_getOpportunities B (ext w)) as [e2|opps];
    destruct (company_getCompanyList B (ext w)) as [e3|comps];
    cbn [throw ret]; try reflexivity.
  rewrite mapM_enrich_run. reflexivity.
Qed.

(** getEventById, by the answers of the fetches. *)
Lemma getEventById_run eventId (w : world S) :
  let t1 := (trace w ++ [CGetEventLogById eventId])%list in
  let t3 := (trace w ++ [CGetEventLogById eventId; CGetOpportunities; CGetCompanyList])%list in
  getEventById B eventId w =
    match reader_getEventLogById B eventId (ext w) with
    | inl _ | inr None => (World (ext w) (heap w) t1, inr None)
    | inr (Some raw) =>
        let e := fresh (dom (heap w)) in
        let o := aliased (deref (heap w) raw) in
        match opp_getOpportunities B (ext w), company_getCompanyList B (ext w) with
        | inr opps, inr comps =>
            (World (ext w)
               (<[e := attached "companyId" "companyName" (compEntries comps)
                         (attached "opportunityId" "opportunityName" (oppEntries opps) o)]>
                  (heap w)) t3,
             inr (Some e))
        | _, _ => (World (ext w) (<[e := o]> (heap w)) t3, inr (Some e))
        end
    end.
Proof.
  cbv zeta.
  unfold getEventById, try_catch at 1, bind at 1, read_call, log. cbn [ext heap trace].
  destruct (reader_getEventLogById B eventId (ext w)) as [e0|[raw|]]; try reflexivity.
  unfold bind at 1, read_obj. unfold bind at 1, alloc. cbn [ext heap trace].
  unfold bind at 1. erewrite aliasId_run by (cbn [heap]; apply lookup_insert_eq).
  cbn [ext heap trace]. rewrite insert_insert_eq.
  unfold bind at 1, try_catch, bind at 1, attempt, getOpportunities, getCompanyList,
    read_call, log, settle.
  cbn [ext heap trace]. rewrite <- !app_assoc. cbn [app].
  unfold bind at 1. cbn [ext heap trace]. rewrite <- !app_assoc. cbn [app].
  destruct (opp_getOpportunities B (ext w)) as [e2|opps];
    destruct (company_getCompanyList B (ext w)) as [e3|comps];
    cbn [throw ret bind]; try reflexivity.
  unfold bind. cbn [throw ret].
  erewrite attachName_run by (cbn [heap]; apply lookup_insert_eq).
  erewrite attachName_run by (cbn [heap]; apply lookup_insert_eq).
  cbn [ext heap trace]. rewrite !insert_insert_eq. reflexivity.
Qed.
End Heap.


Section Reads.
Context {S : Type} (B : backend S).

(** Claim C8, as amended.  getAllEvents and getEventById leave every object
    that was in the heap before the call as it was (the cached records are
    not enriched); the references they return are new, distinct from one
    another and from those of a second call, and each holds a shallow copy
    of its cached record: every property but id, opportunityName and
    companyName is the record's, id is the record's eventId when the record
    has no id, and, when the record has an opportunityId (companyId), the
    display name is the name of the last collaborator with that id when that
    name is truthy, and the raw id otherwise. *)
Theorem reads_return_enriched_copies (w : world S) :
  let all := getAllEvents B w in
  (* the bulk read *)
  (forall l, l ∈ dom (heap w) -> heap all.1 !! l = heap w !! l)
  /\ (exists es,
        all.2 = inr es
        /\ NoDup es
        /\ (forall e, e ∈ es -> (e ∉ dom (heap w)) /\ (e ∈ dom (heap all.1)))
        /\ (forall events opps comps,
              reader_getEventLogs B (ext w) = inr events ->
              opp_getOpportunities B (ext w) = inr opps ->
              company_getCompanyList B (ext w) = inr comps ->
              Forall2 (fun raw e =>
                         raw ∈ dom (heap w) ->
                         enriched_copy (oppEntries opps) (compEntries comps)
                           (deref (heap w) raw) (deref (heap all.1) e))
                      events es)
        /\ (forall es2, (getAllEvents B all.1).2 = inr es2 ->
                        forall e, e ∈ es -> e ∉ es2))
  (* the read by id *)
  /\ (forall eventId,
        let one := getEventById B eventId w in
        (forall l, l ∈ dom (heap w) -> heap one.1 !! l = heap w !! l)
        /\ (forall e, one.2 = inr (Some e) ->
              (e ∉ dom (heap w)) /\ (e ∈ dom (heap one.1))
              /\ (forall e2, (getEventById B eventId one.1).2 = inr (Some e2) -> e2 <> e)
              /\ (forall raw opps comps,
                    reader_getEventLogById B eventId (ext w) = inr (Some raw) ->
                    opp_getOpportunities B (ext w) = inr opps ->
                    company_getCompanyList B (ext w) = inr comps ->
                    enriched_copy (oppEntries opps) (compEntries comps)
                      (deref (heap w) raw) (deref (heap one.1) e)))).
Proof.
  cbv zeta. split; [|split].
  - (* frame of the bulk read *)
    rewrite getAllEvents_run. cbv zeta.
    destruct (reader_getEventLogs B (ext w)) as [?|events];
      destruct (opp_getOpportunities B (ext w)) as [?|opps];
      destruct (company_getCompanyList B (ext w)) as [?|comps];
      cbn [fst snd heap]; try (intros; reflexivity).
    apply enrich_all_spec.
  - assert (Hfresh : forall w0 : world S, exists es,
               (getAllEvents B w0).2 = inr es
               /\ NoDup es
               /\ (forall e, e ∈ es -> (e ∉ dom (heap w0)) /\ (e ∈ dom (heap (getAllEvents B w0).1)))
               /\ (forall events opps comps,
                     reader_getEventLogs B (ext w0) = inr events ->
                     opp_getOpportunities B (ext w0) = inr opps ->
                     company_getCompanyList B (ext w0) = inr comps ->
                     Forall2 (fun raw e =>
                                raw ∈ dom (heap w0) ->
                                enriched_copy (oppEntries opps) (compEntries comps)
                                  (deref (heap w0) raw)
                                  (deref (heap (getAllEvents B w0).1) e))
                             events es)).
    { intros w0. rewrite getAllEvents_run. cbv zeta.
      destruct (reader_getEventLogs B (ext w0)) as [?|events];
        destruct (opp_getOpportunities B (ext w0)) as [?|opps];
        destruct (company_getCompanyList B (ext w0)) as [?|comps];
        cbn [fst snd heap];
        try (exists []; split; [reflexivity|]; split; [constructor|];
             split; [intros ? He; inversion He | intros; discriminate]).
      destruct (enrich_all_spec (oppEntries opps) (compEntries comps) events (heap w0))
        as (_ & Hnd & Hes & Hall).
      eexists; split; [reflexivity|]. split; [exact Hnd|]. split; [exact Hes|].
      intros events' opps' comps' [= <-] [= <-] [= <-].
      eapply Forall2_impl; [exact Hall|].
      intros raw e Himp Hraw. cbn in Himp. unfold deref at 2.
      rewrite Himp by exact Hraw. apply enriched_is_copy. }
    destruct (Hfresh w) as (es & Hr & Hnd & Hes & Hall).
    exists es. repeat (split; [assumption|]).
    intros es2 Hr2 e He Hin.
    destruct (Hfresh (getAllEvents B w).1) as (es2' & Hr2' & _ & Hes2 & _).
    rewrite Hr2 in Hr2'. injection Hr2' as <-.
    destruct (Hes2 e Hin) as [Hn _]. destruct (Hes e He) as [_ Hd]. contradiction.
  - intros eventId.
    assert (Hone : forall w0 : world S,
               (forall l, l ∈ dom (heap w0) ->
                          heap (getEventById B eventId w0).1 !! l = heap w0 !! l)
               /\ (forall e, (getEventById B eventId w0).2 = inr (Some e) ->
                     (e ∉ dom (heap w0)) /\ (e ∈ dom (heap (getEventById B eventId w0).1))
                     /\ (forall raw opps comps,
                           reader_getEventLogById B eventId (ext w0) = inr (Some raw) ->
                           opp_getOpportunities B (ext w0) = inr opps ->
                           company_getCompanyList B (ext w0) = inr comps ->
                           enriched_copy (oppEntries opps) (compEntries comps)
                             (deref (heap w0) raw)
                             (deref (heap (getEventById B eventId w0).1) e)))).
    { intros w0. rewrite getEventById_run. cbv zeta.
      pose proof (is_fresh (dom (heap w0))) as Hf.
      destruct (reader_getEventLogById B eventId (ext w0)) as [?|[raw|]];
        cbn [fst snd heap]; try (split; [reflexivity | discriminate]).
      destruct (opp_getOpportunities B (ext w0)) as [?|opps];
        [|destruct (company_getCompanyList B (ext w0)) as [?|comps]];
        cbn [fst snd heap];
        (split;
         [ intros l Hl; apply lookup_insert_ne; intros <-; contradiction
         | intros ? [= <-]; split; [exact Hf|];
           split; [rewrite dom_insert_L; apply elem_of_union_l, elem_of_singleton; reflexivity|];
           intros raw' opps' comps' [= <-] Ho Hc; try discriminate ]).
      injection Ho as <-. injection Hc as <-.
      rewrite deref_insert_eq. apply enriched_is_copy. }
    destruct (Hone w) as [Hframe Hcopy].
    split; [exact Hframe|].
    intros e He. destruct (Hcopy e He) as (Hn & Hd & Hc).
    split; [exact Hn|]. split; [exact Hd|]. split; [|exact Hc].
    intros e2 He2 ->.
    destruct (Hone (getEventById B eventId w).1) as [_ Hcopy2].
    destruct (Hcopy2 e He2) as (Hn2 & _). contradiction.
Qed.




(** Claim C10, as amended.  The read operations return a value and never an
    error.  getAllEvents returns the empty list when any of its three fetches
    fails.  getEventById returns null when the fetch of the record fails;
    when the record is fetched and a join-source fetch fails, it returns a new
    reference, not one of the heap before the call, that holds the shallow
    copy of the record with the id alias and no display name, and the objects
    of the heap before the call are as they were.  getEventTypes returns a
    list. *)
Theorem reads_do_not_fail (w : world S) :
  (exists es,
     (getAllEvents B w).2 = inr es
     /\ ((exists e, reader_getEventLogs B (ext w) = inl e
                    \/ opp_getOpportunities B (ext w) = inl e
                    \/ company_getCompanyList B (ext w) = inl e) ->
         es = []))
  /\ (forall eventId,
        let one := getEventById B eventId w in
        exists r,
          one.2 = inr r
          /\ ((exists e, reader_getEventLogById B eventId (ext w) = inl e) -> r = None)
          /\ (forall raw,
                reader_getEventLogById B eventId (ext w) = inr (Some raw) ->
                (exists e, opp_getOpportunities B (ext w) = inl e
                           \/ company_getCompanyList B (ext w) = inl e) ->
                let copy := fresh (dom (heap w)) in
                r = Some copy
                /\ (copy ∉ dom (heap w))
                /\ heap one.1 !! copy = Some (aliased (deref (heap w) raw))
                /\ (forall l, l ∈ dom (heap w) -> heap one.1 !! l = heap w !! l)))
  /\ (exists types, (getEventTypes B w).2 = inr types).
Proof.
  split; [|split].
  - rewrite getAllEvents_run. cbv zeta.
    destruct (reader_getEventLogs B (ext w)) as [?|events];
      destruct (opp_getOpportunities B (ext w)) as [?|opps];
      destruct (company_getCompanyList B (ext w)) as [?|comps];
      cbn [fst snd]; eexists; (split; [reflexivity|]); try (intros; reflexivity).
    intros (e & [H|[H|H]]); discriminate.
  - intros eventId. cbv zeta. rewrite getEventById_run. cbv zeta.
    pose proof (is_fresh (dom (heap w))) as Hf.
    destruct (reader_getEventLogById B eventId (ext w)) as [?|[raw|]];
      cbn [fst snd heap].
    + eexists; split; [reflexivity|]. split; [reflexivity | intros; discriminate].
    + destruct (opp_getOpportunities B (ext w)) as [?|opps];
        [|destruct (company_getCompanyList B (ext w)) as [?|comps]];
        cbn [fst snd heap]; (eexists; split; [reflexivity|]);
        (split; [intros (? & ?); discriminate|]);
        intros raw' [= <-] (e' & [H|H]); try discriminate;
        (split; [reflexivity|]); (split; [exact Hf|]);
        (split; [apply lookup_insert_eq|]);
        intros l Hl; apply lookup_insert_ne; intros <-; contradiction.
    + eexists; split; [reflexivity|]. split; [reflexivity | intros; discriminate].
  - unfold getEventTypes, try_catch, bind, read_call, ret.
    destruct (system_eventTypes B (ext w)); eexists; reflexivity.
Qed.
End Reads.


(** ** Where the specification's wording and the code part *)

(** Claim C3 as stated fails: a revision cell that holds 0 parses to 0, the
    specification's rule gives 1, and updateEventLog writes 2. *)
Lemma revision_zero_counterexample :
  let B := stub_backend (sample_stub "0" (Some true) (inr [])) in
  let run :=
    EventLogWriter.updateEventLog B sample_config (Int 5) sample_update (Str "alice")
      sample_world in
  EVENT_LOG_COMMON_FIELDS sample_config !! 14%nat = Some "修訂版次"
  /\ sample_row "0" !! 14%nat = Some "0"
  /\ parseInt (Str "0") = Some 0
  /\ spec_revision (Str "0") = Str "1"
  /\ returned "success" run = inr (Bool true)
  /\ written_cells 14 (trace run.1) = [Some (Str "2")].
Proof. cbv zeta. repeat split; vm_compute; reflexivity. Qed.

(** Claim C4 as stated fails: the rowIndex 2abc is not a positive integer
    greater than 1, yet updateEventLog does not fail with the invalid-rowIndex
    error and issues the read. *)
Lemma rowIndex_prefix_counterexample :
  let B := stub_backend (sample_stub "3" (Some true) (inr [])) in
  let run :=
    EventLogWriter.updateEventLog B sample_config (Str "2abc") sample_update (Str "alice")
      sample_world in
  spec_valid_rowIndex (Str "2abc") = false
  /\ run.2 <> inl (InvalidRowIndex (Str "2abc"))
  /\ trace run.1 = [CValuesGet "EventLogs_General!A2abc:O2abc"].
Proof.
  cbv zeta.
  assert (H : (EventLogWriter.updateEventLog
                 (stub_backend (sample_stub "3" (Some true) (inr [])))
                 sample_config (Str "2abc") sample_update (Str "alice") sample_world).2
              = inl RowNotFound) by (vm_compute; reflexivity).
  split; [vm_compute; reflexivity|]. split; [rewrite H; discriminate|].
  vm_compute; reflexivity.
Qed.

(** Claim C8 as stated fails: the opportunity O1 matches and its name is the
    empty string, so the display name should be that name; getAllEvents
    attaches the raw id. *)
Lemma empty_name_counterexample :
  let opps : list obj := [ {[ "opportunityId" := Str "O1"; "opportunityName" := Str "" ]} ] in
  let B := stub_backend (sample_stub "3" (Some true) (inr opps)) in
  get sample_event "opportunityId" = Str "O1"
  /\ spec_displayName (oppEntries opps) (Str "O1") = Str ""
  /\ displayed "opportunityName" (getAllEvents B sample_world) = inr [Str "O1"].
Proof. cbv zeta. repeat split; vm_compute; reflexivity. Qed.

(** Claim C10 as stated fails: when the opportunities cannot be fetched,
    getEventById does not return the raw record of the reader (reference 1)
    but a copy of it (reference 2). *)
Lemma join_failure_counterexample :
  let B := stub_backend (sample_stub "3" (Some true) (inl (Rejected "getOpportunities"))) in
  reader_getEventLogById B (Str "EVT1") (ext sample_world) = inr (Some 1%positive)
  /\ (getEventById B (Str "EVT1") sample_world).2 = inr (Some 2%positive)
  /\ (getEventById B (Str "EVT1") sample_world).2 <> inr (Some 1%positive).
Proof.
  cbv zeta. split; [reflexivity|].
  assert (H : (getEventById (stub_backend (sample_stub "3" (Some true)
                 (inl (Rejected "getOpportunities")))) (Str "EVT1") sample_world).2
              = inr (Some 2%positive)) by (vm_compute; reflexivity).
  split; [exact H|]. rewrite H. discriminate.
Qed.

(** ** The properties at concrete inputs *)

(** A type that is neither iot nor dt takes the generic key of the
    device-scale label; another label takes its generic key. *)
Lemma label_resolution_witness :
  resolveKey (Str "dx") "設備規模" = Some "iot_deviceScale"
  /\ resolveKey (Str "dt") "加工類型" = Some "dt_processingType".
Proof.
  destruct label_resolution as (_ & _ & H3 & H4 & _).
  split.
  - rewrite H3 by discriminate. vm_compute. reflexivity.
  - rewrite H4 by discriminate. vm_compute. reflexivity.
Defined.

(** A create on the test double: the row is appended, the cache invalidated
    and the generated id returned. *)
Lemma create_witness :
  returned "id" sample_create_run = inr (Str "EVT1769162400000")
  /\ returned "success" sample_create_run = inr (Bool true)
  /\ written_cells 0 (trace sample_create_run.1) = [Some (Str "EVT1769162400000")]
  /\ written_cells 14 (trace sample_create_run.1) = [Some (Str "1")].
Proof.
  unfold sample_create_run.
  rewrite (proj2 (proj2 (proj2
             (create_builds_row_and_returns_id sample_backend sample_config sample_move
                (Str "alice") sample_world)))
             _ _ _ eq_refl eq_refl eq_refl).
  repeat split; vm_compute; reflexivity.
Defined.

(** A partial update on the test double: the creator is kept, the revision
    goes from 3 to 4 and the modified time is the current time. *)
Lemma partial_update_witness :
  sample_update_run.2 = inr {[ "success" := Bool true ]}
  /\ exists newRow,
       new_calls sample_world sample_update_run.1
       = [ CValuesGet "EventLogs_General!A5:O5";
           CValuesUpdate "EventLogs_General!A5:O5" newRow;
           CInvalidateCache "eventLogs" ]
       /\ newRow !! 4%nat = Some (Str "bob")
       /\ newRow !! 6%nat = Some (Str "2026-01-23T10:00:00.000Z")
       /\ newRow !! 14%nat = Some (Str "4").
Proof.
  assert (Hrun : sample_update_run.2 = inr {[ "success" := Bool true ]}) by reflexivity.
  split; [exact Hrun|].
  destruct (partial_update_keeps_unsupplied_fields sample_backend sample_config (Int 5)
              sample_update (Str "alice") sample_world sample_update_run.1 _
              (run_eq sample_update_run _ Hrun))
    as (first & rest & newRow & Hget & Hcalls & _ & _ & _ & Hcols).
  vm_compute in Hget. injection Hget as <- <-.
  exists newRow. split; [exact Hcalls|].
  split; [|split].
  - destruct (Hcols 4%nat "建立者") as (old & Hold & _ & _ & Hkeep);
      [vm_compute; reflexivity|].
    vm_compute in Hold. injection Hold as <-.
    apply Hkeep; [discriminate | discriminate |].
    intros k Hk. vm_compute in Hk. injection Hk as <-. vm_compute. reflexivity.
  - destruct (Hcols 6%nat "最後修改時間") as (old & _ & Hnow & _);
      [vm_compute; reflexivity|].
    exact (Hnow eq_refl).
  - destruct (Hcols 14%nat "修訂版次") as (old & Hold & _ & Hrev & _);
      [vm_compute; reflexivity|].
    vm_compute in Hold. injection Hold as <-.
    exact (proj1 (Hrev eq_refl)).
Defined.

(** The guard and the write on the test double: row 1 is refused with no
    call, row 5 is written. *)
Lemma update_guard_witness :
  ((EventLogWriter.updateEventLog sample_backend sample_config (Int 1) sample_update
      (Str "alice") sample_world).1 = sample_world
   /\ (EventLogWriter.updateEventLog sample_backend sample_config (Int 1) sample_update
         (Str "alice") sample_world).2 = inl (InvalidRowIndex (Int 1)))
  /\ exists c, c ∈ new_calls sample_world sample_update_run.1 /\ is_write c = true.
Proof.
  split.
  - exact (proj1 (update_guard_and_missing_row sample_backend sample_config (Int 1)
                    sample_update (Str "alice") sample_world) eq_refl).
  - apply (proj1 (proj2 (proj2 (update_guard_and_missing_row sample_backend sample_config
                                  (Int 5) sample_update (Str "alice") sample_world)))).
    split; [reflexivity|].
    exists (sample_row "3"), []. split; [vm_compute; reflexivity | discriminate].
Defined.

(** Two records, an id that is the first one's and a row index that is the
    second one's: the first record is the original. *)
Lemma eventId_match_witness :
  resolveOriginal [sample_event; sample_other_event] (Int 7) sample_move = Some sample_event.
Proof.
  apply (proj1 (eventId_match_before_rowIndex sample_backend sample_config
                  [sample_event; sample_other_event] (Int 7) sample_move)).
  - vm_compute. discriminate.
  - assert (Hf : strict_eq (get sample_event "eventId") (inputEventId sample_move) = true)
      by (vm_compute; reflexivity).
    cbn [find]. rewrite Hf. reflexivity.
Defined.

(** The cached record of the test double is as it was after a bulk read. *)
Lemma reads_copies_witness :
  heap (getAllEvents (stub_backend (sample_stub "3" (Some true) (inr sample_opps)))
          sample_world).1 !! 1%positive
  = heap sample_world !! 1%positive.
Proof.
  apply (proj1 (reads_return_enriched_copies
                  (stub_backend (sample_stub "3" (Some true) (inr sample_opps)))
                  sample_world)).
  apply elem_of_dom. exists sample_event. apply lookup_singleton_eq.
Defined.

(** The bulk read of the test double answers the empty list when the
    opportunities cannot be fetched. *)
Lemma reads_do_not_fail_witness :
  (getAllEvents (stub_backend (sample_stub "3" (Some true)
                                 (inl (Rejected "getOpportunities"))))
     sample_world).2 = inr [].
Proof.
  destruct (proj1 (reads_do_not_fail
                     (stub_backend (sample_stub "3" (Some true)
                                      (inl (Rejected "getOpportunities"))))
                     sample_world)) as (es & Hr & Hempty).
  rewrite Hr. f_equal. apply Hempty.
  exists (Rejected "getOpportunities"). right. left. reflexivity.
Defined.

(** ** Beyond the claims: the mutations of the service and of the writer *)

Lemma as_integer_of_Z z : as_integer (of_Z z) = Some z.
Proof.
  unfold as_integer, of_Z, inject_Z, Qred. cbn [Qnum Qden].
  pose proof (Z.ggcd_gcd z 1) as Hg.
  pose proof (Z.ggcd_correct_divisors z 1) as Hd.
  destruct (Z.ggcd z 1) as [g [aa bb]]. cbn [fst snd] in *.
  rewrite Z.gcd_1_r in Hg. subst g. destruct Hd as [Ha Hb].
  rewrite Z.mul_1_l in Ha, Hb. subst aa bb. reflexivity.
Qed.

Lemma elem_of_new_calls {S} (w w' : world S) (cs : list call) c :
  trace w' = (trace w ++ cs)%list -> c ∈ new_calls w w' <-> c ∈ cs.
Proof. intros H. rewrite (new_calls_app w w' cs H). reflexivity. Qed.

Section Mutations.
Context {S : Type} (B : backend S) (config : config).

(** The service's own invalidation: at most one call, on the cache, and no
    failure. *)
Lemma _invalidateEventCacheSafe_run (w : world S) :
  exists s cs,
    _invalidateEventCacheSafe B w = (World s (heap w) (trace w ++ cs), inr tt)
    /\ Forall (fun c => is_invalidation c = true) cs
    /\ (length cs <= 1)%nat.
Proof.
  unfold _invalidateEventCacheSafe, try_catch, write_call, ret, log.
  destruct (reader_invalidateCache B) as [f|].
  - destruct (f "eventLogs" (ext w)); eexists _, [_]; (split; [reflexivity|]);
      (split; [repeat constructor | cbn; lia]).
  - destruct (reader_resetCache B).
    + eexists _, [_]; split; [reflexivity|]. split; [repeat constructor | cbn; lia].
    + exists (ext w), []. rewrite app_nil_r. destruct w.
      split; [reflexivity|]. split; [constructor | cbn; lia].
Qed.

(** updateEvent: the writer's update and, when it succeeded, the service's
    invalidation. *)
Lemma updateEvent_run rowIndex data user w :
  updateEvent B config rowIndex data user w =
    match EventLogWriter.updateEventLog B config rowIndex data (modifierOf user) w with
    | (w1, inl e) => (w1, inl e)
    | (w1, inr res) => ((_invalidateEventCacheSafe B w1).1, inr res)
    end.
Proof.
  unfold updateEvent, bind.
  destruct (EventLogWriter.updateEventLog B config rowIndex data (modifierOf user) w)
    as [w1 [e|res]]; [reflexivity|].
  destruct (_invalidateEventCacheSafe_run w1) as (s & cs & -> & _). reflexivity.
Qed.

(** createEvent: the writer's create, the service's invalidation, and the
    calendar when the payload asks for it and the dates of the event are
    valid. *)
Lemma createEvent_run data user w :
  createEvent B config data user w =
    match EventLogWriter.createEventLog B config data (modifierOf user) w with
    | (w1, inl e) => (w1, inl e)
    | (w1, inr res) =>
        let w2 := (_invalidateEventCacheSafe B w1).1 in
        if truthy (get res "success") && strict_eq (get data "syncToCalendar") (Str "true")
        then
          match calendarEvent B data (clock_ms B (ext w2)) (clock_ms B (ext w2)) with
          | Some event =>
              (World (match calendar_createEvent B event (ext w2) with
                      | inr s => s
                      | inl _ => ext w2
                      end) (heap w2) (trace w2 ++ [CCalendarSync event]), inr res)
          | None => (w2, inr res)
          end
        else (w2, inr res)
    end.
Proof.
  unfold createEvent, bind.
  destruct (EventLogWriter.createEventLog B config data (modifierOf user) w)
    as [w1 [e|res]]; [reflexivity|].
  destruct (_invalidateEventCacheSafe_run w1) as (s & cs & -> & _). cbv zeta. cbn [fst].
  destruct (truthy (get res "success") && strict_eq (get data "syncToCalendar") (Str "true"));
    [|reflexivity].
  unfold calendarSync, try_catch, bind, now_ms, throw, write_call, ret, log.
  cbn [ext heap trace].
  destruct (calendarEvent B data _ _) as [event|]; [|reflexivity].
  cbn [ext heap trace].
  destruct (calendar_createEvent B event s); reflexivity.
Qed.

(** The writer's create makes no call to the calendar, and what it returns
    on success has a true [success]. *)
Lemma createEventLog_outcome data creator w :
  exists cs,
    trace (EventLogWriter.createEventLog B config data creator w).1 = (trace w ++ cs)%list
    /\ (forall event, CCalendarSync event ∉ cs)
    /\ (forall res, (EventLogWriter.createEventLog B config data creator w).2 = inr res ->
                    truthy (get res "success") = true).
Proof.
  rewrite createEventLog_run. cbv zeta.
  destruct (values_append B _ _ (ext w)) as [e|s1].
  { eexists [_]. split; [reflexivity|]. split; [|discriminate].
    intros event Hin. apply list_elem_of_singleton in Hin. discriminate. }
  destruct (reader_invalidateCache B) as [f|].
  2:{ eexists [_]. split; [reflexivity|]. split; [|discriminate].
      intros event Hin. apply list_elem_of_singleton in Hin. discriminate. }
  destruct (f "eventLogs" s1) as [e|s2].
  - eexists [_; _]. split; [cbn; rewrite <- app_assoc; reflexivity|].
    split; [|discriminate].
    intros event Hin. rewrite !elem_of_cons in Hin.
    destruct Hin as [Hin|[Hin|Hin]]; [discriminate | discriminate | inversion Hin].
  - eexists [_; _]. split; [reflexivity|]. split.
    + intros event Hin. rewrite !elem_of_cons in Hin.
      destruct Hin as [Hin|[Hin|Hin]]; [discriminate | discriminate | inversion Hin].
    + intros res Hres. cbn [snd] in Hres. injection Hres as <-.
      change (get {[ "success" := Bool true;
                     "id" := Str ("EVT" ++ string_of_Z (clock_ms B (ext w))) ]} "success")
        with (get (<["success" := Bool true]>
                     ({[ "id" := Str ("EVT" ++ string_of_Z (clock_ms B (ext w))) ]} : obj))
                "success").
      rewrite get_insert_eq. reflexivity.
Qed.

(** The calls of the writer's update. *)
Lemma writer_update_calls rowIndex data modifier w :
  let range :=
    rowRange (_getSheetNameByType config (get data "eventType")) rowIndex
      (length (_getFieldsByType config (get data "eventType"))) in
  exists cs,
    trace (EventLogWriter.updateEventLog B config rowIndex data modifier w).1
    = (trace w ++ cs)%list
    /\ Forall (fun c => c = CValuesGet range
                        \/ (exists row, c = CValuesUpdate range row)
                        \/ c = CInvalidateCache "eventLogs") cs
    /\ (cs <> [] -> rowIndex_rejected rowIndex = false).
Proof.
  cbv zeta. rewrite updateEventLog_run. cbv zeta.
  destruct (rowIndex_rejected rowIndex).
  { exists []. rewrite app_nil_r. split; [reflexivity|]. split; [constructor | congruence]. }
  destruct (values_get B _ (ext w)) as [e|[[|[|c first] rest]|]];
    try (eexists [_]; split; [reflexivity|]; split; [|reflexivity];
         repeat constructor; left; reflexivity).
  destruct (values_update B _ _ (ext w)) as [e|s1].
  { eexists [_; _]. split; [cbn; rewrite <- app_assoc; reflexivity|].
    split; [|reflexivity].
    constructor; [left; reflexivity|]. constructor; [right; left; eauto|]. constructor. }
  destruct (reader_invalidateCache B) as [f|].
  2:{ eexists [_; _]. split; [reflexivity|]. split; [|reflexivity].
      constructor; [left; reflexivity|]. constructor; [right; left; eauto|]. constructor. }
  destruct (f "eventLogs" s1) as [e|s2].
  - eexists [_; _; _]. split; [cbn; rewrite <- app_assoc; reflexivity|].
    split; [|reflexivity].
    constructor; [left; reflexivity|]. constructor; [right; left; eauto|].
    constructor; [right; right; reflexivity|]. constructor.
  - eexists [_; _; _]. split; [reflexivity|]. split; [|reflexivity].
    constructor; [left; reflexivity|]. constructor; [right; left; eauto|].
    constructor; [right; right; reflexivity|]. constructor.
Qed.

(** The calls of updateEvent: those of the writer's update and the
    service's invalidation. *)
Lemma updateEvent_calls rowIndex data user w :
  let range :=
    rowRange (_getSheetNameByType config (get data "eventType")) rowIndex
      (length (_getFieldsByType config (get data "eventType"))) in
  exists cs,
    trace (updateEvent B config rowIndex data user w).1 = (trace w ++ cs)%list
    /\ Forall (fun c => c = CValuesGet range
                        \/ (exists row, c = CValuesUpdate range row)
                        \/ is_invalidation c = true) cs
    /\ (cs <> [] -> rowIndex_rejected rowIndex = false).
Proof.
  cbv zeta. rewrite updateEvent_run.
  destruct (writer_update_calls rowIndex data (modifierOf user) w) as (cs & Ht & Hcs & Hg).
  cbv zeta in Hcs.
  assert (Hcs' : Forall (fun c => c = CValuesGet
             (rowRange (_getSheetNameByType config (get data "eventType")) rowIndex
                (length (_getFieldsByType config (get data "eventType"))))
           \/ (exists row, c = CValuesUpdate
             (rowRange (_getSheetNameByType config (get data "eventType")) rowIndex
                (length (_getFieldsByType config (get data "eventType")))) row)
           \/ is_invalidation c = true) cs).
  { eapply Forall_impl; [exact Hcs|]. intros c [H|[H|H]]; [tauto | tauto |].
    right; right. subst c. reflexivity. }
  destruct (EventLogWriter.updateEventLog B config rowIndex data (modifierOf user) w)
    as [w1 [e|res]] eqn:Hrun; cbn [fst] in *.
  { exists cs. split; [exact Ht|]. split; [exact Hcs' | exact Hg]. }
  destruct (_invalidateEventCacheSafe_run w1) as (s & cs2 & -> & Hinv & _). cbn [fst trace].
  exists (cs ++ cs2)%list. split; [rewrite Ht, app_assoc; reflexivity|].
  split.
  - apply Forall_app. split; [exact Hcs'|].
    eapply Forall_impl; [exact Hinv|]. intros c H. tauto.
  - intros _. apply Hg. intros ->. rewrite updateEventLog_run in Hrun. cbv zeta in Hrun.
    rewrite app_nil_r in Ht.
    destruct (rowIndex_rejected rowIndex); [discriminate|].
    destruct (values_get B _ (ext w)) as [e|[[|[|c first] rest]|]]; try discriminate.
    destruct (values_update B _ _ (ext w)) as [e|s1]; [discriminate|].
    destruct (reader_invalidateCache B) as [f|]; [|discriminate].
    destruct (f "eventLogs" s1) as [e|s2]; [discriminate|].
    injection Hrun as <- _. cbn [trace] in Ht.
    apply (f_equal length) in Ht. rewrite length_app in Ht. cbn in Ht. lia.
Qed.


(** X1.  The move does not undo: when the delete of the original row fails,
    the move fails with that error after that one call; when the delete has
    succeeded and the append of the new row fails, the move fails with the
    append's error, the state outside is the one the delete left (the
    original row is gone and no row replaces it) and no further call is
    made. *)
Theorem move_stops_at_first_failure original data modifier w :
  let sheet := _getSheetNameByType config (get original "eventType") in
  let delete := CDeleteRow sheet (get original "rowIndex") in
  let payload := movePayload original data in
  let range := _getSheetNameByType config (get payload "eventType") ++ "!A:Z" in
  (forall e,
     base_deleteRow B sheet (get original "rowIndex") (ext w) = inl e ->
     move B config original data modifier w = (log delete w, inl e))
  /\ (forall s1 e,
        base_deleteRow B sheet (get original "rowIndex") (ext w) = inr s1 ->
        let rowData :=
          createRowData config payload modifier (clock_iso B s1)
            ("EVT" ++ string_of_Z (clock_ms B s1)) in
        values_append B range rowData s1 = inl e ->
        move B config original data modifier w
        = (World s1 (heap w) (trace w ++ [delete; CValuesAppend range rowData]), inl e)).
Proof.
  cbv zeta. split; [intros e Hd | intros s1 e Hd Ha];
    unfold move, deleteEventLog, _deleteRow; unfold bind at 1; unfold bind at 1;
    unfold write_call at 1; rewrite Hd; [reflexivity|].
  cbn [ret]. unfold bind at 1. rewrite createEventLog_run. cbv zeta. cbn [ext heap trace].
  rewrite Ha. unfold log. cbn [ext heap trace]. rewrite <- app_assoc. reflexivity.
Qed.

(** X2.  deleteEvent has no guard on the row index and reads nothing: its
    first call is the delete of the given row, whatever the index is, on the
    sheet of the given type.  When the delete fails, the error is the
    result and no other call is made; when it succeeds, the result is
    success whatever the invalidation answers, and at most one call
    follows, which is on the cache. *)
Theorem deleteEvent_deletes_unguarded rowIndex eventType w :
  let sheet := _getSheetNameByType config eventType in
  match base_deleteRow B sheet rowIndex (ext w) with
  | inl e =>
      deleteEvent B config rowIndex eventType w
      = (log (CDeleteRow sheet rowIndex) w, inl e)
  | inr s1 =>
      exists s2 cs,
        deleteEvent B config rowIndex eventType w
        = (World s2 (heap w) (trace w ++ CDeleteRow sheet rowIndex :: cs),
           inr {[ "success" := Bool true ]})
        /\ Forall (fun c => is_invalidation c = true) cs
        /\ (length cs <= 1)%nat
  end.
Proof.
  cbv zeta.
  destruct (base_deleteRow B _ rowIndex (ext w)) as [e|s1] eqn:Hd;
    unfold deleteEvent, deleteEventLog, _deleteRow, bind, write_call; rewrite Hd;
    [reflexivity|].
  cbn [ret].
  match goal with |- context [_invalidateEventCacheSafe B ?w0] =>
    destruct (_invalidateEventCacheSafe_run w0) as (s & cs & -> & Hinv & Hlen) end.
  cbn [ret heap trace]. exists s, cs.
  split; [rewrite <- app_assoc; reflexivity|]. split; assumption.
Qed.

(** X3.  An id that is not a number and that no listed record has is
    refused: the service's updateEventLog fails with the id-not-found error
    after the list of records has been fetched, with no other call and the
    state outside unchanged, whatever the payload holds (an eventId of the
    payload that a record has does not help). *)
Theorem unknown_event_id_is_refused (s : string) data modifier w refs :
  reader_getEventLogs B (ext w) = inr refs ->
  isNaN (ToNumber (Str s)) = true ->
  (forall l, l ∈ refs -> get (deref (heap w) l) "eventId" <> Str s) ->
  updateEventLog B config (Str s) data modifier w
  = (log CGetEventLogs w, inl (EventIdNotFound s)).
Proof.
  intros Hg Hn Hno. rewrite service_updateEventLog_run, Hg. cbv zeta.
  unfold resolveRowIndex. rewrite isNaN_NumberOf, Hn.
  destruct (find _ _) as [target|] eqn:Hf; [|reflexivity].
  exfalso. apply find_some in Hf. destruct Hf as [Hin Heq].
  apply in_map_iff in Hin. destruct Hin as (l & <- & Hin).
  apply (Hno l); [apply list_elem_of_In; exact Hin|].
  unfold strict_eq in Heq. apply bool_decide_eq_true in Heq. exact Heq.
Qed.

(** X4.  An id that is not a number is resolved to the row of the first
    listed record with that eventId: when that record has the integer row
    index z, not zero, and the resolved original record does not change
    type, the service's updateEventLog is updateEvent on row z, after the
    fetch of the list. *)
Theorem event_id_resolves_to_its_row (s : string) z data modifier w refs target :
  reader_getEventLogs B (ext w) = inr refs ->
  isNaN (ToNumber (Str s)) = true ->
  find (fun l => strict_eq (get l "eventId") (Str s)) (map (deref (heap w)) refs)
  = Some target ->
  get target "rowIndex" = Int z ->
  z <> 0 ->
  typeChanged (resolveOriginal (map (deref (heap w)) refs) (Str s) data) data = false ->
  updateEventLog B config (Str s) data modifier w
  = updateEvent B config (Int z) data (Some {[ "displayName" := modifier ]})
      (log CGetEventLogs w).
Proof.
  intros Hg Hn Hf Hz Hnz Ht. rewrite service_updateEventLog_run, Hg. cbv zeta.
  unfold resolveRowIndex. rewrite isNaN_NumberOf, Hn, Hf, Hz.
  change (truthy (Int z)) with (negb (z =? 0)).
  destruct (Z.eqb_spec z 0) as [|_]; [contradiction|]. cbn [negb].
  change (NumberOf (Int z)) with (of_Z z). rewrite as_integer_of_Z.
  destruct (resolveOriginal _ _ data) as [o|]; [|reflexivity].
  rewrite Ht. reflexivity.
Qed.


(** X6.  Only a change of type relocates a record: when the service's
    updateEventLog deletes a row or appends one, the list of records was
    fetched, the original record was resolved, and the payload and the
    record both have a type and the two types differ.  In particular a
    payload with no eventType never moves a record. *)
Theorem only_a_type_change_relocates idOrRowIndex data modifier w :
  (exists c, c ∈ new_calls w (updateEventLog B config idOrRowIndex data modifier w).1
             /\ is_relocation c = true) ->
  exists refs o,
    reader_getEventLogs B (ext w) = inr refs
    /\ resolveOriginal (map (deref (heap w)) refs) idOrRowIndex data = Some o
    /\ truthy (get data "eventType") = true
    /\ truthy (get o "eventType") = true
    /\ get data "eventType" <> get o "eventType".
Proof.
  rewrite service_updateEventLog_run. intros (c & Hin & Hc).
  assert (Hlog : forall w2 : world S, forall cs,
             trace w2 = (trace (log CGetEventLogs w) ++ cs)%list ->
             trace w2 = (trace w ++ CGetEventLogs :: cs)%list).
  { intros w2 cs ->. cbn [log trace]. rewrite <- app_assoc. reflexivity. }
  assert (Hupd : forall z user,
             c ∈ new_calls w (updateEvent B config (Int z) data user (log CGetEventLogs w)).1 ->
             False).
  { intros z user Hin'.
    destruct (updateEvent_calls (Int z) data user (log CGetEventLogs w))
      as (cs & Ht & Hcs & _). cbv zeta in Hcs.
    apply Hlog in Ht. rewrite (elem_of_new_calls _ _ _ _ Ht) in Hin'.
    apply elem_of_cons in Hin'. destruct Hin' as [->|Hin']; [discriminate|].
    rewrite Forall_forall in Hcs.
    destruct (Hcs _ Hin') as [->|[[row' ->]|H]]; try discriminate.
    destruct c; discriminate. }
  destruct (reader_getEventLogs B (ext w)) as [e|refs].
  { cbn [fst] in Hin. rewrite (elem_of_new_calls w _ [CGetEventLogs]) in Hin by reflexivity.
    apply list_elem_of_singleton in Hin. subst c. discriminate. }
  cbv zeta in Hin.
  destruct (resolveRowIndex _ idOrRowIndex) as [e|z].
  { cbn [fst] in Hin. rewrite (elem_of_new_calls w _ [CGetEventLogs]) in Hin by reflexivity.
    apply list_elem_of_singleton in Hin. subst c. discriminate. }
  destruct (resolveOriginal _ idOrRowIndex data) as [o|] eqn:Ho;
    [|exfalso; eapply Hupd; exact Hin].
  destruct (typeChanged (Some o) data) eqn:Ht; [|exfalso; eapply Hupd; exact Hin].
  exists refs, o. split; [reflexivity|]. split; [exact Ho|].
  unfold typeChanged in Ht.
  apply andb_true_iff in Ht. destruct Ht as [Ht Hne].
  apply andb_true_iff in Ht. destruct Ht as [Hd Hor].
  split; [exact Hd|]. split; [exact Hor|].
  unfold strict_eq in Hne. apply negb_true_iff, bool_decide_eq_false in Hne. exact Hne.
Qed.

(** X7.  createEvent returns what the writer's createEventLog returns,
    whatever the invalidation of the service and the calendar do.  An event
    is handed to the calendar exactly when the writer's create has succeeded,
    the payload's syncToCalendar is the string true and the two dates of the
    event are valid: a createdTime that is no valid date makes toISOString
    throw before the calendar is reached, and no call is made.  The event
    handed over has the summary [type] name of the payload and its
    eventContent (or the empty string) as description, starts at the
    payload's createdTime (or now) and ends an hour from now; the call is the
    last call, and its failure changes neither the result nor the external
    state.  With no call to the calendar the run ends where the service's
    invalidation ended, or where the writer's create failed. *)
Theorem createEvent_calendar_on_request data user w :
  let created := EventLogWriter.createEventLog B config data (modifierOf user) w in
  let run := createEvent B config data user w in
  let w2 := (_invalidateEventCacheSafe B created.1).1 in
  let ms := clock_ms B (ext w2) in
  run.2 = created.2
  /\ (forall event, CCalendarSync event ∈ new_calls w run.1
        <-> ((exists res, created.2 = inr res)
             /\ get data "syncToCalendar" = Str "true"
             /\ calendarEvent B data ms ms = Some event))
  /\ (forall event, CCalendarSync event ∈ new_calls w run.1 ->
        date_toISOString B (or (get data "createdTime") (Int ms)) = Some (start_dateTime event)
        /\ date_toISOString B (Int (ms + 3600000)) = Some (end_dateTime event)
        /\ summary event = "[" ++ ToString (get data "eventType") ++ "] "
                           ++ ToString (get data "eventName")
        /\ description event = or (get data "eventContent") (Str "")
        /\ (exists cs, new_calls w run.1 = (cs ++ [CCalendarSync event])%list
                       /\ forall event', CCalendarSync event' ∉ cs)
        /\ ext run.1 = match calendar_createEvent B event (ext w2) with
                       | inr s => s
                       | inl _ => ext w2
                       end)
  /\ ((forall event, CCalendarSync event ∉ new_calls w run.1) ->
      run.1 = match created.2 with inr _ => w2 | inl _ => created.1 end)
  /\ (date_toISOString B (or (get data "createdTime") (Int ms)) = None ->
      forall event, CCalendarSync event ∉ new_calls w run.1).
Proof.
  cbv zeta. rewrite createEvent_run.
  destruct (createEventLog_outcome data (modifierOf user) w) as (cs1 & Ht1 & Hno1 & Hsucc).
  destruct (EventLogWriter.createEventLog B config data (modifierOf user) w)
    as [w1 [e|res]]; cbn [fst snd] in *.
  { rewrite (new_calls_app w w1 cs1 Ht1).
    split; [reflexivity|]. split; [|split; [|split]].
    - intros event. split; [intros Hin; exfalso; exact (Hno1 _ Hin)|].
      intros [[res Hres] _]. discriminate.
    - intros event Hin. exfalso. exact (Hno1 _ Hin).
    - intros _. reflexivity.
    - intros _ event. apply Hno1. }
  rewrite (Hsucc res eq_refl). cbn [andb]. cbv zeta.
  destruct (_invalidateEventCacheSafe_run w1) as (s & cs & Hrun & Hinv & _).
  rewrite Hrun. cbn [fst ext heap trace].
  assert (Hno : forall event, CCalendarSync event ∉ (cs1 ++ cs)%list).
  { intros event Hin. apply elem_of_app in Hin. destruct Hin as [Hin|Hin].
    - exact (Hno1 _ Hin).
    - rewrite Forall_forall in Hinv. specialize (Hinv _ Hin). discriminate. }
  assert (Hquiet : new_calls w (World s (heap w1) (trace w1 ++ cs)) = (cs1 ++ cs)%list).
  { apply new_calls_app. cbn [trace]. rewrite Ht1, <- app_assoc. reflexivity. }
  unfold strict_eq.
  destruct (bool_decide_reflect (get data "syncToCalendar" = Str "true")) as [Hs|Hs].
  2:{ cbn [fst snd]. rewrite Hquiet.
      split; [reflexivity|]. split; [|split; [|split]].
      - intros event. split; [intros Hin; exfalso; exact (Hno _ Hin)|].
        intros (_ & H & _). contradiction.
      - intros event Hin. exfalso. exact (Hno _ Hin).
      - intros _. reflexivity.
      - intros _ event. apply Hno. }
  destruct (calendarEvent B data (clock_ms B s) (clock_ms B s)) as [event0|] eqn:Hev.
  2:{ cbn [fst snd]. rewrite Hquiet.
      split; [reflexivity|]. split; [|split; [|split]].
      - intros event. split; [intros Hin; exfalso; exact (Hno _ Hin)|].
        intros (_ & _ & H). discriminate.
      - intros event Hin. exfalso. exact (Hno _ Hin).
      - intros _. reflexivity.
      - intros _ event. apply Hno. }
  cbn [fst snd ext].
  erewrite (new_calls_app w _ ((cs1 ++ cs) ++ [CCalendarSync event0])%list)
    by (cbn [trace]; rewrite Ht1, <- !app_assoc; reflexivity).
  assert (Hin0 : forall event,
             CCalendarSync event ∈ ((cs1 ++ cs) ++ [CCalendarSync event0])%list
             <-> event = event0).
  { intros event. rewrite elem_of_app, list_elem_of_singleton. split.
    - intros [Hin|Hin]; [exfalso; exact (Hno _ Hin) | congruence].
    - intros ->. right. reflexivity. }
  split; [reflexivity|]. split; [|split; [|split]].
  - intros event. rewrite Hin0. split.
    + intros ->. split; [eauto|]. split; [exact Hs | reflexivity].
    + intros (_ & _ & H). congruence.
  - intros event Hin. apply Hin0 in Hin. subst event.
    unfold calendarEvent in Hev.
    destruct (date_toISOString B (or (get data "createdTime") (Int (clock_ms B s))))
      as [startIso|]; [|discriminate].
    destruct (date_toISOString B (Int (clock_ms B s + 3600000))) as [endIso|]; [|discriminate].
    injection Hev as <-. cbn [summary description start_dateTime end_dateTime].
    repeat (split; [reflexivity|]).
    split; [|reflexivity].
    exists (cs1 ++ cs)%list. split; [reflexivity | exact Hno].
  - intros Hnone. exfalso. apply (Hnone event0). apply Hin0. reflexivity.
  - intros Hd. unfold calendarEvent in Hev. rewrite Hd in Hev. discriminate.
Qed.

End Mutations.

Section Addressing.
Context {S : Type} (B : backend S) (config : config).

Lemma resolveRowIndex_number logs v :
  isNaN (NumberOf v) = false ->
  resolveRowIndex logs v
  = match as_integer (NumberOf v) with
    | Some z => inr z
    | None => inl InvalidResolvedRowIndex
    end.
Proof.
  intros Hn. unfold resolveRowIndex. destruct v; try reflexivity. rewrite Hn. reflexivity.
Qed.

(** X18.  The service's updateEventLog reads its first argument with
    [Number]: two arguments with [Number(v) === Number(v')], that is whose
    values round to the same double, which is then not NaN, give the same
    run, so a row can be addressed by the number 5, by the string 5 between
    white space and by a numeral that rounds to 5 alike.  (A string whose
    Number is NaN is an event id.) *)
Theorem row_is_addressed_by_its_number v v' data modifier w :
  num_eq (NumberOf v) (NumberOf v') = true ->
  updateEventLog B config v data modifier w = updateEventLog B config v' data modifier w.
Proof.
  intros Hnum. apply num_eq_NumberOf in Hnum. destruct Hnum as [Heq Hn].
  rewrite !service_updateEventLog_run.
  destruct (reader_getEventLogs B (ext w)) as [e|refs]; [reflexivity|]. cbv zeta.
  rewrite !resolveRowIndex_number by congruence.
  unfold resolveOriginal. rewrite Heq. reflexivity.
Qed.

End Addressing.

(** ** Beyond the claims: the rows *)

Lemma updateCell_revision data now cell :
  updateCell data now "修訂版次" cell = Str (Number_toString (plus (currentVer cell) 1)).
Proof. reflexivity. Qed.

Lemma revise_numeral steps : forall v,
  0 < v -> v + Z.of_nat (length steps) <= 2 ^ 53 ->
  revise steps (Str (string_of_Z v)) = Str (string_of_Z (v + Z.of_nat (length steps))).
Proof.
  induction steps as [|[data now] steps IH]; intros v Hv Hb.
  - cbn. rewrite Z.add_0_r. reflexivity.
  - cbn [length] in Hb.
    change (revise ((data, now) :: steps) (Str (string_of_Z v)))
      with (revise steps (updateCell data now "修訂版次" (Str (string_of_Z v)))).
    rewrite updateCell_revision.
    rewrite (revision_read (Str (string_of_Z v)) v) by (first [apply parseInt_string_of_Z | lia]).
    destruct (Z.eqb_spec v 0) as [|_]; [lia|].
    rewrite IH by lia. f_equal. f_equal. cbn [length]. lia.
Qed.

Lemma revise_saturated steps :
  revise steps (Str "9007199254740992") = Str "9007199254740992".
Proof.
  induction steps as [|[data now] steps IH]; [reflexivity|].
  change (revise ((data, now) :: steps) (Str "9007199254740992"))
    with (revise steps (updateCell data now "修訂版次" (Str "9007199254740992"))).
  rewrite updateCell_revision.
  replace (Number_toString (plus (currentVer (Str "9007199254740992")) 1))
    with "9007199254740992" by (vm_compute; reflexivity).
  exact IH.
Qed.

(** X8.  The revision counts the updates as long as a double can: a
    revision cell in which parseInt reads v >= 1 (or reads no integer, or
    reads 0, which count as 1) holds the decimal numeral of v + k after
    k >= 1 updates, whatever their payloads and times are, when v + k is at
    most 2^53.  There the count stops: a cell that reads as 2^53 holds the
    numeral of 2^53 after every update, 2^53 + 1 being no double. *)
Theorem revision_counts_updates steps cell :
  steps <> [] ->
  (forall v,
     (parseInt cell = Some v /\ 0 < v)
     \/ ((parseInt cell = None \/ parseInt cell = Some 0) /\ v = 1) ->
     v + Z.of_nat (length steps) <= 2 ^ 53 ->
     revise steps cell = Str (string_of_Z (v + Z.of_nat (length steps))))
  /\ (parseInt cell = Some (2 ^ 53) -> revise steps cell = Str "9007199254740992").
Proof.
  intros Hne. destruct steps as [|[data now] steps]; [contradiction|].
  change (revise ((data, now) :: steps) cell)
    with (revise steps (updateCell data now "修訂版次" cell)).
  rewrite updateCell_revision. cbn [length]. split.
  - intros v Hv Hb.
    assert (Hnext : Number_toString (plus (currentVer cell) 1) = string_of_Z (v + 1)).
    { destruct Hv as [[Hp Hv] | [[Hp|Hp] ->]].
      - rewrite (revision_read cell v Hp) by lia.
        destruct (Z.eqb_spec v 0) as [|_]; [lia | reflexivity].
      - apply revision_unread. exact Hp.
      - rewrite (revision_read cell 0 Hp) by lia. reflexivity. }
    rewrite Hnext, revise_numeral by lia.
    f_equal. f_equal. lia.
  - intros Hp.
    replace (Number_toString (plus (currentVer cell) 1)) with "9007199254740992".
    + apply revise_saturated.
    + unfold currentVer. rewrite Hp. vm_compute. reflexivity.
Qed.

Lemma padRow_take (row : list value) (n : nat) :
  (forall (i : nat) cell, (n <= i)%nat -> row !! i = Some cell -> cell = Str "") ->
  padRow (length row) (take n row) = row.
Proof.
  intros H. apply list_eq. intros i.
  destruct (Nat.lt_ge_cases i n) as [Hi|Hi].
  - destruct (Nat.lt_ge_cases i (length row)) as [Hl|Hl].
    + rewrite padRow_lookup_old by (rewrite length_take; lia).
      apply lookup_take_lt. exact Hi.
    + rewrite (lookup_ge_None_2 row i) by exact Hl.
      apply lookup_ge_None_2. rewrite length_padRow, length_take. lia.
  - destruct (row !! i) as [cell|] eqn:Hc.
    + rewrite (H i cell Hi Hc).
      apply padRow_lookup_new; [rewrite length_take; lia|].
      apply lookup_lt_Some in Hc. exact Hc.
    + apply lookup_ge_None_2. apply lookup_ge_None_1 in Hc.
      rewrite length_padRow, length_take. lia.
Qed.

Section Stable.
Context (config : config).

(** X9.  An update with the payload of the create leaves what create built:
    when the row read back is the row createEventLog built, less cells at
    its end that are all empty, the row the update writes has the width of
    the schema; its modified-time cell is the time of the update, its
    revision cell is 2, and every cell that create did not fill by itself is
    the cell create built. *)
Theorem update_after_create_is_stable data creator now eventId now' (first : list string)
    (n : nat) :
  let headers := _getFieldsByType config (get data "eventType") in
  let created := createRowData config data creator now eventId in
  map Str first = take n created ->
  (forall (i : nat) cell, (n <= i)%nat -> created !! i = Some cell -> cell = Str "") ->
  let updated := updateCells data now' headers (padRow (length headers) (map Str first)) in
  length updated = length headers
  /\ (forall (i : nat) header, headers !! i = Some header ->
        (header = "最後修改時間" -> updated !! i = Some (Str now'))
        /\ (header = "修訂版次" -> updated !! i = Some (Str "2"))
        /\ (header ∉ automatic_on_create -> updated !! i = created !! i)).
Proof.
  cbv zeta. intros Hfirst Hempty.
  assert (Hlen : length (createRowData config data creator now eventId)
                 = length (_getFieldsByType config (get data "eventType")))
    by (unfold createRowData; apply length_map).
  rewrite Hfirst, <- Hlen, (padRow_take _ n Hempty).
  split; [rewrite length_updateCells; reflexivity|].
  intros i header Hi.
  destruct (updateCells_lookup data now' (_getFieldsByType config (get data "eventType"))
              (createRowData config data creator now eventId) i header) as (cell & Hc & Hu).
  { rewrite Hlen. reflexivity. }
  { exact Hi. }
  rewrite Hu, Hc.
  unfold createRowData in Hc. rewrite lookup_map, Hi in Hc.
  cbn [fmap option_fmap option_map] in Hc. injection Hc as <-.
  split; [intros ->; reflexivity|].
  split; [intros ->; reflexivity|].
  intros Hn. f_equal. unfold updateCell, createCell.
  label_cases; try automatic_label Hn.
  destruct (resolveKey _ _) as [k|]; [|reflexivity].
  destruct (strict_eq (get data k) Undefined); reflexivity.
Qed.

End Stable.

(** ** Beyond the claims: the calls of the reads *)

Section ReadCalls.
Context {S : Type} (B : backend S).

(** X10.  The reads only fetch.  getAllEvents makes its three fetches
    whatever they answer (the second and the third are made also when the
    first has failed).  getEventById fetches the record, and fetches the two
    join sources exactly when a record was found.  getEventTypes fetches the
    system configuration and returns its list of types, or the empty list
    when the fetch fails or the configuration has none; it leaves the heap
    as it is. *)
Theorem reads_only_fetch (w : world S) eventId :
  new_calls w (getAllEvents B w).1 = [CGetEventLogs; CGetOpportunities; CGetCompanyList]
  /\ new_calls w (getEventById B eventId w).1
     = match reader_getEventLogById B eventId (ext w) with
       | inr (Some _) => [CGetEventLogById eventId; CGetOpportunities; CGetCompanyList]
       | _ => [CGetEventLogById eventId]
       end
  /\ getEventTypes B w
     = (log CGetSystemConfig w,
        inr match system_eventTypes B (ext w) with
            | inr (Some types) => types
            | _ => []
            end).
Proof.
  split; [|split].
  - rewrite getAllEvents_run. cbv zeta.
    destruct (reader_getEventLogs B (ext w)) as [?|events];
      destruct (opp_getOpportunities B (ext w)) as [?|opps];
      destruct (company_getCompanyList B (ext w)) as [?|comps];
      apply new_calls_app; reflexivity.
  - rewrite getEventById_run. cbv zeta.
    destruct (reader_getEventLogById B eventId (ext w)) as [?|[raw|]];
      [apply new_calls_app; reflexivity | | apply new_calls_app; reflexivity].
    destruct (opp_getOpportunities B (ext w)) as [?|opps];
      [|destruct (company_getCompanyList B (ext w)) as [?|comps]];
      apply new_calls_app; reflexivity.
  - unfold getEventTypes, try_catch, bind, read_call, ret.
    destruct (system_eventTypes B (ext w)) as [?|[types|]]; reflexivity.
Qed.

End ReadCalls.

(** ** Beyond the claims: the reader of the opportunities
    (data/opportunity-reader.js) *)

Import OpportunityReader.

Lemma buildHeaderMapFrom_snoc headerRow : forall index map title,
  buildHeaderMapFrom index (headerRow ++ [title])%list map
  = headerStep (index + length headerRow) title (buildHeaderMapFrom index headerRow map).
Proof.
  induction headerRow as [|t rest IH]; intros index map title.
  - cbn. rewrite Nat.add_0_r. reflexivity.
  - cbn [app buildHeaderMapFrom length]. rewrite IH.
    replace (Datatypes.S index + length rest)%nat with (index + Datatypes.S (length rest))%nat
      by lia.
    reflexivity.
Qed.

(** The column of a field: the last one whose title is not empty and
    trims to the name of the field. *)
Lemma _buildHeaderMap_lookup headerRow : forall fieldName (i : nat),
  _buildHeaderMap headerRow !! fieldName = Some i
  <-> (fieldName <> "__proto__"
       /\ exists title,
            headerRow !! i = Some title /\ title <> "" /\ trim title = fieldName
            /\ forall (j : nat) title',
                 (i < j)%nat -> headerRow !! j = Some title' -> title' <> "" ->
                 trim title' <> fieldName).
Proof.
  unfold _buildHeaderMap.
  induction headerRow as [|t rest IH] using rev_ind; intros fieldName i.
  { cbn. rewrite lookup_empty. split; [discriminate|].
    intros (_ & title & H & _). rewrite lookup_nil in H. discriminate. }
  rewrite buildHeaderMapFrom_snoc. cbn [Nat.add]. unfold headerStep.
  assert (Hlast : (rest ++ [t])%list !! length rest = Some t)
    by (rewrite lookup_app_r by lia; rewrite Nat.sub_diag; reflexivity).
  assert (Hkeep :
            (t = "" \/ trim t <> fieldName \/ fieldName = "__proto__") ->
            (fieldName <> "__proto__"
             /\ exists title,
                  (rest ++ [t])%list !! i = Some title /\ title <> "" /\ trim title = fieldName
                  /\ forall (j : nat) title',
                       (i < j)%nat -> (rest ++ [t])%list !! j = Some title' -> title' <> "" ->
                       trim title' <> fieldName)
            <-> (fieldName <> "__proto__"
                 /\ exists title,
                      rest !! i = Some title /\ title <> "" /\ trim title = fieldName
                      /\ forall (j : nat) title',
                           (i < j)%nat -> rest !! j = Some title' -> title' <> "" ->
                           trim title' <> fieldName)).
  { intros Hnot. split.
    - intros (Hp & title & Hi & Hne & Htr & Hno). split; [exact Hp|].
      exists title.
      destruct (Nat.lt_ge_cases i (length rest)) as [Hlt|Hge].
      + rewrite lookup_app_l in Hi by exact Hlt.
        split; [exact Hi|]. split; [exact Hne|]. split; [exact Htr|].
        intros j title' Hj Hl. apply (Hno j title' Hj).
        rewrite lookup_app_l by (apply lookup_lt_Some in Hl; exact Hl). exact Hl.
      + exfalso. rewrite lookup_app_r in Hi by exact Hge.
        destruct (i - length rest)%nat as [|n] eqn:Hd; [|destruct n; discriminate].
        injection Hi as ->. destruct Hnot as [H|[H|H]]; contradiction.
    - intros (Hp & title & Hi & Hne & Htr & Hno). split; [exact Hp|].
      exists title. split; [apply lookup_app_l_Some; exact Hi|].
      split; [exact Hne|]. split; [exact Htr|].
      intros j title' Hj Hl Hne'.
      destruct (Nat.lt_ge_cases j (length rest)) as [Hlt|Hge].
      + rewrite lookup_app_l in Hl by exact Hlt. apply (Hno j title' Hj Hl Hne').
      + rewrite lookup_app_r in Hl by exact Hge.
        destruct (j - length rest)%nat as [|n] eqn:Hd; [|destruct n; discriminate].
        injection Hl as <-. destruct Hnot as [H|[H|H]]; [contradiction | exact H | contradiction]. }
  destruct (String.eqb_spec t "") as [Ht|Ht].
  { rewrite IH. symmetry. apply Hkeep. left. exact Ht. }
  destruct (String.eqb_spec (trim t) "__proto__") as [Hp|Hp].
  { rewrite IH. symmetry. apply Hkeep.
    destruct (String.eqb_spec fieldName "__proto__") as [Hf|Hf]; [right; right; exact Hf|].
    right; left. congruence. }
  destruct (String.eqb_spec (trim t) fieldName) as [Hf|Hf].
  - subst fieldName. rewrite lookup_insert_eq. split.
    + intros [= <-]. split; [exact Hp|]. exists t.
      split; [exact Hlast|]. split; [exact Ht|]. split; [reflexivity|].
      intros j title' Hj Hl. apply lookup_lt_Some in Hl. rewrite length_app in Hl.
      cbn in Hl. lia.
    + intros (_ & title & Hi & Hne & Htr & Hno).
      destruct (Nat.lt_ge_cases i (length rest)) as [Hlt|Hge].
      * exfalso. apply (Hno (length rest) t Hlt Hlast Ht). reflexivity.
      * apply lookup_lt_Some in Hi. rewrite length_app in Hi. cbn in Hi.
        f_equal. lia.
  - rewrite lookup_insert_ne by exact Hf. rewrite IH. symmetry. apply Hkeep.
    right; left. exact Hf.
Qed.

(** X11.  The value of a field of a row is the cell under the last column
    whose title is not empty and, white space at its ends removed, is the
    name of the field; it is the empty string when the row has no cell
    there, when no column has that title, and for the name __proto__, which
    no column can take. *)
Theorem getValue_reads_the_last_titled_column headerRow row fieldName :
  (forall (i : nat) title,
     headerRow !! i = Some title -> title <> "" -> trim title = fieldName ->
     fieldName <> "__proto__" ->
     (forall (j : nat) title',
        (i < j)%nat -> headerRow !! j = Some title' -> title' <> "" ->
        trim title' <> fieldName) ->
     _getValue row (_buildHeaderMap headerRow) fieldName = default "" (row !! i))
  /\ ((forall (i : nat) title,
         headerRow !! i = Some title -> title <> "" -> trim title <> fieldName) ->
      _getValue row (_buildHeaderMap headerRow) fieldName = "")
  /\ _getValue row (_buildHeaderMap headerRow) "__proto__" = "".
Proof.
  split; [|split].
  - intros i title Hi Hne Htr Hp Hlast. unfold _getValue.
    replace (_buildHeaderMap headerRow !! fieldName) with (Some i); [reflexivity|].
    symmetry. apply _buildHeaderMap_lookup. split; [exact Hp|]. eauto.
  - intros Hno. unfold _getValue.
    destruct (_buildHeaderMap headerRow !! fieldName) as [i|] eqn:Hl; [|reflexivity].
    apply _buildHeaderMap_lookup in Hl. destruct Hl as (_ & title & Hi & Hne & Htr & _).
    exfalso. exact (Hno i title Hi Hne Htr).
  - unfold _getValue.
    destruct (_buildHeaderMap headerRow !! "__proto__") as [i|] eqn:Hl; [|reflexivity].
    apply _buildHeaderMap_lookup in Hl. destruct Hl as (Hp & _). contradiction.
Qed.

Lemma elem_of_parseRows config headerMap rows : forall (i : nat) o,
  o ∈ parseRows config headerMap i rows
  <-> exists (j : nat) row,
        rows !! j = Some row /\ row <> []
        /\ o = parseRow (OPPORTUNITY_FIELD_NAMES config) headerMap (i + j) row
        /\ currentStatus o <> OPPORTUNITY_STATUS_ARCHIVED config.
Proof.
  induction rows as [|row rest IH]; intros i o.
  { cbn. split; [intros H; inversion H|]. intros (j & row & H & _).
    rewrite lookup_nil in H. discriminate. }
  assert (Hrest : o ∈ parseRows config headerMap (Datatypes.S i) rest
                  <-> exists (j : nat) row0,
                        (row :: rest) !! Datatypes.S j = Some row0 /\ row0 <> []
                        /\ o = parseRow (OPPORTUNITY_FIELD_NAMES config) headerMap
                                 (i + Datatypes.S j) row0
                        /\ currentStatus o <> OPPORTUNITY_STATUS_ARCHIVED config).
  { rewrite IH. split; intros (j & row0 & H1 & H2 & H3 & H4); exists j, row0;
      (split; [exact H1|]); (split; [exact H2|]); (split; [|exact H4]);
      rewrite H3; f_equal; lia. }
  assert (Hsplit : forall P : nat -> Prop,
             (exists j, P j) <-> P 0%nat \/ exists j, P (Datatypes.S j)).
  { intros P. split.
    - intros [[|j] H]; [left; exact H | right; exists j; exact H].
    - intros [H|[j H]]; eauto. }
  cbn [parseRows].
  destruct row as [|c row].
  { rewrite Hrest. split.
    - intros (j & row0 & H). exists (Datatypes.S j), row0. exact H.
    - intros ([|j] & row0 & H1 & H2 & H3).
      + cbn in H1. injection H1 as <-. contradiction.
      + exists j, row0. tauto. }
  destruct (String.eqb_spec
              (currentStatus (parseRow (OPPORTUNITY_FIELD_NAMES config) headerMap i (c :: row)))
              (OPPORTUNITY_STATUS_ARCHIVED config)) as [Ha|Ha].
  { rewrite Hrest. split.
    - intros (j & row0 & H). exists (Datatypes.S j), row0. exact H.
    - intros ([|j] & row0 & H1 & H2 & H3 & H4).
      + cbn in H1. injection H1 as <-. rewrite Nat.add_0_r in H3. subst o. contradiction.
      + exists j, row0. tauto. }
  rewrite elem_of_cons, Hrest. split.
  - intros [->|(j & row0 & H)].
    + exists 0%nat, (c :: row). rewrite Nat.add_0_r.
      split; [reflexivity|]. split; [discriminate|]. split; [reflexivity | exact Ha].
    + exists (Datatypes.S j), row0. exact H.
  - intros ([|j] & row0 & H1 & H2 & H3 & H4).
    + left. cbn in H1. injection H1 as <-. rewrite Nat.add_0_r in H3. exact H3.
    + right. exists j, row0. tauto.
Qed.

Lemma parseRows_rowIndex config headerMap rows : forall i : nat,
  Forall (fun o => Z.of_nat i + 1 <= rowIndex o) (parseRows config headerMap i rows)
  /\ NoDup (map rowIndex (parseRows config headerMap i rows)).
Proof.
  induction rows as [|row rest IH]; intros i.
  { cbn. split; constructor. }
  destruct (IH (Datatypes.S i)) as [Hge Hnd].
  assert (Hge' : Forall (fun o => Z.of_nat i + 1 <= rowIndex o)
                   (parseRows config headerMap (Datatypes.S i) rest)).
  { eapply Forall_impl; [exact Hge|]. cbn beta. intros o Ho. lia. }
  cbn [parseRows].
  destruct row as [|c row]; [split; assumption|].
  destruct (String.eqb _ _); [split; assumption|].
  split.
  - constructor; [cbn; lia | exact Hge'].
  - cbn [map]. constructor; [|exact Hnd].
    intros Hin. apply list_elem_of_In, in_map_iff in Hin. destruct Hin as (o & Ho & Hin).
    rewrite Forall_forall in Hge. apply list_elem_of_In in Hin. specialize (Hge o Hin).
    cbn in Ho. lia.
Qed.

Section ReaderRuns.
Context {S : Type} (B : backend S) (env : reader_env S) (config : reader_config).

(** getOpportunities, by the answer of the sheet. *)
Lemma getOpportunities_run (w : world S) :
  let range := SHEETS_OPPORTUNITIES config ++ "!A:ZZ" in
  getOpportunities B env config w =
    match values_get B range (ext w) with
    | inr (Some (headerRow :: rows)) =>
        let opps :=
          sort_by_time env (parseRows config (_buildHeaderMap headerRow) 1 rows) in
        (World (match cache_put env with
                | Some put => put opps (ext w)
                | None => ext w
                end) (heap w) (trace w ++ [CValuesGet range]),
         inr opps)
    | _ => (log (CValuesGet range) w, inr [])
    end.
Proof.
  cbv zeta. unfold getOpportunities, fetchRows, bind, sheets_get, read_call.
  destruct (values_get B _ (ext w)) as [e|[[|headerRow rows]|]]; try reflexivity.
  cbn [readOpportunities]. unfold bind, cacheOpportunities, log.
  destruct (cache_put env); reflexivity.
Qed.

Lemma getOpportunities_returns (w : world S) :
  exists opps, (getOpportunities B env config w).2 = inr opps.
Proof.
  rewrite getOpportunities_run. cbv zeta.
  destruct (values_get B _ (ext w)) as [e|[[|headerRow rows]|]]; eexists; reflexivity.
Qed.

(** X12.  getOpportunities returns a list and never an error, after one
    call, the fetch of the sheet, with no write to a table and the heap as
    it was.  The list is empty, and nothing is put in the cache, when the
    fetch fails, when the sheet has no values and when it has no row. *)
Theorem getOpportunities_never_fails (w : world S) :
  let range := SHEETS_OPPORTUNITIES config ++ "!A:ZZ" in
  let run := getOpportunities B env config w in
  (exists opps, run.2 = inr opps)
  /\ new_calls w run.1 = [CValuesGet range]
  /\ heap run.1 = heap w
  /\ ((forall headerRow rows, values_get B range (ext w) <> inr (Some (headerRow :: rows))) ->
      run = (log (CValuesGet range) w, inr []))
  /\ (cache_put env = None -> ext run.1 = ext w).
Proof.
  cbv zeta. rewrite getOpportunities_run. cbv zeta.
  destruct (values_get B _ (ext w)) as [e|[[|headerRow rows]|]]; cbn [fst snd heap].
  1,2,4: (split; [eexists; reflexivity|]); (split; [apply new_calls_app; reflexivity|]);
    (split; [reflexivity|]); (split; [reflexivity|]); reflexivity.
  split; [eexists; reflexivity|]. split; [apply new_calls_app; reflexivity|].
  split; [reflexivity|]. split; [intros H; exfalso; eapply H; reflexivity|].
  intros ->. reflexivity.
Qed.

(** X13.  The list getOpportunities returns has exactly the rows of the
    sheet after the header that are not empty and whose status is not the
    archived one, each as the object of its row: the object of the row at
    position i after the header has the row index i + 2, its position in
    the sheet counted from 1, so the row indices are at least 2, are those
    of rows of the sheet and are pairwise distinct.  The sort only needs to
    permute. *)
Theorem getOpportunities_lists_the_live_rows (w : world S) headerRow rows :
  let range := SHEETS_OPPORTUNITIES config ++ "!A:ZZ" in
  let headerMap := _buildHeaderMap headerRow in
  (forall l, Permutation (sort_by_time env l) l) ->
  values_get B range (ext w) = inr (Some (headerRow :: rows)) ->
  exists opps,
    (getOpportunities B env config w).2 = inr opps
    /\ (forall o,
          o ∈ opps
          <-> exists (i : nat) row,
                rows !! i = Some row /\ row <> []
                /\ o = parseRow (OPPORTUNITY_FIELD_NAMES config) headerMap (i + 1) row
                /\ currentStatus o <> OPPORTUNITY_STATUS_ARCHIVED config)
    /\ NoDup (map rowIndex opps)
    /\ (forall o, o ∈ opps ->
          2 <= rowIndex o <= Z.of_nat (length rows) + 1
          /\ exists row,
               (headerRow :: rows) !! Z.to_nat (rowIndex o - 1) = Some row
               /\ o = parseRow (OPPORTUNITY_FIELD_NAMES config) headerMap
                        (Z.to_nat (rowIndex o - 1)) row).
Proof.
  cbv zeta. intros Hperm Hg. rewrite getOpportunities_run. cbv zeta. rewrite Hg.
  cbn [snd]. eexists. split; [reflexivity|].
  assert (Hmem : forall o,
             o ∈ sort_by_time env (parseRows config (_buildHeaderMap headerRow) 1 rows)
             <-> exists (i : nat) row,
                   rows !! i = Some row /\ row <> []
                   /\ o = parseRow (OPPORTUNITY_FIELD_NAMES config) (_buildHeaderMap headerRow)
                            (i + 1) row
                   /\ currentStatus o <> OPPORTUNITY_STATUS_ARCHIVED config).
  { intros o. rewrite (Hperm _), elem_of_parseRows.
    split; intros (i & row & H1 & H2 & H3 & H4); exists i, row;
      (split; [exact H1|]); (split; [exact H2|]); (split; [|exact H4]);
      rewrite H3; f_equal; lia. }
  split; [exact Hmem|]. split.
  - rewrite (Permutation_map rowIndex (Hperm _)). apply parseRows_rowIndex.
  - intros o Ho. apply Hmem in Ho. destruct Ho as (i & row & H1 & H2 & H3 & H4).
    pose proof (lookup_lt_Some _ _ _ H1) as Hlt.
    assert (Hri : rowIndex o = Z.of_nat i + 2) by (rewrite H3; cbn; lia).
    split; [lia|]. exists row.
    replace (Z.to_nat (rowIndex o - 1)) with (Datatypes.S i) by lia.
    split; [exact H1|]. rewrite H3 at 1. f_equal. lia.
Qed.

End ReaderRuns.

(** *** Pages *)

Lemma slice_from {A} (l : list A) (s e : Z) :
  0 <= s <= e -> slice s e l = take (Z.to_nat (e - s)) (drop (Z.to_nat s) l).
Proof.
  intros H. unfold slice.
  destruct (Z.ltb_spec s 0) as [?|_]; [lia|].
  destruct (Z.ltb_spec e 0) as [?|_]; [lia|].
  destruct (Z_le_gt_dec e (Z.of_nat (length l))) as [He|He].
  { rewrite (Z.min_l s), (Z.min_l e) by lia. f_equal. lia. }
  destruct (Z_le_gt_dec s (Z.of_nat (length l))) as [Hs|Hs].
  - rewrite (Z.min_l s), (Z.min_r e) by lia.
    rewrite !take_ge by (rewrite length_drop; lia). reflexivity.
  - rewrite (Z.min_r s), (Z.min_r e) by lia.
    rewrite !drop_ge by lia. rewrite !take_nil. reflexivity.
Qed.

Lemma take_plus {A} (l : list A) : forall a b : nat,
  take (a + b) l = (take a l ++ take b (drop a l))%list.
Proof.
  induction l as [|x l IH]; intros a b.
  - rewrite !take_nil, drop_nil, take_nil. reflexivity.
  - destruct a as [|a]; [reflexivity|]. cbn. rewrite IH. reflexivity.
Qed.

Lemma concat_chunks {A} (l : list A) (n : nat) : forall k : nat,
  concat (map (fun p => take n (drop (p * n) l)) (seq 0 k)) = take (k * n) l.
Proof.
  induction k as [|k IH]; [reflexivity|].
  rewrite seq_S, map_app, concat_app, IH. cbn [map concat Nat.add].
  rewrite app_nil_r.
  replace (Datatypes.S k * n)%nat with (k * n + n)%nat by lia.
  symmetry. apply take_plus.
Qed.

Lemma ceil_div_bounds (n d : Z) :
  0 <= n -> 0 < d ->
  (ceil_div n d - 1) * d < n /\ n <= ceil_div n d * d /\ 0 <= ceil_div n d.
Proof.
  intros Hn Hd. unfold ceil_div.
  pose proof (Z.div_mod (n + d - 1) d ltac:(lia)) as H.
  pose proof (Z.mod_pos_bound (n + d - 1) d Hd) as Hm.
  assert (0 <= (n + d - 1) / d) by (apply Z.div_pos; lia).
  nia.
Qed.

Lemma ceil_div_lt (n d p : Z) :
  0 <= n -> 0 < d -> (p < ceil_div n d <-> p * d < n).
Proof.
  intros Hn Hd.
  destruct (ceil_div_bounds n d Hn Hd) as (Hlow & Hup & Hpos).
  split; intros H; [|nia].
  assert (p * d <= (ceil_div n d - 1) * d) by nia. lia.
Qed.

(** X14.  The pages of searchOpportunities part the list.  For a page
    p >= 1 the result is the page p of the list cut in pieces of the
    configured size: it names p as current, the number of pieces as total
    and the length of the list as totalItems; hasNext holds exactly when p
    is less than the total and hasPrev exactly when p is more than 1;
    every page before the last is full, the last has at least one record
    and a page after the last has none.  The pages 1 to total, one after
    the other, are the list.  A page that is not positive gives the list
    itself, with no pagination. *)
Theorem pages_part_the_list (pageSize : positive) (l : list opportunity) :
  let size := Z.pos pageSize in
  let pages := ceil_div (Z.of_nat (length l)) size in
  (forall page, 1 <= page ->
     exists data p,
       paginate pageSize page l = Paged data p
       /\ current p = page /\ total p = pages /\ totalItems p = Z.of_nat (length l)
       /\ (hasNext p = true <-> page < pages)
       /\ (hasPrev p = true <-> 1 < page)
       /\ data = take (Pos.to_nat pageSize) (drop (Z.to_nat ((page - 1) * size)) l)
       /\ (page < pages -> Z.of_nat (length data) = size)
       /\ (page = pages -> 1 <= Z.of_nat (length data) <= size)
       /\ (pages < page -> data = []))
  /\ (forall page, page <= 0 -> paginate pageSize page l = Plain l)
  /\ concat (map (fun page => records (paginate pageSize (Z.of_nat page) l))
               (seq 1 (Z.to_nat pages))) = l.
Proof.
  cbv zeta.
  pose proof (ceil_div_bounds (Z.of_nat (length l)) (Z.pos pageSize) ltac:(lia) ltac:(lia))
    as (Hlow & Hup & Hpos).
  set (pages := ceil_div (Z.of_nat (length l)) (Z.pos pageSize)) in *.
  assert (Hdata : forall page, 1 <= page ->
             slice ((page - 1) * Z.pos pageSize)
               ((page - 1) * Z.pos pageSize + Z.pos pageSize) l
             = take (Pos.to_nat pageSize) (drop (Z.to_nat ((page - 1) * Z.pos pageSize)) l)).
  { intros page Hp. rewrite slice_from by nia. f_equal. lia. }
  split; [|split].
  - intros page Hp. unfold paginate.
    destruct (Z.leb_spec page 0) as [?|_]; [lia|]. cbv zeta.
    eexists _, _. split; [reflexivity|]. cbn [current total totalItems hasNext hasPrev].
    split; [reflexivity|]. split; [reflexivity|]. split; [reflexivity|].
    pose proof (ceil_div_lt (Z.of_nat (length l)) (Z.pos pageSize) page
                  ltac:(lia) ltac:(lia)) as Hlt'.
    fold pages in Hlt'.
    assert (H0 : 0 <= (page - 1) * Z.pos pageSize) by nia.
    split; [rewrite Z.ltb_lt, Hlt'; lia|].
    split; [rewrite Z.ltb_lt; reflexivity|].
    split; [apply Hdata; exact Hp|].
    rewrite Hdata by exact Hp.
    split; [|split].
    + intros Hlt. apply Hlt' in Hlt. rewrite length_take, length_drop. lia.
    + intros ->. rewrite length_take, length_drop. lia.
    + intros Hgt. rewrite drop_ge; [apply take_nil|].
      assert (pages * Z.pos pageSize <= (page - 1) * Z.pos pageSize) by nia.
      lia.
  - intros page Hp. unfold paginate.
    destruct (Z.leb_spec page 0) as [_|?]; [reflexivity | lia].
  - rewrite <- seq_shift, map_map.
    erewrite map_ext_in.
    2:{ intros p _. unfold paginate.
        destruct (Z.leb_spec (Z.of_nat (Datatypes.S p)) 0) as [?|_]; [lia|]. cbv zeta.
        cbn [records]. rewrite Hdata by lia.
        replace (Z.to_nat ((Z.of_nat (Datatypes.S p) - 1) * Z.pos pageSize))
          with (p * Pos.to_nat pageSize)%nat by nia.
        reflexivity. }
    rewrite concat_chunks. apply take_ge. nia.
Qed.

(** *** Search *)

Lemma elem_of_List_filter {A} (f : A -> bool) (l : list A) (x : A) :
  x ∈ List.filter f l <-> x ∈ l /\ f x = true.
Proof. rewrite !list_elem_of_In. apply filter_In. Qed.

Lemma sublist_List_filter {A} (f : A -> bool) (l : list A) : sublist (List.filter f l) l.
Proof.
  induction l as [|x l IH]; [constructor|]. cbn.
  destruct (f x); [apply sublist_skip | apply sublist_cons]; exact IH.
Qed.

Lemma elem_of_applyFilter v field l o :
  o ∈ applyFilter v field l <-> o ∈ l /\ (truthy v = true -> v = Str (field o)).
Proof.
  unfold applyFilter. destruct (truthy v).
  - rewrite elem_of_List_filter. unfold strict_eq. rewrite bool_decide_eq_true.
    split; intros [H1 H2]; (split; [exact H1|]); [intros _; symmetry; exact H2|].
    symmetry. apply H2. reflexivity.
  - split; [intros H; split; [exact H | discriminate] | intros [H _]; exact H].
Qed.

Lemma sublist_applyFilter v field l : sublist (applyFilter v field l) l.
Proof. unfold applyFilter. destruct (truthy v); [apply sublist_List_filter | reflexivity]. Qed.

Lemma sublist_slice {A} (s e : Z) (l : list A) : sublist (slice s e l) l.
Proof.
  unfold slice. etransitivity; [apply sublist_take | apply sublist_drop].
Qed.

Section SearchRuns.
Context {S : Type} (B : backend S) (env : reader_env S) (config : reader_config).

Lemma elem_of_searchFilter query filters l o :
  o ∈ searchFilter env query filters l
  <-> o ∈ l
      /\ (query <> "" -> matchesQuery env (toLowerCase env query) o = true)
      /\ (truthy (get filters "assignee") = true -> get filters "assignee" = Str (assignee o))
      /\ (truthy (get filters "type") = true -> get filters "type" = Str (opportunityType o))
      /\ (truthy (get filters "stage") = true -> get filters "stage" = Str (currentStage o)).
Proof.
  unfold searchFilter. rewrite !elem_of_applyFilter.
  destruct (String.eqb_spec query "") as [Hq|Hq].
  - split; [intros (((H1 & H2) & H3) & H4) | intros (H1 & _ & H2 & H3 & H4)]; tauto.
  - rewrite elem_of_List_filter.
    split; [intros ((((H1 & H0) & H2) & H3) & H4) | intros (H1 & H0 & H2 & H3 & H4)]; tauto.
Qed.

Lemma sublist_searchFilter query filters l : sublist (searchFilter env query filters l) l.
Proof.
  unfold searchFilter.
  etransitivity; [apply sublist_applyFilter|].
  etransitivity; [apply sublist_applyFilter|].
  etransitivity; [apply sublist_applyFilter|].
  destruct (String.eqb query ""); [reflexivity | apply sublist_List_filter].
Qed.

(** X15.  searchOpportunities returns, and in their order, records that
    getOpportunities lists, each of which meets every criterion that is
    set: the query, when it is not empty, and each of the filters assignee,
    type and stage whose value is truthy, by strict equality with that
    value (a truthy filter that is not a string leaves no record).  It
    fails never, makes the calls of getOpportunities and no other, and
    with a page that is not positive it returns exactly the records that
    meet the criteria; the page asked for is 1 when none is given. *)
Theorem search_returns_matching_records (w : world S) query page filters :
  let listed := getOpportunities B env config w in
  let run := searchOpportunities B env config query page filters w in
  exists opps r,
    listed.2 = inr opps /\ run.2 = inr r /\ run.1 = listed.1
    /\ sublist (records r) opps
    /\ (forall o, o ∈ records r ->
          (query <> "" -> matchesQuery env (toLowerCase env query) o = true)
          /\ (forall k field,
                (k, field) ∈ [("assignee", assignee); ("type", opportunityType);
                              ("stage", currentStage)] ->
                truthy (get filters k) = true -> get filters k = Str (field o)))
    /\ (forall p, page = Some p -> p <= 0 ->
          r = Plain (searchFilter env query filters opps))
    /\ (page = None ->
          r = paginate (OPPORTUNITIES_PER_PAGE config) 1 (searchFilter env query filters opps)).
Proof.
  cbv zeta. unfold searchOpportunities, bind.
  destruct (getOpportunities_returns B env config w) as [opps Hopps].
  destruct (getOpportunities B env config w) as [w1 res]. cbn [snd] in Hopps. subst res.
  cbn [ret fst snd]. exists opps. eexists. split; [reflexivity|]. split; [reflexivity|].
  split; [reflexivity|].
  assert (Hsub : sublist
                   (records (paginate (OPPORTUNITIES_PER_PAGE config) (default 1 page)
                               (searchFilter env query filters opps)))
                   (searchFilter env query filters opps)).
  { unfold paginate. destruct (default 1 page <=? 0); cbn [records];
      [reflexivity | apply sublist_slice]. }
  split; [etransitivity; [exact Hsub | apply sublist_searchFilter]|].
  split.
  - intros o Ho. apply (elem_of_sublist _ _ _ Ho) in Hsub. rename Hsub into Ho2. clear Ho. rename Ho2 into Ho.
    apply elem_of_searchFilter in Ho. destruct Ho as (_ & Hq & Ha & Ht & Hs).
    split; [exact Hq|].
    intros k field Hk. rewrite !elem_of_cons in Hk.
    destruct Hk as [[= -> ->]|[[= -> ->]|[[= -> ->]|Hk]]]; [assumption.. | inversion Hk].
  - split.
    + intros p -> Hp. change (default 1 (Some p)) with p. unfold paginate.
      destruct (Z.leb_spec p 0); [reflexivity | lia].
    + intros ->. reflexivity.
Qed.

End SearchRuns.

(** *** Stages *)

Lemma List_filter_snoc {A} (f : A -> bool) (l : list A) (x : A) :
  List.filter f (l ++ [x]) = (List.filter f l ++ (if f x then [x] else []))%list.
Proof. rewrite List.filter_app. cbn. destruct (f x); reflexivity. Qed.

Lemma initGroups_grouped stages : grouped [] (initGroups stages).
Proof.
  unfold initGroups.
  assert (H : forall groups, grouped [] groups ->
                grouped [] (fold_left initGroup stages groups)).
  { induction stages as [|st stages IH]; intros groups Hg; [exact Hg|].
    cbn [fold_left]. apply IH. destruct Hg as (Hp & Ho & Hpr).
    unfold initGroup. destruct (String.eqb_spec (stage_value st) "__proto__") as [He|He].
    - split; [exact Hp|]. split; [exact Ho|].
      cbn [proto]. intros g [= <-]. split; reflexivity.
    - unfold grouped. cbn [own proto]. split; [rewrite lookup_insert_ne by exact He; exact Hp|].
      split; [|exact Hpr].
      intros k g. destruct (decide (stage_value st = k)) as [<-|Hk].
      + rewrite lookup_insert_eq. intros [= <-]. split; reflexivity.
      + rewrite lookup_insert_ne by exact Hk. apply Ho. }
  apply H. split; [apply lookup_empty|]. split.
  - intros k g Hk. cbn in Hk. rewrite lookup_empty in Hk. discriminate.
  - intros g Hg. discriminate.
Qed.

Lemma classify_grouped seen groups opp groups' :
  grouped seen groups ->
  classify groups opp = inr groups' ->
  grouped (seen ++ [opp]) groups'.
Proof.
  intros (Hp & Ho & Hpr) Hc. unfold classify in Hc.
  assert (Hidle : forall k, active_in k opp = false ->
                    List.filter (active_in k) (seen ++ [opp]) = List.filter (active_in k) seen).
  { intros k Hk. rewrite List_filter_snoc, Hk. apply app_nil_r. }
  destruct (String.eqb_spec (currentStatus opp) "進行中") as [Hs|Hs].
  2:{ injection Hc as <-.
      assert (Hno : forall k, active_in k opp = false).
      { intros k. unfold active_in. destruct (String.eqb_spec (currentStatus opp) "進行中");
          [contradiction | reflexivity]. }
      split; [exact Hp|]. split.
      - intros k g Hk. rewrite Hidle by apply Hno. apply Ho. exact Hk.
      - intros g Hg. rewrite Hidle by apply Hno. apply Hpr. exact Hg. }
  assert (Hact : forall k, active_in k opp = String.eqb (currentStage opp) k).
  { intros k. unfold active_in. rewrite Hs, String.eqb_refl. reflexivity. }
  assert (Hother : forall k, k <> currentStage opp -> active_in k opp = false).
  { intros k Hk. rewrite Hact. apply String.eqb_neq. congruence. }
  assert (Hpush : forall g k,
             k = currentStage opp ->
             opportunities g = List.filter (active_in k) seen
             /\ count g = Z.of_nat (length (opportunities g)) ->
             opportunities (pushTo g opp) = List.filter (active_in k) (seen ++ [opp])
             /\ count (pushTo g opp) = Z.of_nat (length (opportunities (pushTo g opp)))).
  { intros g k -> [H1 H2]. cbn [pushTo opportunities count].
    rewrite List_filter_snoc, Hact, String.eqb_refl, H1. split; [reflexivity|].
    rewrite H2, H1, length_app. cbn [length]. lia. }
  unfold lookupGroup in Hc.
  destruct (own groups !! currentStage opp) as [g|] eqn:Hown.
  { injection Hc as <-. unfold grouped. cbn [own proto].
    assert (Hne : currentStage opp <> "__proto__") by (intros He; congruence).
    split; [rewrite lookup_insert_ne by exact Hne; exact Hp|]. split.
    - intros k g'. destruct (decide (currentStage opp = k)) as [<-|Hk].
      + rewrite lookup_insert_eq. intros [= <-]. apply Hpush; [reflexivity|].
        apply Ho. exact Hown.
      + rewrite lookup_insert_ne by exact Hk. intros Hg.
        rewrite Hidle by (apply Hother; congruence). apply Ho. exact Hg.
    - intros g' Hg. rewrite Hidle by (apply Hother; congruence). apply Hpr. exact Hg. }
  assert (Hsame : currentStage opp <> "__proto__" \/ proto groups = None ->
                  grouped (seen ++ [opp]) groups).
  { intros Hor. split; [exact Hp|]. split.
    - intros k g Hg. rewrite Hidle by (apply Hother; congruence). apply Ho. exact Hg.
    - intros g Hg. destruct Hor as [Hne|Hnone]; [|congruence].
      rewrite Hidle by (apply Hother; congruence). apply Hpr. exact Hg. }
  destruct (proto groups) as [g|] eqn:Hproto.
  2:{ destruct (inherited (currentStage opp)); [discriminate|].
      injection Hc as <-. apply Hsame. right. reflexivity. }
  destruct (String.eqb_spec (currentStage opp) "__proto__") as [He|He].
  { injection Hc as <-. unfold grouped. cbn [own proto]. split; [exact Hp|]. split.
    - intros k g' Hg. rewrite Hidle by (apply Hother; congruence). apply Ho. exact Hg.
    - intros g' [= <-]. apply Hpush; [symmetry; exact He|]. apply Hpr. reflexivity. }
  assert (Hfalsy : Falsy = Falsy -> grouped (seen ++ [opp]) groups).
  { intros _. split; [exact Hp|]. split.
    - intros k g' Hg. rewrite Hidle by (apply Hother; congruence). apply Ho. exact Hg.
    - intros g' Hg. rewrite Hidle by (apply Hother; congruence).
      rewrite <- Hproto in Hpr. apply Hpr. exact Hg. }
  repeat match type of Hc with
         | context [if ?b then _ else _] => destruct b
         end;
    try discriminate; injection Hc as <-; apply Hfalsy; reflexivity.
Qed.

Lemma classifyAll_grouped opps : forall seen groups groups',
  grouped seen groups ->
  classifyAll groups opps = inr groups' ->
  grouped (seen ++ opps) groups'.
Proof.
  induction opps as [|opp opps IH]; intros seen groups groups' Hg Hc.
  { injection Hc as <-. rewrite app_nil_r. exact Hg. }
  cbn [classifyAll] in Hc.
  destruct (classify groups opp) as [e|groups1] eqn:H1; [discriminate|].
  replace (seen ++ opp :: opps)%list with ((seen ++ [opp]) ++ opps)%list
    by (rewrite <- app_assoc; reflexivity).
  eapply IH; [|exact Hc]. eapply classify_grouped; eassumption.
Qed.

Lemma classify_error groups opp e : classify groups opp = inl e -> e = TypeError.
Proof.
  unfold classify. destruct (String.eqb _ _); [|discriminate].
  destruct (lookupGroup groups (currentStage opp)); try discriminate. congruence.
Qed.

Lemma classify_shape groups opp groups' :
  classify groups opp = inr groups' ->
  (forall k, own groups' !! k = None <-> own groups !! k = None)
  /\ (proto groups' = None <-> proto groups = None).
Proof.
  unfold classify. destruct (String.eqb _ _); [|intros [= <-]; tauto].
  unfold lookupGroup.
  destruct (own groups !! currentStage opp) as [g|] eqn:Hown.
  { intros [= <-]. cbn [own proto]. split; [|tauto].
    intros k. destruct (decide (currentStage opp = k)) as [<-|Hk].
    - rewrite lookup_insert_eq, Hown. split; discriminate.
    - rewrite lookup_insert_ne by exact Hk. tauto. }
  destruct (proto groups) as [g|] eqn:Hproto.
  2:{ destruct (inherited (currentStage opp)); [discriminate|]. intros [= <-].
      rewrite Hproto. tauto. }
  intros Hc.
  repeat match type of Hc with
         | context [if ?b then _ else _] => destruct b
         end;
    try discriminate; injection Hc as <-; cbn [own proto]; rewrite ?Hproto;
    (split; [tauto|]); split; discriminate.
Qed.

Lemma classifyAll_throws opps : forall groups o,
  o ∈ opps ->
  currentStatus o = "進行中" ->
  inherited (currentStage o) = true ->
  own groups !! currentStage o = None ->
  proto groups = None ->
  classifyAll groups opps = inl TypeError.
Proof.
  induction opps as [|opp opps IH]; intros groups o Hin Hs Hi Hown Hproto;
    [inversion Hin|].
  cbn [classifyAll].
  destruct (classify groups opp) as [e|groups1] eqn:Hc.
  { apply classify_error in Hc. subst e. reflexivity. }
  apply elem_of_cons in Hin. destruct Hin as [->|Hin].
  - exfalso. unfold classify, lookupGroup in Hc.
    rewrite Hs, String.eqb_refl, Hown, Hproto, Hi in Hc. discriminate.
  - destruct (classify_shape _ _ _ Hc) as [H1 H2].
    apply (IH groups1 o Hin Hs Hi); [apply H1; exact Hown | apply H2; exact Hproto].
Qed.

Lemma initGroups_shape stages :
  (forall k, k <> "__proto__" -> (forall st, st ∈ stages -> stage_value st <> k) ->
             own (initGroups stages) !! k = None)
  /\ own (initGroups stages) !! "__proto__" = None
  /\ ((forall st, st ∈ stages -> stage_value st <> "__proto__") ->
      proto (initGroups stages) = None).
Proof.
  unfold initGroups.
  induction stages as [|st stages IH] using rev_ind.
  { cbn. split; [intros; apply lookup_empty|]. split; [apply lookup_empty | reflexivity]. }
  rewrite fold_left_app. cbn [fold_left]. destruct IH as (IH1 & IH2 & IH3).
  unfold initGroup at 1 3 5.
  destruct (String.eqb_spec (stage_value st) "__proto__") as [He|He]; cbn [own proto].
  - split; [|split; [exact IH2|]].
    + intros k Hk Hno. apply IH1; [exact Hk|]. intros st' Hst. apply Hno.
      apply elem_of_app. left. exact Hst.
    + intros Hno. exfalso. apply (Hno st); [|exact He].
      apply elem_of_app. right. apply list_elem_of_here.
  - split; [|split].
    + intros k Hk Hno. rewrite lookup_insert_ne.
      * apply IH1; [exact Hk|]. intros st' Hst. apply Hno. apply elem_of_app. left. exact Hst.
      * apply Hno. apply elem_of_app. right. apply list_elem_of_here.
    + rewrite lookup_insert_ne by exact He. exact IH2.
    + intros Hno. apply IH3. intros st' Hst. apply Hno. apply elem_of_app. left. exact Hst.
Qed.

Section Stages.
Context {S : Type} (B : backend S) (env : reader_env S) (config : reader_config).

(** getOpportunitiesByStage, by the list of getOpportunities and the stages
    of the system configuration. *)
Lemma getOpportunitiesByStage_run (w : world S) :
  let range := SHEETS_OPPORTUNITIES config ++ "!A:ZZ" in
  let listed := getOpportunities B env config w in
  let stages :=
    match system_stages env (ext w) with
    | inr (Some stages) => stages
    | _ => []
    end in
  let opps := match listed.2 with inr opps => opps | inl _ => [] end in
  getOpportunitiesByStage B env config w
  = (World (ext listed.1) (heap w) (trace w ++ [CValuesGet range; CGetSystemConfig]),
     inr match classifyAll (initGroups stages) opps with
         | inr groups => groups
         | inl _ => StageGroups ∅ None
         end).
Proof.
  cbv zeta. rewrite getOpportunities_run. cbv zeta.
  unfold getOpportunitiesByStage, try_catch at 1, bind at 1, fetchRows, sheets_get, read_call.
  cbn [log ext heap trace].
  unfold bind at 1, getStages, try_catch, bind at 1, read_call. cbn [log ext heap trace].
  destruct (system_stages env (ext w)) as [e|[stages|]];
    destruct (values_get B _ (ext w)) as [e'|[[|headerRow rows]|]];
    cbn [ret default id readOpportunities snd fst ext];
    unfold bind, cacheOpportunities, EventLogService.settle, log;
    change (fold_left initGroup ?a {| own := ∅; proto := None |}) with (initGroups a);
    cbn [ret ext heap trace throw];
    repeat first
      [ reflexivity
      | progress cbn [ret throw ext heap trace app fst snd]
      | progress rewrite <- app_assoc
      | match goal with
        | |- context [cache_put env] => destruct (cache_put env)
        | |- context [classifyAll ?g ?l] => destruct (classifyAll g l)
        end ].
Qed.

(** X16.  getOpportunitiesByStage returns groups and never an error, after
    the fetch of the sheet and the fetch of the system configuration.
    Every group of the result, under the key k, holds exactly the
    opportunities getOpportunities lists that are in progress and whose
    stage is k, in the order of that list, and its count is their number;
    no opportunity is in two groups. *)
Theorem stage_groups_hold_the_opportunities_in_progress (w : world S) :
  let range := SHEETS_OPPORTUNITIES config ++ "!A:ZZ" in
  let run := getOpportunitiesByStage B env config w in
  exists groups opps,
    run.2 = inr groups
    /\ (getOpportunities B env config w).2 = inr opps
    /\ new_calls w run.1 = [CValuesGet range; CGetSystemConfig]
    /\ (forall k g, own groups !! k = Some g ->
          opportunities g = List.filter (active_in k) opps
          /\ count g = Z.of_nat (length (opportunities g)))
    /\ (forall k k' g g' o,
          own groups !! k = Some g -> own groups !! k' = Some g' ->
          o ∈ opportunities g -> o ∈ opportunities g' -> k = k').
Proof.
  cbv zeta. rewrite getOpportunitiesByStage_run. cbv zeta. cbn [fst snd].
  destruct (getOpportunities_returns B env config w) as [opps Hopps]. rewrite Hopps.
  eexists _, opps. split; [reflexivity|]. split; [reflexivity|].
  split; [apply new_calls_app; reflexivity|].
  assert (Hg : forall k g,
             own match classifyAll
                         (initGroups match system_stages env (ext w) with
                                     | inr (Some stages) => stages
                                     | _ => []
                                     end) opps with
                 | inr groups => groups
                 | inl _ => StageGroups ∅ None
                 end !! k = Some g ->
             opportunities g = List.filter (active_in k) opps
             /\ count g = Z.of_nat (length (opportunities g))).
  { destruct (classifyAll _ opps) as [e|groups] eqn:Hc.
    - intros k g Hk. cbn in Hk. rewrite lookup_empty in Hk. discriminate.
    - pose proof (classifyAll_grouped opps [] _ _ (initGroups_grouped _) Hc) as (_ & Ho & _).
      exact Ho. }
  split; [exact Hg|].
  intros k k' g g' o Hk Hk' Ho Ho'.
  apply Hg in Hk, Hk'. destruct Hk as [Hk _]. destruct Hk' as [Hk' _].
  rewrite Hk in Ho. rewrite Hk' in Ho'.
  apply elem_of_List_filter in Ho, Ho'. destruct Ho as [_ Ho]. destruct Ho' as [_ Ho'].
  unfold active_in in Ho, Ho'.
  apply andb_true_iff in Ho, Ho'. destruct Ho as [_ Ho]. destruct Ho' as [_ Ho'].
  apply String.eqb_eq in Ho, Ho'. congruence.
Qed.

(** X17.  One opportunity can empty the result: when an opportunity in
    progress has a stage that names a property every object inherits
    (constructor, toString, __proto__, ...) and that no stage of the
    configuration has, and no stage of the configuration is named
    __proto__, getOpportunitiesByStage returns the object with no group,
    whatever the other opportunities and the stages are. *)
Theorem an_inherited_stage_empties_the_groups (w : world S) opps o :
  (getOpportunities B env config w).2 = inr opps ->
  o ∈ opps ->
  currentStatus o = "進行中" ->
  inherited (currentStage o) = true ->
  (forall stages st,
     system_stages env (ext w) = inr (Some stages) -> st ∈ stages ->
     stage_value st <> currentStage o /\ stage_value st <> "__proto__") ->
  (getOpportunitiesByStage B env config w).2 = inr (StageGroups ∅ None).
Proof.
  intros Hopps Hin Hs Hi Hst. rewrite getOpportunitiesByStage_run. cbv zeta. cbn [snd].
  rewrite Hopps.
  assert (Hno : forall st,
             st ∈ match system_stages env (ext w) with
                  | inr (Some stages) => stages
                  | _ => []
                  end ->
             stage_value st <> currentStage o /\ stage_value st <> "__proto__").
  { destruct (system_stages env (ext w)) as [e|[stages|]];
      [intros st H; inversion H | | intros st H; inversion H].
    intros st H. apply (Hst stages st eq_refl H). }
  destruct (initGroups_shape match system_stages env (ext w) with
                             | inr (Some stages) => stages
                             | _ => []
                             end) as (H1 & H2 & H3).
  rewrite (classifyAll_throws opps _ o Hin Hs Hi); [reflexivity | |].
  - destruct (String.eqb_spec (currentStage o) "__proto__") as [He|He].
    + rewrite He. exact H2.
    + apply H1; [exact He|]. intros st Hin'. apply Hno. exact Hin'.
  - apply H3. intros st Hin'. apply Hno. exact Hin'.
Qed.

End Stages.

Lemma last_stage_snoc stages st0 k i st :
  OpportunityReader.stage_value st0 <> k ->
  last_stage (stages ++ [st0]) k i st <-> last_stage stages k i st.
Proof.
  intros Hne. unfold last_stage. split.
  - intros (Hi & Hv & Hlast).
    destruct (Nat.lt_ge_cases i (length stages)) as [Hlt|Hge].
    + rewrite lookup_app_l in Hi by exact Hlt. split; [exact Hi|]. split; [exact Hv|].
      intros j st' Hj Hl. apply (Hlast j st' Hj).
      apply lookup_app_l_Some. exact Hl.
    + exfalso. rewrite lookup_app_r in Hi by exact Hge.
      destruct (i - length stages)%nat as [|n]; [|destruct n; discriminate].
      injection Hi as <-. contradiction.
  - intros (Hi & Hv & Hlast). split; [apply lookup_app_l_Some; exact Hi|].
    split; [exact Hv|].
    intros j st' Hj Hl.
    destruct (Nat.lt_ge_cases j (length stages)) as [Hlt|Hge].
    + rewrite lookup_app_l in Hl by exact Hlt. apply (Hlast j st' Hj Hl).
    + rewrite lookup_app_r in Hl by exact Hge.
      destruct (j - length stages)%nat as [|n]; [|destruct n; discriminate].
      injection Hl as <-. exact Hne.
Qed.

(** The groups before the classification: one for each value of a stage
    other than __proto__, named after the last stage with that value. *)
Lemma initGroups_lookup stages : forall k g,
  own (initGroups stages) !! k = Some g
  <-> k <> "__proto__"
      /\ exists (i : nat) st,
           last_stage stages k i st
           /\ g = {| name := stageName st; opportunities := []; count := 0 |}.
Proof.
  unfold initGroups.
  induction stages as [|st0 stages IH] using rev_ind; intros k g.
  { cbn. rewrite lookup_empty. split; [discriminate|].
    intros (_ & i & st & (H & _) & _). rewrite lookup_nil in H. discriminate. }
  rewrite fold_left_app. cbn [fold_left]. unfold initGroup at 1.
  assert (Hkeep : stage_value st0 <> k ->
            (k <> "__proto__"
             /\ exists (i : nat) st,
                  last_stage (stages ++ [st0]) k i st
                  /\ g = {| name := stageName st; opportunities := []; count := 0 |})
            <-> (k <> "__proto__"
                 /\ exists (i : nat) st,
                      last_stage stages k i st
                      /\ g = {| name := stageName st; opportunities := []; count := 0 |})).
  { intros Hne. split; intros (Hk & i & st & Hl & Hg); (split; [exact Hk|]); exists i, st;
      (split; [|exact Hg]); apply (last_stage_snoc stages st0 k i st Hne); exact Hl. }
  destruct (String.eqb_spec (stage_value st0) "__proto__") as [He|He]; cbn [own].
  { rewrite IH.
    destruct (String.eqb_spec k "__proto__") as [Hk|Hk].
    - split; intros (H & _); contradiction.
    - symmetry. apply Hkeep. congruence. }
  destruct (decide (stage_value st0 = k)) as [Hk|Hk].
  - subst k. rewrite lookup_insert_eq.
    assert (Hlast : last_stage (stages ++ [st0]) (stage_value st0) (length stages) st0).
    { split; [rewrite lookup_app_r by lia; rewrite Nat.sub_diag; reflexivity|].
      split; [reflexivity|].
      intros j st' Hj Hl. apply lookup_lt_Some in Hl. rewrite length_app in Hl.
      cbn in Hl. lia. }
    split.
    + intros [= <-]. split; [exact He|]. exists (length stages), st0.
      split; [exact Hlast | reflexivity].
    + intros (_ & i & st & (Hi & Hv & Hno) & ->).
      destruct (Nat.lt_ge_cases i (length stages)) as [Hlt|Hge].
      * exfalso. destruct Hlast as (Hl & _). apply (Hno (length stages) st0 Hlt Hl). reflexivity.
      * rewrite lookup_app_r in Hi by exact Hge.
        destruct (i - length stages)%nat as [|n]; [|destruct n; discriminate].
        injection Hi as <-. reflexivity.
  - rewrite lookup_insert_ne by exact Hk. rewrite IH. symmetry. apply Hkeep. exact Hk.
Qed.

(** The classification keeps the keys and the names of the groups. *)
Lemma classify_names groups opp groups' :
  classify groups opp = inr groups' ->
  forall k, name <$> own groups' !! k = name <$> own groups !! k.
Proof.
  unfold classify. destruct (String.eqb _ _); [|intros [= <-]; reflexivity].
  unfold lookupGroup.
  destruct (own groups !! currentStage opp) as [g|] eqn:Hown.
  { intros [= <-] k. cbn [own].
    destruct (decide (currentStage opp = k)) as [<-|Hk].
    - rewrite lookup_insert_eq, Hown. reflexivity.
    - rewrite lookup_insert_ne by exact Hk. reflexivity. }
  intros Hc k.
  destruct (proto groups) as [g|];
    repeat match type of Hc with
           | context [if ?b then _ else _] => destruct b
           end;
    try discriminate; injection Hc as <-; reflexivity.
Qed.

Lemma classifyAll_names opps : forall groups groups',
  classifyAll groups opps = inr groups' ->
  forall k, name <$> own groups' !! k = name <$> own groups !! k.
Proof.
  induction opps as [|opp opps IH]; intros groups groups' Hc k.
  { injection Hc as <-. reflexivity. }
  cbn [classifyAll] in Hc.
  destruct (classify groups opp) as [e|groups1] eqn:H1; [discriminate|].
  rewrite (IH _ _ Hc k). apply (classify_names _ _ _ H1).
Qed.

(** The classification succeeds when no opportunity in progress is at a
    stage that is an inherited name and no group. *)
Lemma classifyAll_succeeds opps : forall groups,
  proto groups = None ->
  (forall o, o ∈ opps -> currentStatus o = "進行中" ->
             inherited (currentStage o) = false \/ own groups !! currentStage o <> None) ->
  exists groups', classifyAll groups opps = inr groups' /\ proto groups' = None.
Proof.
  induction opps as [|opp opps IH]; intros groups Hproto Hok.
  { exists groups. split; [reflexivity | exact Hproto]. }
  cbn [classifyAll].
  assert (Hc : exists groups1, classify groups opp = inr groups1).
  { unfold classify. destruct (String.eqb_spec (currentStatus opp) "進行中") as [Hs|Hs];
      [|eexists; reflexivity].
    unfold lookupGroup. rewrite Hproto.
    destruct (own groups !! currentStage opp) as [g|] eqn:Hown; [eexists; reflexivity|].
    destruct (Hok opp (list_elem_of_here _ _) Hs) as [Hi|Hi]; [|contradiction].
    rewrite Hi. eexists; reflexivity. }
  destruct Hc as [groups1 Hc]. rewrite Hc.
  destruct (classify_shape _ _ _ Hc) as [H1 H2].
  apply IH; [apply H2; exact Hproto|].
  intros o Hin Hs. destruct (Hok o (list_elem_of_further _ _ _ Hin) Hs) as [Hi|Hi];
    [left; exact Hi | right].
  intros Hn. apply Hi. apply H1. exact Hn.
Qed.

Section StageNames.
Context {S : Type} (B : backend S) (env : reader_env S) (config : reader_config).

(** X19.  The groups are the stages of the configuration.  When no stage is
    named __proto__ and every listed opportunity in progress is at a stage
    of the configuration or at a stage that is no inherited name, the
    result of getOpportunitiesByStage has a group under k exactly when a
    stage has the value k, and the name of the group is the note of the
    last stage with that value, or the value itself when that stage has no
    note. *)
Theorem stages_of_the_configuration_are_the_groups (w : world S) opps stages :
  (getOpportunities B env config w).2 = inr opps ->
  system_stages env (ext w) = inr (Some stages) ->
  (forall st, st ∈ stages -> stage_value st <> "__proto__") ->
  (forall o, o ∈ opps -> currentStatus o = "進行中" ->
             inherited (currentStage o) = false
             \/ exists st, st ∈ stages /\ stage_value st = currentStage o) ->
  exists groups,
    (getOpportunitiesByStage B env config w).2 = inr groups
    /\ proto groups = None
    /\ (forall k, is_Some (own groups !! k) <-> exists st, st ∈ stages /\ stage_value st = k)
    /\ (forall k g, own groups !! k = Some g ->
          exists (i : nat) st, last_stage stages k i st /\ name g = stageName st).
Proof.
  intros Hopps Hst Hnp Hok. rewrite getOpportunitiesByStage_run. cbv zeta. cbn [snd].
  rewrite Hopps, Hst.
  destruct (initGroups_shape stages) as (_ & _ & Hproto). specialize (Hproto Hnp).
  assert (Hhas : forall k, (exists st, st ∈ stages /\ stage_value st = k) ->
                           exists (i : nat) st, last_stage stages k i st).
  { clear. induction stages as [|st0 stages IH] using rev_ind; intros k (st & Hin & Hv).
    { inversion Hin. }
    destruct (decide (stage_value st0 = k)) as [Hk|Hk].
    - exists (length stages), st0. split; [rewrite lookup_app_r by lia;
                                            rewrite Nat.sub_diag; reflexivity|].
      split; [exact Hk|].
      intros j st' Hj Hl. apply lookup_lt_Some in Hl. rewrite length_app in Hl.
      cbn in Hl. lia.
    - apply elem_of_app in Hin. destruct Hin as [Hin|Hin].
      + destruct (IH k) as (i & st1 & Hl); [exists st; split; assumption|].
        exists i, st1. apply last_stage_snoc; assumption.
      + apply list_elem_of_singleton in Hin. subst st. contradiction. }
  assert (Hinit : forall k, own (initGroups stages) !! k <> None
                            <-> exists st, st ∈ stages /\ stage_value st = k).
  { intros k. split.
    - intros Hn. destruct (own (initGroups stages) !! k) as [g|] eqn:Hg; [|contradiction].
      apply initGroups_lookup in Hg. destruct Hg as (_ & i & st & (Hi & Hv & _) & _).
      exists st. split; [eapply list_elem_of_lookup_2; exact Hi | exact Hv].
    - intros Hex. destruct (Hhas k Hex) as (i & st & Hl).
      assert (Hk : k <> "__proto__").
      { destruct Hex as (st' & Hin & <-). apply Hnp. exact Hin. }
      rewrite (proj2 (initGroups_lookup stages k _) (conj Hk (ex_intro _ i (ex_intro _ st
                 (conj Hl eq_refl))))).
      discriminate. }
  destruct (classifyAll_succeeds opps (initGroups stages) Hproto) as (groups & Hc & Hp).
  { intros o Hin Hs. destruct (Hok o Hin Hs) as [Hi|Hex]; [left; exact Hi | right].
    apply Hinit. exact Hex. }
  rewrite Hc. exists groups. split; [reflexivity|]. split; [exact Hp|].
  pose proof (classifyAll_names opps _ _ Hc) as Hn.
  split.
  - intros k. rewrite <- Hinit. specialize (Hn k).
    destruct (own groups !! k), (own (initGroups stages) !! k); cbn in Hn;
      try discriminate; split; intros H; try (eexists; reflexivity); try discriminate;
      try (destruct H; discriminate); congruence.
  - intros k g Hg. specialize (Hn k). rewrite Hg in Hn.
    destruct (own (initGroups stages) !! k) as [g0|] eqn:Hg0; [|discriminate].
    cbn in Hn. injection Hn as Hn.
    apply initGroups_lookup in Hg0. destruct Hg0 as (_ & i & st & Hl & ->).
    exists i, st. split; [exact Hl | exact Hn].
Qed.

End StageNames.

(** ** The properties beyond the claims at concrete inputs *)

(** The append of the move is refused on the test double: the move fails
    with the append's error and the delete is what was done to the table. *)
Lemma move_failure_witness :
  sample_faulty_move_run.2 = inl (Rejected "append")
  /\ ext sample_faulty_move_run.1 = [CDeleteRow "EventLogs_General" (Int 5)].
Proof.
  unfold sample_faulty_move_run.
  rewrite (proj2 (move_stops_at_first_failure sample_faulty_backend sample_config
                    sample_event sample_move (Str "alice") sample_world)
             [CDeleteRow "EventLogs_General" (Int 5)] (Rejected "append") eq_refl eq_refl).
  split; reflexivity.
Defined.

(** No record of the test double has the id EVT9. *)
Lemma unknown_event_id_witness :
  (updateEventLog sample_backend sample_config (Str "EVT9") sample_update (Str "alice")
     sample_world).2 = inl (EventIdNotFound "EVT9").
Proof.
  rewrite (unknown_event_id_is_refused sample_backend sample_config "EVT9" sample_update
             (Str "alice") sample_world [1%positive]).
  - reflexivity.
  - reflexivity.
  - vm_compute. reflexivity.
  - intros l Hl. apply list_elem_of_singleton in Hl. subst l. vm_compute. discriminate.
Defined.

(** The record EVT1 of the test double is at row 5. *)
Lemma event_id_witness :
  updateEventLog sample_backend sample_config (Str "EVT1") sample_update (Str "alice")
    sample_world
  = updateEvent sample_backend sample_config (Int 5) sample_update
      (Some {[ "displayName" := Str "alice" ]}) (log CGetEventLogs sample_world).
Proof.
  apply (event_id_resolves_to_its_row sample_backend sample_config "EVT1" 5 sample_update
           (Str "alice") sample_world [1%positive] sample_event).
  - reflexivity.
  - vm_compute. reflexivity.
  - vm_compute. reflexivity.
  - vm_compute. reflexivity.
  - discriminate.
  - vm_compute. reflexivity.
Defined.


(** The move of the test double deletes a row: the types differ. *)
Lemma relocation_witness :
  exists o,
    truthy (get o "eventType") = true /\ get sample_move "eventType" <> get o "eventType".
Proof.
  destruct (only_a_type_change_relocates sample_backend sample_config (Int 5) sample_move
              (Str "alice") sample_world) as (refs & o & _ & _ & _ & H1 & H2).
  - exists (CDeleteRow "EventLogs_General" (Int 5)). split; [|reflexivity].
    change (CDeleteRow "EventLogs_General" (Int 5)
              ∈ new_calls sample_world sample_service_move_run.1).
    vm_compute. apply list_elem_of_further, list_elem_of_here.
  - exists o. split; assumption.
Defined.

(** Two updates of a row at revision 3 leave it at revision 5. *)
Lemma revision_witness :
  revise [(sample_update, "2026-01-23T10:00:00.000Z"); (sample_move, "2026-01-24T10:00:00.000Z")]
    (Str "3")
  = Str "5".
Proof.
  apply (proj1 (revision_counts_updates
                  [(sample_update, "2026-01-23T10:00:00.000Z");
                   (sample_move, "2026-01-24T10:00:00.000Z")] (Str "3")
                  ltac:(discriminate)) 3).
  - left. split; [reflexivity | lia].
  - vm_compute. discriminate.
Defined.

(** The row of the test double read back without its eight empty cells. *)
Lemma stable_witness :
  length (updateCells sample_move "2026-01-24T10:00:00.000Z"
            (_getFieldsByType sample_config (get sample_move "eventType"))
            (padRow (length (_getFieldsByType sample_config (get sample_move "eventType")))
               (map Str sample_read_back)))
  = length (_getFieldsByType sample_config (get sample_move "eventType")).
Proof.
  apply (update_after_create_is_stable sample_config sample_move (Str "alice")
           "2026-01-23T10:00:00.000Z" "EVT1769162400000" "2026-01-24T10:00:00.000Z"
           sample_read_back 15).
  - vm_compute. reflexivity.
  - assert (Hd : Forall (fun c => c = Str "") (drop 15 sample_created))
      by (vm_compute; repeat constructor).
    intros i cell Hi Hc. rewrite Forall_lookup in Hd. apply (Hd (i - 15)%nat).
    rewrite lookup_drop. replace (15 + (i - 15))%nat with i by lia. exact Hc.
Defined.

(** The number 5, the string 5 between white space and a numeral that
    rounds to 5 address the same row. *)
Lemma addressing_witness :
  updateEventLog sample_backend sample_config (Str " 5 ") sample_update (Str "alice")
    sample_world
  = updateEventLog sample_backend sample_config (Int 5) sample_update (Str "alice")
      sample_world
  /\ updateEventLog sample_backend sample_config (Str "5.0000000000000000001") sample_update
       (Str "alice") sample_world
     = updateEventLog sample_backend sample_config (Int 5) sample_update (Str "alice")
         sample_world.
Proof.
  split; apply row_is_addressed_by_its_number; vm_compute; reflexivity.
Defined.

(** ** The doubles at work *)

(** The guard compares doubles: a numeral a little above 1 rounds to 1 and
    is refused, the next double above 1 passes. *)
Example guard_rounds_example :
  rowIndex_rejected (Str "1.0000000000000000001") = true
  /\ rowIndex_rejected (Str "1.0000000000000002") = false
  /\ rowIndex_rejected (Str "1e400") = false.
Proof. repeat split; vm_compute; reflexivity. Qed.

(** The revision is a double: 9007199254740993 reads as 2^53, and 2^53 + 1
    rounds to 2^53. *)
Example revision_rounds_example :
  updateCell sample_update "2026-01-23T10:00:00.000Z" "修訂版次" (Str "9007199254740993")
  = Str "9007199254740992"
  /\ updateCell sample_update "2026-01-23T10:00:00.000Z" "修訂版次" (Str "9007199254740994")
     = Str "9007199254740996".
Proof. split; vm_compute; reflexivity. Qed.

(** The service resolves the row by the double: a numeral that rounds to 2
    is row 2, one that rounds to 5 finds the record of row 5, and a numeral
    beyond the doubles is Infinity, which is no row. *)
Example resolution_rounds_example :
  resolveRowIndex [sample_event] (Str "2.0000000000000000001") = inr 2
  /\ resolveOriginal [sample_other_event; sample_event] (Str "5.0000000000000000001")
       sample_update = Some sample_event
  /\ resolveRowIndex [sample_event] (Str "1e400") = inl InvalidResolvedRowIndex.
Proof. repeat split; vm_compute; reflexivity. Qed.

(** The calendar on the test double: the event of a payload created at a
    valid date is handed over after the append and the invalidations; with
    an invalid date no call is made to the calendar, and the result is the
    writer's all the same. *)
Example calendar_sync_example :
  (exists cs,
     new_calls sample_world (sample_sync_run "2025-12-01T08:00:00.000Z").1
     = (cs ++ [ CCalendarSync
                  {| summary := "[general] visit";
                     description := Str "";
                     start_dateTime := "2026-01-23T10:00:00.000Z";
                     end_dateTime := "2026-01-23T10:00:00.000Z" |} ])%list)
  /\ (forall event,
        CCalendarSync event ∉ new_calls sample_world (sample_sync_run "invalid").1)
  /\ (sample_sync_run "invalid").2
     = (EventLogWriter.createEventLog sample_backend sample_config (sample_sync "invalid")
          (Str "System") sample_world).2.
Proof.
  split; [|split].
  - eexists [_; _; _]. vm_compute. reflexivity.
  - intros event Hin.
    set (calls := new_calls _ _) in Hin. vm_compute in calls. subst calls.
    rewrite !elem_of_cons in Hin.
    destruct Hin as [Hin|[Hin|[Hin|Hin]]]; [discriminate.. | inversion Hin].
  - vm_compute. reflexivity.
Qed.

(** The field ID of the test double is read under the last column titled
    ID, the first one, titled ID between spaces, being shadowed. *)
Lemma header_witness :
  _getValue ["x"; "Alpha"; "Acme"; "進行中"; "s1"; "OPP1"] (_buildHeaderMap sample_header) "ID"
  = "OPP1".
Proof.
  rewrite (proj1 (getValue_reads_the_last_titled_column sample_header
                    ["x"; "Alpha"; "Acme"; "進行中"; "s1"; "OPP1"] "ID") 5%nat "ID").
  - reflexivity.
  - reflexivity.
  - discriminate.
  - vm_compute. reflexivity.
  - discriminate.
  - intros j title' Hj Hl. apply lookup_lt_Some in Hl. cbn in Hl. lia.
Defined.

(** The sheet of the test double: two of its four rows are listed, those
    at the rows 2 and 5 of the sheet. *)
Lemma live_rows_witness :
  exists opps,
    (getOpportunities sample_reader_backend sample_reader_env sample_reader_config
       sample_world).2 = inr opps
    /\ NoDup (map rowIndex opps).
Proof.
  destruct (getOpportunities_lists_the_live_rows sample_reader_backend sample_reader_env
              sample_reader_config sample_world sample_header sample_sheet_rows)
    as (opps & H1 & _ & H3 & _).
  - intros l. reflexivity.
  - reflexivity.
  - exists opps. split; assumption.
Defined.

(** The opportunity of the test double at the stage constructor empties the
    groups, though the stage s1 has an opportunity in progress. *)
Lemma inherited_stage_witness :
  (getOpportunitiesByStage sample_reader_backend sample_reader_env sample_reader_config
     sample_world).2 = inr (StageGroups ∅ None).
Proof.
  apply (an_inherited_stage_empties_the_groups sample_reader_backend sample_reader_env
           sample_reader_config sample_world sample_listed
           (parseRow sample_field_names (_buildHeaderMap sample_header) 4
              [ "x"; "Gamma"; "Bolt"; "進行中"; "constructor"; "OPP3" ])).
  - vm_compute. reflexivity.
  - vm_compute. apply list_elem_of_further, list_elem_of_here.
  - vm_compute. reflexivity.
  - vm_compute. reflexivity.
  - intros stages st [= <-] Hst. rewrite !elem_of_cons in Hst.
    destruct Hst as [->|[->|Hst]]; [split; vm_compute; discriminate.. | inversion Hst].
Defined.

(** With a stage for every stage of the sheet, the stage s2, which no
    opportunity is at, has its group. *)
Lemma stage_names_witness :
  exists groups,
    (getOpportunitiesByStage sample_reader_backend sample_staged_env sample_reader_config
       sample_world).2 = inr groups
    /\ is_Some (own groups !! "s2").
Proof.
  destruct (stages_of_the_configuration_are_the_groups sample_reader_backend
              sample_staged_env sample_reader_config sample_world sample_listed sample_stages)
    as (groups & H1 & _ & H3 & _).
  - vm_compute. reflexivity.
  - reflexivity.
  - intros st Hst. unfold sample_stages in Hst. rewrite !elem_of_cons in Hst.
    destruct Hst as [->|[->|[->|Hst]]]; [discriminate.. | inversion Hst].
  - assert (Hall : forallb (fun o => negb (inherited (currentStage o))
                                     || existsb (fun st => String.eqb (stage_value st)
                                                             (currentStage o)) sample_stages)
                     sample_listed = true) by (vm_compute; reflexivity).
    intros o Hin _. rewrite forallb_forall in Hall.
    specialize (Hall o (proj1 (list_elem_of_In _ _) Hin)).
    apply orb_true_iff in Hall. destruct Hall as [Hi|Hex].
    + left. apply negb_true_iff. exact Hi.
    + right. apply existsb_exists in Hex. destruct Hex as (st & Hst & Heq).
      exists st. split; [apply list_elem_of_In; exact Hst | apply String.eqb_eq; exact Heq].
  - exists groups. split; [exact H1|]. apply H3.
    exists (Stage "s2" ""). split; [|reflexivity].
    apply list_elem_of_further, list_elem_of_here.
Defined.
